(** * data_cleaner_app: ingestion cascade and cleaning engine

    A shallow embedding of the CSV ingestion code ([app.py],
    [utils/csv_fixer.py]) and of the cleaning engine
    ([utils/simple_cleaner.py], [utils/data_cleaner.py]), with the
    properties of the specification stated and settled against it.

    Conventions.
    - A Python [str] is a list of Unicode code points ([N]).
    - Libraries the repository calls but does not contain (pandas' CSV
      parser, chardet, the codecs, the interpreter's Unicode database
      outside Latin-1) are taken as parameters, bundled in records.
    - A call that can raise returns [option]: [None] is the exception. *)

From Stdlib Require Import NArith QArith Ascii String.
From stdpp Require Import base option list gmap strings fin_maps stringmap.

Local Open Scope N_scope.

(** ** Python built-ins on strings *)
Module Py.

Definition char := N.
Definition str := list char.

Fixpoint of_ascii_string (s : string) : str :=
  match s with
  | EmptyString => []
  | String a s' => N_of_ascii a :: of_ascii_string s'
  end.

Notation "'u' s" := (of_ascii_string s%string) (at level 1, s at level 0, format "'u' s").

Definition COMMA : char := 44.
Definition SEMICOLON : char := 59.
Definition TAB : char := 9.
Definition PIPE : char := 124.
Definition QUOTE : char := 34.
Definition LF : char := 10.
Definition CR : char := 13.
Definition UNDERSCORE : char := 95.
Definition DOLLAR : char := 36.
Definition LBRACKET : char := 91.
Definition BOM : char := 0xFEFF.

(** [str.isspace] for one code point; also the class [\s] of [re] on
    [str] patterns.  The table is the interpreter's, complete. *)
Definition isspace (c : char) : bool :=
  ((9 <=? c) && (c <=? 13)) || ((28 <=? c) && (c <=? 32))
  || (c =? 0x85) || (c =? 0xA0) || (c =? 0x1680)
  || ((0x2000 <=? c) && (c <=? 0x200A))
  || (c =? 0x2028) || (c =? 0x2029) || (c =? 0x202F) || (c =? 0x205F)
  || (c =? 0x3000).

(** The Unicode database of the interpreter beyond Latin-1: which code
    points are alphanumeric and their full lower-case mapping (which
    may yield several code points and, for capital sigma, depends on
    the characters before and after). *)
Record unicode_data := {
  ucd_alnum : char -> bool;
  ucd_lower : str -> char -> str -> str
}.

(** [str.isalnum] below 256. *)
Definition latin1_alnum (c : char) : bool :=
  ((48 <=? c) && (c <=? 57)) || ((65 <=? c) && (c <=? 90))
  || ((97 <=? c) && (c <=? 122))
  || (c =? 0xAA) || (c =? 0xB2) || (c =? 0xB3) || (c =? 0xB5)
  || (c =? 0xB9) || (c =? 0xBA) || ((0xBC <=? c) && (c <=? 0xBE))
  || ((0xC0 <=? c) && (c <=? 0xD6)) || ((0xD8 <=? c) && (c <=? 0xF6))
  || ((0xF8 <=? c) && (c <=? 0xFF)).

(** [str.lower] below 256. *)
Definition latin1_lower (c : char) : char :=
  if ((65 <=? c) && (c <=? 90))
     || ((0xC0 <=? c) && (c <=? 0xD6)) || ((0xD8 <=? c) && (c <=? 0xDE))
  then c + 32 else c.

Definition isalnum (U : unicode_data) (c : char) : bool :=
  if c <? 256 then latin1_alnum c else ucd_alnum U c.

(** The class [\w] of [re] on [str] patterns. *)
Definition is_word (U : unicode_data) (c : char) : bool :=
  isalnum U c || (c =? UNDERSCORE).

Definition lower_char (U : unicode_data) (before : str) (c : char) (after : str) : str :=
  if c <? 256 then [latin1_lower c] else ucd_lower U before c after.

Fixpoint lower_from (U : unicode_data) (before s : str) : str :=
  match s with
  | [] => []
  | c :: rest => lower_char U before c rest ++ lower_from U (before ++ [c]) rest
  end.

(** [s.lower()] *)
Definition lower (U : unicode_data) (s : str) : str := lower_from U [] s.

Fixpoint lstrip (s : str) : str :=
  match s with
  | [] => []
  | c :: rest => if isspace c then lstrip rest else s
  end.

Definition rstrip (s : str) : str := rev (lstrip (rev s)).

(** [s.strip()] *)
Definition strip (s : str) : str := rstrip (lstrip s).

(** [s.count(c)] for a one-character [c]. *)
Definition count (c : char) (s : str) : nat :=
  length (List.filter (N.eqb c) s).

(** [s.split(c)] for a one-character separator. *)
Fixpoint split (c : char) (s : str) : list str :=
  match s with
  | [] => [[]]
  | x :: rest =>
      if x =? c then [] :: split c rest
      else match split c rest with
           | f :: fs => (x :: f) :: fs
           | [] => [[x]]
           end
  end.

(** [sep.join(parts)] *)
Fixpoint join (sep : str) (parts : list str) : str :=
  match parts with
  | [] => []
  | [p] => p
  | p :: ps => p ++ sep ++ join sep ps
  end.

Fixpoint startswith (p s : str) : bool :=
  match p, s with
  | [], _ => true
  | _ :: _, [] => false
  | a :: p', b :: s' => (a =? b) && startswith p' s'
  end.

(** [s.replace(old, new)] for a non-empty [old]: left to right, matches
    do not overlap.  [skip] counts the characters of a match still to
    be passed over. *)
Fixpoint replace_from (old new : str) (skip : nat) (s : str) : str :=
  match s with
  | [] => []
  | c :: rest =>
      match skip with
      | S k => replace_from old new k rest
      | O =>
          if startswith old s
          then new ++ replace_from old new (length old - 1) rest
          else c :: replace_from old new 0 rest
      end
  end.

Definition replace (old new s : str) : str := replace_from old new 0 s.

(** [re.sub(r'\s+', repl, s)]: every maximal run of white space becomes
    one [repl]. *)
Fixpoint sub_spaces (repl : str) (in_run : bool) (s : str) : str :=
  match s with
  | [] => []
  | c :: rest =>
      if isspace c
      then (if in_run then [] else repl) ++ sub_spaces repl true rest
      else c :: sub_spaces repl false rest
  end.

(** The lines a text file yields when iterated: each keeps its line
    feed; a last line without one is yielded if it is not empty. *)
Fixpoint file_lines_from (cur : str) (s : str) : list str :=
  match s with
  | [] => match cur with [] => [] | _ => [rev cur] end
  | c :: rest =>
      if c =? LF then rev (c :: cur) :: file_lines_from [] rest
      else file_lines_from (c :: cur) rest
  end.

Definition file_lines (s : str) : list str := file_lines_from [] s.

(** [max(keys, key=f)]: the first key whose value is maximal. *)
Fixpoint max_by {A} (f : A -> nat) (best : A) (l : list A) : A :=
  match l with
  | [] => best
  | x :: l' => if (f best <? f x)%nat then max_by f x l' else max_by f best l'
  end.

(** A character that normalising a column name leaves alone: a
    Latin-1 word character in lower case. *)
Definition settled (c : char) : bool :=
  (c <? 256) && (latin1_alnum c || (c =? UNDERSCORE))
  && (latin1_lower c =? c) && negb (isspace c).

(** A character that normalising a column name leaves alone under the
    database [U]: a word character, no white space, and its own lower
    case wherever it stands. *)
Definition stable (U : unicode_data) (c : char) : Prop :=
  is_word U c = true /\ isspace c = false
  /\ forall before after, lower_char U before c after = [c].

(** A name whose word characters are lower-cased to stable characters. *)
Definition lowers_to_stable (U : unicode_data) (s : str) : Prop :=
  Forall (fun c => is_word U c = true -> isspace c = false ->
                   forall before after, Forall (stable U) (lower_char U before c after)) s.

(** A character that is neither a quote nor a line break. *)
Definition plain (c : char) : bool :=
  negb (c =? QUOTE) && negb (c =? LF) && negb (c =? CR).

(** [x > y] and [x < y] on numbers. *)
Definition Qgt_bool (x y : Q) : bool := negb (Qle_bool x y).
Definition Qlt_bool (x y : Q) : bool := negb (Qle_bool y x).

(** [c in s] for a one-character [c]. *)
Definition contains (c : char) (s : str) : bool := existsb (N.eqb c) s.

(** [l[:n]] and [l[n:]] are [take n l] and [drop n l]. *)
Definition pad_right {A} (fill : A) (w : nat) (l : list A) : list A :=
  l ++ replicate (w - length l) fill.

End Py.

(** ** The [csv] module: [csv.reader] with the default dialect

    The reader of the standard library, as the state machine of its
    implementation: the double quote as quote character, doubled inside quoted
    fields, not strict, fields limited to [field_limit] characters.  It
    is fed the lines of a file and yields one list of fields per
    record; [None] is [csv.Error]. *)
Module Csv.
Import Py.

Inductive state :=
  | START_RECORD | START_FIELD | IN_FIELD
  | IN_QUOTED_FIELD | QUOTE_IN_QUOTED_FIELD | EAT_CRNL.

Record parser := {
  st : state;
  field : str;
  fields : list str
}.

Definition field_limit : N := 131072.

Definition reset : parser := {| st := START_RECORD; field := []; fields := [] |}.

Definition set_state (s : state) (p : parser) : parser :=
  {| st := s; field := field p; fields := fields p |}.

Definition save_field (p : parser) : parser :=
  {| st := st p; field := []; fields := fields p ++ [field p] |}.

Definition add_char (c : char) (p : parser) : option parser :=
  if field_limit <=? N.of_nat (length (field p)) then None
  else Some {| st := st p; field := field p ++ [c]; fields := fields p |}.

(** The end of a line is the event [None]. *)
Definition is_newline (c : option char) : bool :=
  match c with
  | None => true
  | Some x => (x =? LF) || (x =? CR)
  end.

Definition after_newline (c : option char) : state :=
  match c with None => START_RECORD | Some _ => EAT_CRNL end.

Definition start_field (d : char) (p : parser) (c : option char) : option parser :=
  if is_newline c then Some (set_state (after_newline c) (save_field p))
  else match c with
       | None => Some p
       | Some x =>
           if x =? QUOTE then Some (set_state IN_QUOTED_FIELD p)
           else if x =? d then Some (set_state START_FIELD (save_field p))
           else set_state IN_FIELD <$> add_char x p
       end.

Definition process_char (d : char) (p : parser) (c : option char) : option parser :=
  match st p with
  | START_RECORD =>
      match c with
      | None => Some p
      | Some x =>
          if (x =? LF) || (x =? CR) then Some (set_state EAT_CRNL p)
          else start_field d p c
      end
  | START_FIELD => start_field d p c
  | IN_FIELD =>
      if is_newline c then Some (set_state (after_newline c) (save_field p))
      else match c with
           | None => Some p
           | Some x =>
               if x =? d then Some (set_state START_FIELD (save_field p))
               else add_char x p
           end
  | IN_QUOTED_FIELD =>
      match c with
      | None => Some p
      | Some x =>
          if x =? QUOTE then Some (set_state QUOTE_IN_QUOTED_FIELD p)
          else add_char x p
      end
  | QUOTE_IN_QUOTED_FIELD =>
      match c with
      | Some x =>
          if x =? QUOTE then set_state IN_QUOTED_FIELD <$> add_char x p
          else if x =? d then Some (set_state START_FIELD (save_field p))
          else if is_newline c then Some (set_state EAT_CRNL (save_field p))
          else set_state IN_FIELD <$> add_char x p
      | None => Some (set_state START_RECORD (save_field p))
      end
  | EAT_CRNL =>
      match c with
      | None => Some (set_state START_RECORD p)
      | Some x => if (x =? LF) || (x =? CR) then Some p else None
      end
  end.

(** One line: its characters, then the end-of-line event. *)
Fixpoint feed_line (d : char) (p : parser) (line : str) : option parser :=
  match line with
  | [] => process_char d p None
  | c :: rest => p' ← process_char d p (Some c); feed_line d p' rest
  end.

(** The characters of a piece of a line, without the end-of-line event. *)
Fixpoint feed_chars (d : char) (p : parser) (s : str) : option parser :=
  match s with
  | [] => Some p
  | c :: rest => p' ← process_char d p (Some c); feed_chars d p' rest
  end.

(** The current field can take the characters of [s] within the limit. *)
Definition short (p : parser) (s : str) : Prop :=
  N.of_nat (length (field p) + length s) < field_limit.

Definition in_record (p : parser) : bool :=
  match st p with START_RECORD => false | _ => true end.

Definition pending (p : parser) : bool :=
  match field p, st p with
  | _ :: _, _ => true
  | [], IN_QUOTED_FIELD => true
  | [], _ => false
  end.

(** [list(csv.reader(lines, delimiter=d))]: a record ends with the line
    that leaves the machine in [START_RECORD]; input ending inside a
    record closes it. *)
Fixpoint records (d : char) (p : parser) (lines : list str) : option (list (list str)) :=
  match lines with
  | [] => Some (if pending p then [fields (save_field p)] else [])
  | l :: ls =>
      p' ← feed_line d p l;
      if in_record p' then records d p' ls
      else (fields p' ::.) <$> records d reset ls
  end.

Definition reader (d : char) (lines : list str) : option (list (list str)) :=
  records d reset lines.

End Csv.

(** ** pandas' [DataFrame], as far as the code looks into it *)
Module Frame.
Import Py.

(** A column label: a string, or a missing value. *)
Inductive label := Lna | Lstr (s : str).

#[global] Instance label_eq_dec : EqDecision label.
Proof. solve_decision. Defined.

(** A number of a numeric column.  A float that is not NaN is finite,
    and then taken as the rational it stands for (rounding and
    overflow are left out), or one of the two infinities, which
    [pd.read_csv] reads from [inf] and [-inf]. *)
Inductive num := Fin (q : Q) | PInf | NInf.

(** [a == b] and [a <= b] on numbers. *)
Definition num_eqb (a b : num) : bool :=
  match a, b with
  | Fin x, Fin y => Qeq_bool x y
  | PInf, PInf | NInf, NInf => true
  | _, _ => false
  end.

Definition num_leb (a b : num) : bool :=
  match a, b with
  | NInf, _ | _, PInf => true
  | Fin x, Fin y => Qle_bool x y
  | _, _ => false
  end.

(** [a + b]; [None] is NaN, the sum of the two infinities. *)
Definition num_add (a b : num) : option num :=
  match a, b with
  | Fin x, Fin y => Some (Fin (x + y))
  | PInf, NInf | NInf, PInf => None
  | PInf, _ | _, PInf => Some PInf
  | NInf, _ | _, NInf => Some NInf
  end.

(** [a / n] for a positive count [n]. *)
Definition num_div (a : num) (n : Q) : num :=
  match a with
  | Fin x => Fin (Qred (x / n))
  | PInf => PInf
  | NInf => NInf
  end.

(** The cells of a column; [None] is a missing value (NaN or None).
    A numeric column is one whose dtype satisfies [is_numeric_dtype];
    the others are of dtype [object] and hold strings. *)
Inductive values :=
  | NumCol (l : list (option num))
  | ObjCol (l : list (option str)).

Record series := {
  name : label;
  data : values
}.

(** [nrows] is the length of the index, which a frame keeps when it has
    no column left. *)
Record DataFrame := {
  nrows : nat;
  cols : list series
}.

(** [pd.DataFrame()] *)
Definition empty_frame : DataFrame := {| nrows := 0; cols := [] |}.

(** [df.empty]: one of the two axes has length 0. *)
Definition is_empty (df : DataFrame) : bool :=
  (nrows df =? 0)%nat || (length (cols df) =? 0)%nat.

(** [df.columns] *)
Definition columns (df : DataFrame) : list label := name <$> cols df.

Inductive cell := CNum (x : option num) | CStr (x : option str).

Definition size (v : values) : nat :=
  match v with NumCol l => length l | ObjCol l => length l end.

Definition cell_at (i : nat) (v : values) : cell :=
  match v with
  | NumCol l => CNum (mjoin (l !! i))
  | ObjCol l => CStr (mjoin (l !! i))
  end.

(** The records of the frame, in index order. *)
Definition row_at (df : DataFrame) (i : nat) : list cell :=
  (fun c => cell_at i (data c)) <$> cols df.

Definition rows (df : DataFrame) : list (list cell) :=
  row_at df <$> seq 0 (nrows df).

Definition wf (df : DataFrame) : Prop :=
  Forall (fun c => size (data c) = nrows df) (cols df).

(** [pd.DataFrame(columns=names)]: a header and no record. *)
Definition of_header (names : list str) : DataFrame :=
  {| nrows := 0;
     cols := (fun n => {| name := Lstr n; data := ObjCol [] |}) <$> names |}.

(** [pd.DataFrame(records, columns=names)] for records that are lists
    of strings: the width of the data is that of its longest record,
    shorter records are completed with missing values, and a header of
    another width is refused ([ValueError]). *)
Definition of_rows (records : list (list str)) (names : list str) : option DataFrame :=
  match records with
  | [] => Some (of_header names)
  | _ =>
      if (max_list (length <$> records) =? length names)%nat
      then Some {| nrows := length records;
                   cols := imap (fun j n =>
                             {| name := Lstr n;
                                data := ObjCol ((fun r : list str => r !! j) <$> records) |})
                             names |}
      else None
  end.

Definition cell_eqb (a b : cell) : bool :=
  match a, b with
  | CNum (Some x), CNum (Some y) => num_eqb x y
  | CNum None, CNum None => true
  | CStr x, CStr y => bool_decide (x = y)
  | _, _ => false
  end.

Fixpoint row_eqb (r1 r2 : list cell) : bool :=
  match r1, r2 with
  | [], [] => true
  | a :: r1', b :: r2' => cell_eqb a b && row_eqb r1' r2'
  | _, _ => false
  end.

Fixpoint duplicated_from (seen rows : list (list cell)) : list bool :=
  match rows with
  | [] => []
  | r :: rest => existsb (row_eqb r) seen :: duplicated_from (r :: seen) rest
  end.

(** [df.duplicated()]: a record equal to an earlier one; an empty
    frame has an empty mask. *)
Definition duplicated (d : DataFrame) : list bool :=
  if is_empty d then [] else duplicated_from [] (rows d).

Fixpoint keep_unmarked {A} (marks : list bool) (l : list A) : list A :=
  match marks, l with
  | m :: marks', x :: l' => if m then keep_unmarked marks' l' else x :: keep_unmarked marks' l'
  | _, _ => l
  end.

Definition count_true (marks : list bool) : nat := length (List.filter id marks).

(** [df.drop_duplicates()] *)
Definition drop_duplicates (d : DataFrame) : DataFrame :=
  let marks := duplicated d in
  {| nrows := nrows d - count_true marks;
     cols := (fun c =>
                {| name := name c;
                   data := match data c with
                           | NumCol l => NumCol (keep_unmarked marks l)
                           | ObjCol l => ObjCol (keep_unmarked marks l)
                           end |}) <$> cols d |}.

End Frame.

(** ** Files as the code reads them *)
Module Io.
Import Py.

Inductive encoding :=
  | UTF8 | LATIN1 | CP1252 | ISO8859_1 | UTF16 | ASCII
  | OtherEncoding (codec : str).

(** The [errors] argument of [open]. *)
Inductive errors := Strict | Replace | Ignore.

(** A file on disk: its bytes, and the text that reading it through
    [open(path, 'r', encoding=e, errors=m)] yields ([None] when that
    raises). *)
Record file := {
  raw : list N;
  text : encoding -> errors -> option str
}.

End Io.

(** ** [app.py]: the ingestion cascade *)
Module App.
Import Py Frame Io.

(** The dictionary [chardet.detect] returns; its encoding may be
    Python's [None], here [None] too. *)
Record chardet_result := {
  det_encoding : option encoding;
  det_confidence : Q
}.

(** The third-party calls of the module. *)
Record library := {
  (** [pd.read_csv(path, encoding=e)] *)
  pd_read_csv : file -> encoding -> option DataFrame;
  (** [pd.read_csv(path, encoding=e, on_bad_lines='skip', engine='python')] *)
  pd_read_csv_skip : file -> encoding -> option DataFrame;
  (** [pd.read_csv(io.StringIO(content))] *)
  pd_read_csv_text : str -> option DataFrame;
  (** [chardet.detect(raw_data)] *)
  chardet_detect : list N -> option chardet_result
}.

(** [detect_file_encoding]: the result may be Python's [None] (when
    chardet names no encoding with a confidence above the bar). *)
Definition detect_file_encoding (L : library) (f : file) : option encoding :=
  match chardet_detect L (take (N.to_nat 100000) (raw f)) with
  | Some result =>
      if Qgt_bool (det_confidence result) (7 # 10)
      then det_encoding result
      else Some UTF8
  | None => Some UTF8
  end.

(** A loop [for encoding in encodings: try: df = read(encoding); if
    ok(df): return df; except: print(...)].  The first component logs
    the encodings tried, as the loop prints them; the second is the
    frame returned, [None] when the loop runs to its end. *)
Fixpoint try_encodings (read : encoding -> option DataFrame) (ok : DataFrame -> bool)
    (encodings : list encoding) : list encoding * option DataFrame :=
  match encodings with
  | [] => ([], None)
  | e :: es =>
      match read e with
      | Some df =>
          if ok df then ([e], Some df)
          else let r := try_encodings read ok es in (e :: r.1, r.2)
      | None => let r := try_encodings read ok es in (e :: r.1, r.2)
      end
  end.

Definition encodings : list encoding :=
  [UTF8; LATIN1; CP1252; ISO8859_1; UTF16; ASCII].

(** Strategy 1: [not df.empty and len(df.columns) > 1]. *)
Definition strategy1 (L : library) (f : file) : list encoding * option DataFrame :=
  try_encodings (pd_read_csv L f)
    (fun df => negb (is_empty df) && (1 <? length (columns df))%nat) encodings.

(** Strategy 2: [not df.empty]. *)
Definition strategy2 (L : library) (f : file) : list encoding * option DataFrame :=
  try_encodings (pd_read_csv_skip L f) (fun df => negb (is_empty df)) encodings.

Definition delimiters : list char := [COMMA; SEMICOLON; TAB; PIPE].

(** [delimiter_counts = {d: line.count(d) for d in delimiters};
    max(delimiter_counts, key=delimiter_counts.get)] *)
Definition detect_delimiter (line : str) : char :=
  max_by (fun d => count d line) COMMA [SEMICOLON; TAB; PIPE].

(** The loop over the encodings of [manual_csv_parse]: the records of
    the first encoding under which the file has a line and the reader
    does not fail; [[]] when there is none. *)
Fixpoint manual_rows (f : file) (encodings : list encoding) : list (list str) :=
  match encodings with
  | [] => []
  | e :: es =>
      match text f e Replace with
      | None => manual_rows f es
      | Some t =>
          let lines := strip <$> take 50 (file_lines t) in
          match lines with
          | [] => manual_rows f es
          | first :: _ =>
              match Csv.reader (detect_delimiter first) (file_lines t) with
              | Some rows => rows
              | None => manual_rows f es
              end
          end
      end
  end.

(** Lines 160-174: the widest record gives the width, every record
    (the first too) is completed with empty strings, the first becomes
    the header. *)
Definition table_of_rows (rows : list (list str)) : option DataFrame :=
  if (1 <? length rows)%nat then
    let max_cols := max_list (length <$> rows) in
    let rows := pad_right [] max_cols <$> rows in
    of_rows (drop 1 rows) (default [] (head rows))
  else Some empty_frame.

(** [manual_csv_parse]; [None] when the last-resort [open] raises. *)
Definition manual_csv_parse (f : file) : option DataFrame :=
  let rows := manual_rows f [UTF8; LATIN1; CP1252; ISO8859_1; UTF16] in
  rows ←
    match rows with
    | [] =>
        t ← text f UTF8 Ignore;
        Some ((fun line => split COMMA (strip line)) <$> file_lines t)
    | _ => Some rows
    end;
  table_of_rows rows.

(** The table of mis-decoded sequences, in the order of the dictionary. *)
Definition replacements : list (str * str) :=
  [ ([0xC2], []);
    ([0xE2; 0x20AC], [45]);
    ([0xC3; 0xA9], [0xE9]);
    ([0xC3], [0xED]);
    ([0xC3; 0xB3], [0xF3]);
    ([0xC3; 0xA1], [0xE1]);
    ([0xC3; 0xB1], [0xF1]);
    ([0xC3; 0xBA], [0xFA]);
    ([0xC3; 0xBC], [0xFC]);
    ([0xC3; 0xA7], [0xE7]);
    ([0xA0], [32]);
    ([0x96], [45]);
    ([0x97], [45]) ].

(** Lines 252-262: one data line against the comma count of the header. *)
Definition reconcile (comma_count : nat) (line : str) : str :=
  let line_comma_count := count COMMA line in
  if (line_comma_count <? comma_count)%nat then
    line ++ replicate (comma_count - line_comma_count) COMMA
  else if (comma_count <? line_comma_count)%nat then
    let parts := split COMMA line in
    if (comma_count + 1 <? length parts)%nat then
      join [COMMA] (take comma_count parts) ++ [COMMA; QUOTE]
        ++ join [COMMA] (drop comma_count parts) ++ [QUOTE]
    else line
  else line.

Definition is_blank (line : str) : bool :=
  match strip line with [] => true | _ => false end.

Definition clean_csv_content (content : str) : str :=
  let content := replace [CR] [LF] (replace [CR; LF] [LF] content) in
  let content := if startswith [BOM] content then drop 1 content else content in
  let content := foldl (fun c r => replace r.1 r.2 c) content replacements in
  let lines := List.filter (fun line => negb (is_blank line)) (split LF content) in
  match lines with
  | [] => content
  | header :: data =>
      let comma_count := count COMMA header in
      join [LF] (header :: (reconcile comma_count <$> data))
  end.

(** [text_based_csv_parse]: every exception ends in the empty frame. *)
Definition text_based_csv_parse (L : library) (f : file) : DataFrame :=
  match text f UTF8 Ignore with
  | None => empty_frame
  | Some content =>
      let content := clean_csv_content content in
      match pd_read_csv_text L content with
      | Some df => df
      | None =>
          let lines := split LF (strip content) in
          match lines with
          | [] => empty_frame
          | first_line :: _ =>
              let delimiter := detect_delimiter first_line in
              let rows := (fun line => strip <$> split delimiter line) <$> lines in
              if (1 <? length rows)%nat
              then default empty_frame (of_rows (drop 1 rows) (default [] (head rows)))
              else empty_frame
          end
      end
  end.

(** [read_csv_with_fallbacks]; [None] when an exception escapes. *)
Definition read_csv_with_fallbacks (L : library) (f : file) : option DataFrame :=
  match (strategy1 L f).2 with
  | Some df => Some df
  | None =>
      match (strategy2 L f).2 with
      | Some df => Some df
      | None =>
          df ← manual_csv_parse f;
          if negb (is_empty df) then Some df
          else
            let df := text_based_csv_parse L f in
            if negb (is_empty df) then Some df
            else Some empty_frame
      end
  end.

End App.

(** ** Column statistics of pandas

    Finite numbers are exact rationals: the claims are about which
    statistic fills a column, not about rounding.  The infinities are
    kept, since a statistic that meets both is NaN. *)
Module Stats.
Import Py Frame.

Section Sort.
Context {A : Type} (leb : A -> A -> bool).

Fixpoint insert_sorted (x : A) (l : list A) : list A :=
  match l with
  | [] => [x]
  | y :: l' => if leb x y then x :: l else y :: insert_sorted x l'
  end.

Definition sort (l : list A) : list A := foldr insert_sorted [] l.
End Sort.

(** [dropna()] *)
Definition dropna {A} (l : list (option A)) : list A := omap id l.

(** [isnull().sum()] *)
Definition null_count {A} (l : list (option A)) : nat :=
  length (List.filter (fun x : option A => negb (bool_decide (is_Some x))) l).

(** [fillna(v)]; filling with a missing [v] changes nothing. *)
Definition fillna {A} (v : option A) (l : list (option A)) : list (option A) :=
  (fun x => match x with Some _ => x | None => v end) <$> l.

(** The sum of the values of a column; [None] is NaN: the column
    holds both infinities. *)
Definition num_sum (l : list num) : option num :=
  foldr (fun x acc => acc ≫= num_add x) (Some (Fin 0)) l.

(** [Series.mean()]: NaN ([None]) when no value is present, or when
    the sum is NaN. *)
Definition mean (l : list (option num)) : option num :=
  match dropna l with
  | [] => None
  | xs => (fun s => num_div s (inject_Z (Z.of_nat (length xs)))) <$> num_sum xs
  end.

(** [Series.median()]: the middle value, or the mean of the two middle
    values; NaN when no value is present, or when the two middle
    values are the two infinities. *)
Definition median (l : list (option num)) : option num :=
  let xs := sort num_leb (dropna l) in
  let n := length xs in
  if (n =? 0)%nat then None
  else if Nat.odd n then (fun a => num_div a 1) <$> xs !! (n / 2)%nat
  else
    a ← xs !! (n / 2 - 1)%nat;
    b ← xs !! (n / 2)%nat;
    s ← num_add a b;
    Some (num_div s 2).

(** [Series.mode()] lists the most frequent values in increasing
    order; [mode_first] is its [iloc[0]], [None] when it is empty. *)
Definition mode_first {A} (leb eqb : A -> A -> bool) (l : list (option A)) : option A :=
  match sort leb (dropna l) with
  | [] => None
  | x :: xs =>
      let freq v := length (List.filter (eqb v) (x :: xs)) in
      Some (max_by freq x xs)
  end.

(** The order of [str]: lexicographic on code points. *)
Fixpoint str_leb (a b : str) : bool :=
  match a, b with
  | [], _ => true
  | _ :: _, [] => false
  | x :: a', y :: b' => (x <? y) || ((x =? y) && str_leb a' b')
  end.

Definition str_eqb (a b : str) : bool := bool_decide (a = b).

End Stats.

(** ** [utils/simple_cleaner.py] *)
Module SimpleCleaner.
Import Py Frame Io Stats.

(** The third-party calls of the module. *)
Record library := {
  (** [pd.read_csv(path, encoding=e, on_bad_lines='skip', engine='python')] *)
  pd_read_csv_skip : file -> encoding -> option DataFrame;
  pd_read_excel : file -> option DataFrame;
  pd_read_json : file -> option DataFrame
}.

(** The options the pipeline reads; [None] is a key the caller left out. *)
Record options := {
  handle_missing : option str;
  missing_threshold : option Q;
  handle_duplicates : option str;
  standardize_text : option bool
}.

Definition no_options : options :=
  {| handle_missing := None; missing_threshold := None;
     handle_duplicates := None; standardize_text := None |}.

Inductive rvalue := RInt (z : Z) | RStr (s : str).

(** The extension of the path, lower-cased. *)
Inductive extension := Csv | Excel | Json | OtherExtension.

Record cleaner := {
  opts : options;
  df : DataFrame;
  report : gmap string rvalue;
  original_shape : nat * nat
}.

(** [_try_pandas_read]; [None] is Python's [None]. *)
Fixpoint try_pandas_read_from (L : library) (f : file) (encodings : list encoding)
    : option DataFrame :=
  match encodings with
  | [] => None
  | e :: es =>
      match pd_read_csv_skip L f e with
      | Some df => if negb (is_empty df) then Some df else try_pandas_read_from L f es
      | None => try_pandas_read_from L f es
      end
  end.

Definition _try_pandas_read (L : library) (f : file) : option DataFrame :=
  try_pandas_read_from L f [UTF8; LATIN1; CP1252; ISO8859_1; UTF16].

Definition detect_delimiter (first_line : str) : char :=
  max_by (fun d => count d first_line) COMMA [SEMICOLON; TAB; PIPE].

(** One turn of the loop of [_try_csv_module]: [None] when the turn
    raises or returns nothing, and the loop goes on. *)
Definition csv_module_attempt (f : file) (e : encoding) : option DataFrame :=
  t ← text f e Replace;
  let first_line := default [] (head (file_lines t)) in
  let delimiter := detect_delimiter first_line in
  rows ← Csv.reader delimiter (file_lines t);
  if (1 <? length rows)%nat
  then of_rows (drop 1 rows) (default [] (head rows))
  else None.

Fixpoint try_csv_module_from (f : file) (encodings : list encoding) : option DataFrame :=
  match encodings with
  | [] => None
  | e :: es =>
      match csv_module_attempt f e with
      | Some df => Some df
      | None => try_csv_module_from f es
      end
  end.

Definition _try_csv_module (f : file) : option DataFrame :=
  try_csv_module_from f [UTF8; LATIN1; CP1252; ISO8859_1].

(** [_try_manual_parse]: every exception ends in [None]. *)
Definition _try_manual_parse (f : file) : option DataFrame :=
  lines ← file_lines <$> text f UTF8 Ignore;
  let cleaned_lines := List.filter (fun l => negb (bool_decide (l = []))) (strip <$> lines) in
  match cleaned_lines with
  | [] => None
  | _ =>
      let rows := (fun line => strip <$> split COMMA line) <$> cleaned_lines in
      let max_cols := max_list (length <$> rows) in
      let rows := pad_right [] max_cols <$> rows in
      if (1 <? length rows)%nat
      then of_rows (drop 1 rows) (default [] (head rows))
      else Some (of_header (default [] (head rows)))
  end.

(** [_read_csv_robustly]: the first strategy whose frame is neither
    [None] nor empty. *)
Fixpoint first_non_empty (strategies : list (option DataFrame)) : DataFrame :=
  match strategies with
  | [] => empty_frame
  | Some d :: rest => if negb (is_empty d) then d else first_non_empty rest
  | None :: rest => first_non_empty rest
  end.

Definition _read_csv_robustly (L : library) (f : file) : DataFrame :=
  first_non_empty [_try_pandas_read L f; _try_csv_module f; _try_manual_parse f].

(** [__init__] with [_load_data]; [None] when a spreadsheet or JSON
    reader raises. *)
Definition _load_data (L : library) (ext : extension) (f : file) (o : options)
    : option cleaner :=
  d ← match ext with
      | Csv | OtherExtension => Some (_read_csv_robustly L f)
      | Excel => pd_read_excel L f
      | Json => pd_read_json L f
      end;
  Some (if negb (is_empty d) then
          {| opts := o; df := d;
             report := <["original_columns" := RInt (Z.of_nat (length (cols d)))]>
                         (<["original_rows" := RInt (Z.of_nat (nrows d))]> ∅);
             original_shape := (nrows d, length (cols d)) |}
        else
          {| opts := o; df := empty_frame; report := ∅; original_shape := (0, 0)%nat |}).

(** [_clean_column_name] *)
Definition _clean_column_name (U : unicode_data) (col : label) : str :=
  match col with
  | Lna => u"unknown_column"
  | Lstr s =>
      let col := strip s in
      let col := List.filter (fun c => is_word U c || isspace c) col in
      let col := sub_spaces [UNDERSCORE] false col in
      let col := lower U col in
      match col with
      | [] => u"column"
      | _ => col
      end
  end.

(** Stage 1: [self.df.columns = [self._clean_column_name(col) ...]] *)
Definition rename_columns (U : unicode_data) (d : DataFrame) : DataFrame :=
  {| nrows := nrows d;
     cols := (fun c => {| name := Lstr (_clean_column_name U (name c)); data := data c |})
               <$> cols d |}.

Definition series_null_count (c : series) : nat :=
  match data c with
  | NumCol l => null_count l
  | ObjCol l => null_count l
  end.

(** [df.isnull().sum() / len(df)] for one column; NaN ([None]) on a
    frame without records. *)
Definition missing_percent (d : DataFrame) (c : series) : option Q :=
  if (nrows d =? 0)%nat then None
  else Some (Z.of_nat (series_null_count c) # Pos.of_nat (nrows d)).

(** [missing_percent > threshold]; false on NaN. *)
Definition exceeds (p : option Q) (threshold : Q) : bool :=
  match p with
  | Some q => Qgt_bool q threshold
  | None => false
  end.

(** [missing_percent[missing_percent > threshold].index.tolist()] *)
Definition cols_to_drop (threshold : Q) (d : DataFrame) : list label :=
  name <$> List.filter (fun c => exceeds (missing_percent d c) threshold) (cols d).

(** [df.drop(columns=labels)]: every column that carries one of the
    labels goes. *)
Definition drop_columns (labels : list label) (d : DataFrame) : DataFrame :=
  {| nrows := nrows d;
     cols := List.filter (fun c => negb (bool_decide (name c ∈ labels))) (cols d) |}.

(** Stage 2 for a given threshold. *)
Definition drop_sparse_at (threshold : Q) (d : DataFrame) : DataFrame :=
  if Qlt_bool threshold 1 then
    match cols_to_drop threshold d with
    | [] => d
    | labels => drop_columns labels d
    end
  else d.

Definition drop_sparse (o : options) (d : DataFrame) : DataFrame :=
  drop_sparse_at (default (1 # 2) (missing_threshold o)) d.

(** Stage 3 on one column; the option [handle_missing] is not read. *)
Definition fill_series (c : series) : series :=
  match data c with
  | NumCol l =>
      if (0 <? null_count l)%nat
      then {| name := name c; data := NumCol (fillna (median l) l) |}
      else c
  | ObjCol l =>
      if (0 <? null_count l)%nat
      then {| name := name c; data := ObjCol (fillna (Some u"Unknown") l) |}
      else c
  end.

(** Stage 3.  [self.df[col]] is a frame, not a column, when [col]
    labels several columns, and testing [.isnull().any()] of a frame
    raises: [None]. *)
Definition fill_missing (d : DataFrame) : option DataFrame :=
  if bool_decide (NoDup (columns d))
  then Some {| nrows := nrows d; cols := fill_series <$> cols d |}
  else None.

(** Stage 5 on one column: text columns are trimmed unless their first
    present value holds a dollar sign or opens with a bracket.  No
    value is missing there: stage 3 has filled the text columns. *)
Definition strip_series (c : series) : series :=
  match data c with
  | NumCol _ => c
  | ObjCol l =>
      let sample := default [] (head (dropna l)) in
      if contains DOLLAR sample || startswith [LBRACKET] sample then c
      else {| name := name c; data := ObjCol (option_map strip <$> l) |}
  end.

Definition option_is (key : option str) (dflt value : str) : bool :=
  bool_decide (default dflt key = value).

(** [clean_data]: the cleaner after the call, whose [report] is the
    value returned; [now] is [datetime.now().isoformat()]; [None] is an
    exception. *)
Definition clean_data (U : unicode_data) (now : str) (c : cleaner) : option cleaner :=
  if is_empty (df c) then
    Some {| opts := opts c; df := df c;
            report := <["error" := RStr u"Empty DataFrame"]> (report c);
            original_shape := original_shape c |}
  else
    let original_rows := (original_shape c).1 in
    let original_cols := (original_shape c).2 in
    let d := rename_columns U (df c) in
    let d := drop_sparse (opts c) d in
    d ← fill_missing d;
    let drop := option_is (handle_duplicates (opts c)) u"drop" u"drop" in
    let duplicates_count := if drop then count_true (duplicated d) else 0%nat in
    let removing := (0 <? duplicates_count)%nat in
    let rep := if removing
               then <["duplicates_removed" := RInt (Z.of_nat duplicates_count)]> (report c)
               else report c in
    let d := if removing then drop_duplicates d else d in
    let d := if default false (standardize_text (opts c))
             then {| nrows := nrows d; cols := strip_series <$> cols d |}
             else d in
    Some {| opts := opts c; df := d;
            report :=
              <["note" := RStr u"Simple cleaning applied"]>
              (<["cleaning_timestamp" := RStr now]>
              (<["columns_removed" :=
                   RInt (Z.of_nat original_cols - Z.of_nat (length (cols d)))]>
              (<["rows_removed" := RInt (Z.of_nat original_rows - Z.of_nat (nrows d))]>
              (<["final_columns" := RInt (Z.of_nat (length (cols d)))]>
              (<["final_rows" := RInt (Z.of_nat (nrows d))]> rep)))));
            original_shape := original_shape c |}.

End SimpleCleaner.

(** ** [utils/data_cleaner.py]: the pipeline of the second cleaner *)
Module DataCleaner.
Import Py Frame Stats.

Record options := {
  handle_missing : option str;
  missing_threshold : option Q;
  handle_duplicates : option str;
  standardize_text : option bool
}.

Inductive rvalue := RInt (z : Z) | RStr (s : str).

Record cleaner := {
  opts : options;
  df : DataFrame;
  report : gmap string rvalue;
  original_shape : nat * nat
}.

Definition series_null_count (c : series) : nat :=
  match data c with
  | NumCol l => null_count l
  | ObjCol l => null_count l
  end.

Definition missing_percent (d : DataFrame) (c : series) : option Q :=
  if (nrows d =? 0)%nat then None
  else Some (Z.of_nat (series_null_count c) # Pos.of_nat (nrows d)).

Definition exceeds (p : option Q) (threshold : Q) : bool :=
  match p with
  | Some q => Qgt_bool q threshold
  | None => false
  end.

Definition cols_to_drop (threshold : Q) (d : DataFrame) : list label :=
  name <$> List.filter (fun c => exceeds (missing_percent d c) threshold) (cols d).

Definition drop_columns (labels : list label) (d : DataFrame) : DataFrame :=
  {| nrows := nrows d;
     cols := List.filter (fun c => negb (bool_decide (name c ∈ labels))) (cols d) |}.

(** Stage 1 (lines 112-117) for a given threshold. *)
Definition drop_sparse_at (threshold : Q) (d : DataFrame) : DataFrame :=
  match cols_to_drop threshold d with
  | [] => d
  | labels => drop_columns labels d
  end.

Definition drop_sparse (o : options) (d : DataFrame) : DataFrame :=
  drop_sparse_at (default (1 # 2) (missing_threshold o)) d.

Definition unknown : str := u"Unknown".

(** Stage 2 (lines 119-137) on one column, for the value [method] of
    [handle_missing]. *)
Definition fill_series (method : str) (c : series) : series :=
  match data c with
  | NumCol l =>
      if (0 <? null_count l)%nat then
        if bool_decide (method = u"mean") then
          {| name := name c; data := NumCol (fillna (mean l) l) |}
        else if bool_decide (method = u"median") then
          {| name := name c; data := NumCol (fillna (median l) l) |}
        else if bool_decide (method = u"mode") then
          match mode_first num_leb num_eqb l with
          | Some m => {| name := name c; data := NumCol (fillna (Some m) l) |}
          | None => {| name := name c; data := ObjCol ((fun _ => Some unknown) <$> l) |}
          end
        else {| name := name c; data := NumCol (fillna (median l) l) |}
      else c
  | ObjCol l =>
      if (0 <? null_count l)%nat then
        if bool_decide (method = u"mode") then
          match mode_first str_leb str_eqb l with
          | Some m => {| name := name c; data := ObjCol (fillna (Some m) l) |}
          | None => {| name := name c; data := ObjCol (fillna (Some unknown) l) |}
          end
        else {| name := name c; data := ObjCol (fillna (Some unknown) l) |}
      else c
  end.

(** Stage 2; as in the other cleaner, a label carried by several
    columns makes the test of the loop raise. *)
Definition fill_missing (o : options) (d : DataFrame) : option DataFrame :=
  let method := default u"auto" (handle_missing o) in
  if bool_decide (NoDup (columns d))
  then Some {| nrows := nrows d; cols := fill_series method <$> cols d |}
  else None.

(** [needle in s] *)
Fixpoint infix (needle s : str) : bool :=
  startswith needle s || match s with [] => false | _ :: rest => infix needle rest end.

(** Stage 4 on one column; [None] when the label has no [lower]. *)
Definition strip_series (U : unicode_data) (nrows : nat) (c : series) : option series :=
  match data c with
  | NumCol _ => Some c
  | ObjCol l =>
      col ← match name c with Lstr s => Some s | Lna => None end;
      let first := if (nrows =? 0)%nat then [] else default [] (mjoin (head l)) in
      if negb (infix u"gross" (lower U col)) && negb (contains DOLLAR first)
      then Some {| name := name c; data := ObjCol (option_map strip <$> l) |}
      else Some c
  end.

(** Stage 5: [str(col)] of a missing label is [nan]. *)
Definition standard_name (U : unicode_data) (col : label) : str :=
  let new_col := strip (match col with Lstr s => s | Lna => u"nan" end) in
  let new_col := replace u")" [] (replace u"(" [] (replace u"-" u"_" (replace u" " u"_" new_col))) in
  lower U new_col.

(** [clean_data]: the cleaner after the call, whose [report] is the
    value returned; [None] is an exception. *)
Definition clean_data (U : unicode_data) (now : str) (c : cleaner) : option cleaner :=
  let original_rows := (original_shape c).1 in
  let original_cols := (original_shape c).2 in
  let d := drop_sparse (opts c) (df c) in
  d ← fill_missing (opts c) d;
  let drop := bool_decide (default u"drop" (handle_duplicates (opts c)) = u"drop") in
  let duplicates_count := if drop then count_true (duplicated d) else 0%nat in
  let removing := (0 <? duplicates_count)%nat in
  let rep := if removing
             then <["duplicates_removed" := RInt (Z.of_nat duplicates_count)]> (report c)
             else report c in
  let d := if removing then drop_duplicates d else d in
  d ← (if default false (standardize_text (opts c))
       then (fun cs => {| nrows := nrows d; cols := cs |}) <$> mapM (strip_series U (nrows d)) (cols d)
       else Some d);
  let d := {| nrows := nrows d;
              cols := (fun s => {| name := Lstr (standard_name U (name s)); data := data s |})
                        <$> cols d |} in
  Some {| opts := opts c; df := d;
          report :=
            <["cleaning_timestamp" := RStr now]>
            (<["columns_removed" :=
                 RInt (Z.of_nat original_cols - Z.of_nat (length (cols d)))]>
            (<["rows_removed" := RInt (Z.of_nat original_rows - Z.of_nat (nrows d))]>
            (<["final_columns" := RInt (Z.of_nat (length (cols d)))]>
            (<["final_rows" := RInt (Z.of_nat (nrows d))]> rep))));
          original_shape := original_shape c |}.

End DataCleaner.

(** ** [utils/csv_fixer.py]: repair through a temporary file

    The module reads and writes UTF-8 only, so a file is its text, and
    the disk is a finite map from paths to texts. *)
Module CsvFixer.
Import Py Frame.

Definition path := string.

(** The third-party call of the module: [pd.read_csv] on a file with
    the given text. *)
Record library := {
  pd_read_csv : str -> option DataFrame
}.

(** The name [tempfile.NamedTemporaryFile] picks: a path not in use,
    with the suffix asked for. *)
Definition temp_name (d : gmap path str) : path :=
  fresh_string_of_set "/tmp/tmp.csv" (dom d).

(** [re.sub(r',\s+"', ',"', s)]: after a comma followed by white space
    and a quote, the white space is passed over ([skipping]). *)
Fixpoint sub_comma_space_quote (skipping : bool) (s : str) : str :=
  match s with
  | [] => []
  | c :: rest =>
      if skipping && isspace c then sub_comma_space_quote true rest
      else if (c =? COMMA) && negb (bool_decide (lstrip rest = rest))
                && startswith [QUOTE] (lstrip rest)
      then c :: sub_comma_space_quote true rest
      else c :: sub_comma_space_quote false rest
  end.

(** [re.sub(r'"\s+,', '",', s)] *)
Fixpoint sub_quote_space_comma (skipping : bool) (s : str) : str :=
  match s with
  | [] => []
  | c :: rest =>
      if skipping && isspace c then sub_quote_space_comma true rest
      else if (c =? QUOTE) && negb (bool_decide (lstrip rest = rest))
                && startswith [COMMA] (lstrip rest)
      then c :: sub_quote_space_comma true rest
      else c :: sub_quote_space_comma false rest
  end.

(** [re.sub(r'"\s*$', '"', s)]: white space after a final quote goes. *)
Definition sub_quote_space_end (s : str) : str :=
  if bool_decide (last (rstrip s) = Some QUOTE) then rstrip s else s.

(** Fix 4 on one line already stripped. *)
Definition fix_line (expected_commas : nat) (line : str) : str :=
  let comma_count := count COMMA line in
  if (expected_commas <? comma_count)%nat then
    let parts := split COMMA line in
    if (expected_commas + 1 <? length parts)%nat then
      join [COMMA] (take expected_commas parts) ++ [COMMA; QUOTE]
        ++ join [COMMA] (drop expected_commas parts) ++ [QUOTE]
    else line
  else if (comma_count <? expected_commas)%nat then
    line ++ replicate (expected_commas - comma_count) COMMA
  else line.

(** The text [fix_csv_issues] writes for a file of text [content]. *)
Definition fixed_content (content : str) : str :=
  let content := replace [CR] [LF] (replace [CR; LF] [LF] content) in
  let content := if startswith [BOM] content then drop 1 content else content in
  let content := sub_comma_space_quote false content in
  let content := sub_quote_space_comma false content in
  let content := sub_quote_space_end content in
  let lines := split LF (strip content) in
  let header := default [] (head lines) in
  let expected_commas := count COMMA header in
  let fixed_lines :=
    fix_line expected_commas <$>
      List.filter (fun line => negb (bool_decide (line = []))) (strip <$> lines) in
  join [LF] fixed_lines.

(** [fix_csv_issues]: the disk afterwards and the path returned;
    [None] when the file cannot be opened. *)
Definition fix_csv_issues (d : gmap path str) (filepath : path)
    : option (gmap path str * path) :=
  content ← d !! filepath;
  let temp_path := temp_name d in
  Some (<[temp_path := fixed_content content]> d, temp_path).

(** [re.sub(r'\s*,\s*', ',', line)] *)
Fixpoint sub_space_comma_space (after_comma : bool) (s : str) : str :=
  match s with
  | [] => []
  | c :: rest =>
      if c =? COMMA then c :: sub_space_comma_space true rest
      else if isspace c then
        if after_comma || startswith [COMMA] (lstrip rest)
        then sub_space_comma_space after_comma rest
        else c :: sub_space_comma_space false rest
      else c :: sub_space_comma_space false rest
  end.

Definition strip_quotes (s : str) : str :=
  let unquote := fix go (s : str) : str :=
    match s with
    | c :: rest => if c =? QUOTE then go rest else s
    | [] => []
    end in
  rev (unquote (rev (unquote s))).

(** The hand-written splitter of the [except] branch: commas outside
    quotes separate, quotes are kept while reading and stripped from
    both ends of each field; a last empty field is not added. *)
Fixpoint split_outside_quotes (in_quotes : bool) (current_field : str) (line : str)
    : list str :=
  match line with
  | [] =>
      match current_field with
      | [] => []
      | _ => [strip (strip_quotes current_field)]
      end
  | c :: rest =>
      if c =? QUOTE then split_outside_quotes (negb in_quotes) (current_field ++ [c]) rest
      else if (c =? COMMA) && negb in_quotes
      then strip (strip_quotes current_field) :: split_outside_quotes in_quotes [] rest
      else split_outside_quotes in_quotes (current_field ++ [c]) rest
  end.

(** One line through [csv.reader([line])] and [next]. *)
Definition parse_line (line : str) : list str :=
  match Csv.reader COMMA [line] with
  | Some (row :: _) => row
  | _ => split_outside_quotes false [] line
  end.

(** [manual_csv_parse] of this module; [None] when it raises. *)
Definition manual_csv_parse (d : gmap path str) (filepath : path) : option DataFrame :=
  content ← d !! filepath;
  let cleaned :=
    sub_space_comma_space false <$>
      List.filter (fun line => negb (bool_decide (line = [])))
        (strip <$> file_lines content) in
  let rows := parse_line <$> cleaned in
  if (1 <? length rows)%nat
  then of_rows (drop 1 rows) (default [] (head rows))
  else Some empty_frame.

(** [smart_read_csv]: the disk afterwards and the frame returned
    ([None]: an exception escapes). *)
Definition smart_read_csv (L : library) (d : gmap path str) (filepath : path)
    : gmap path str * option DataFrame :=
  match d !! filepath ≫= pd_read_csv L with
  | Some frame => (d, Some frame)
  | None =>
      match fix_csv_issues d filepath with
      | None => (d, manual_csv_parse d filepath)
      | Some (d1, fixed_path) =>
          match d1 !! fixed_path ≫= pd_read_csv L with
          | Some frame => (delete fixed_path d1, Some frame)
          | None => (d1, manual_csv_parse d1 filepath)
          end
      end
  end.

End CsvFixer.

(** ** [app.py], route [/]: the files a POST touches while loading

    Lines 323-357 of [index]: the upload is read, a repaired copy is
    written to a temporary file when the cascade returns an empty
    frame, and the cleaner is built on the file retained.  The disk is
    a finite map from paths to files. *)
Module Index.
Import Py Frame Io.

Definition path := string.

Record library := {
  app : App.library;
  cleaner_library : SimpleCleaner.library;
  (** The file that writing a text under UTF-8 leaves. *)
  written : str -> file
}.

(** How the lines return. *)
Inductive outcome :=
  (** an exception reached the handler of the route, which redirects *)
  | Raised
  (** the cleaner holds no data: [flash] and [redirect], line 355 *)
  | NothingLoaded
  (** the route goes on with the cleaner; [temp_path] when defined *)
  | Loaded (filepath : path) (temp_path : option path) (c : SimpleCleaner.cleaner).

Definition temp_name (d : gmap path file) : path :=
  fresh_string_of_set "/tmp/tmp.csv" (dom d).

(** Lines 325-348: the disk afterwards, the path retained and the
    temporary path when one was made; [None] is an exception. *)
Definition retained_file (L : library) (d : gmap path file) (is_csv : bool)
    (original_path : path) : gmap path file * option (path * option path) :=
  if is_csv then
    match d !! original_path ≫= App.read_csv_with_fallbacks (app L) with
    | None => (d, None)
    | Some df_raw =>
        if is_empty df_raw then
          match d !! original_path ≫= fun f => text f UTF8 Ignore with
          | None => (d, None)
          | Some content =>
              let temp_path := temp_name d in
              (<[temp_path := written L (App.clean_csv_content content)]> d,
               Some (temp_path, Some temp_path))
          end
        else (d, Some (original_path, None))
    end
  else (d, Some (original_path, None)).

(** Lines 323-357.  [ext] is the extension of the upload; the
    temporary file has the extension [.csv]. *)
Definition load (L : library) (d : gmap path file) (is_csv : bool)
    (ext : SimpleCleaner.extension) (original_path : path) (o : SimpleCleaner.options)
    : gmap path file * outcome :=
  let r := retained_file L d is_csv original_path in
  match r.2 with
  | None => (r.1, Raised)
  | Some (filepath, temp_path) =>
      let ext := match temp_path with Some _ => SimpleCleaner.Csv | None => ext end in
      match r.1 !! filepath ≫= fun f => SimpleCleaner._load_data (cleaner_library L) ext f o with
      | None => (r.1, Raised)
      | Some c =>
          if is_empty (SimpleCleaner.df c) then (r.1, NothingLoaded)
          else (r.1, Loaded filepath temp_path c)
      end
  end.

End Index.

(** ** [os.path] on POSIX, and [str.rsplit] *)
Module OsPath.
Import Py.

Definition SLASH : char := 47.
Definition DOT : char := 46.

(** [s.rpartition(c)] when [c] occurs in [s]: what stands before the
    last [c] and what stands after it. *)
Fixpoint rpartition (c : char) (s : str) : option (str * str) :=
  match s with
  | [] => None
  | x :: rest =>
      match rpartition c rest with
      | Some (a, b) => Some (x :: a, b)
      | None => if x =? c then Some ([], rest) else None
      end
  end.

(** [s.rsplit(c, 1)] *)
Definition rsplit1 (c : char) (s : str) : list str :=
  match rpartition c s with
  | Some (a, b) => [a; b]
  | None => [s]
  end.

(** [os.path.join(a, b)] *)
Definition join (a b : str) : str :=
  if startswith [SLASH] b then b
  else if bool_decide (a = []) || bool_decide (last a = Some SLASH) then a ++ b
  else a ++ [SLASH] ++ b.

(** [os.path.splitext(p)]: the extension opens with the last dot of
    the last component, unless nothing but dots precedes that dot
    there. *)
Definition splitext (p : str) : str * str :=
  match rpartition DOT p with
  | None => (p, [])
  | Some (root, ext) =>
      if contains SLASH ext then (p, [])
      else
        let component :=
          match rpartition SLASH root with
          | Some (_, n) => n
          | None => root
          end in
        if existsb (fun c => negb (c =? DOT)) component then (root, DOT :: ext)
        else (p, [])
  end.

End OsPath.

(** ** [utils/file_handler.py] and the names [app.py] gives to files *)
Module FileHandler.
Import Py Frame Io OsPath.

(** [Config.ALLOWED_EXTENSIONS] *)
Definition ALLOWED_EXTENSIONS : list str :=
  [u"csv"; u"xlsx"; u"xls"; u"json"; u"txt"].

(** [allowed_file] of [app.py] *)
Definition allowed_file (U : unicode_data) (filename : str) : bool :=
  contains DOT filename
  && match rsplit1 DOT filename with
     | [_; e] => bool_decide (lower U e ∈ ALLOWED_EXTENSIONS)
     | _ => false
     end.

(** [save_uploaded_file]: the path the upload is saved to;
    [timestamp] is [datetime.now().strftime('%Y%m%d_%H%M%S')]. *)
Definition save_uploaded_file (upload_folder timestamp filename : str) : str :=
  join upload_folder (timestamp ++ [UNDERSCORE] ++ filename).

(** [save_cleaned_data]: the path the frame is written to, which is
    the path returned. *)
Definition save_cleaned_data (U : unicode_data) (upload_folder filename : str) : str :=
  let filepath := join upload_folder filename in
  let ext := lower U (splitext filename).2 in
  if bool_decide (ext = u".csv") then filepath
  else if bool_decide (ext ∈ [u".xlsx"; u".xls"]) then filepath
  else if bool_decide (ext = u".json") then filepath
  else default [] (head (rsplit1 DOT filepath)) ++ u".csv".

(** The name [index] gives to the cleaned file (line 375), which is
    also the name in the download link of the result page. *)
Definition cleaned_filename (timestamp filename : str) : str :=
  u"cleaned_" ++ timestamp ++ [UNDERSCORE] ++ filename.

(** [download_file] of [app.py]: the path it sends. *)
Definition download_file (upload_folder filename : str) : str :=
  join upload_folder filename.

(** The third-party calls of [load_file]. *)
Record library := {
  (** [pd.read_csv(path, encoding=e)] *)
  pd_read_csv : file -> encoding -> option DataFrame;
  (** [pd.read_csv(path, encoding=e, on_bad_lines='skip', engine='python')] *)
  pd_read_csv_skip : file -> encoding -> option DataFrame;
  pd_read_excel : file -> option DataFrame;
  pd_read_json : file -> option DataFrame
}.

(** [_manual_csv_read]: every record is completed to the width of the
    widest; [None] when [open] or the reader raises. *)
Definition _manual_csv_read (f : file) : option DataFrame :=
  t ← text f UTF8 Ignore;
  rows ← Csv.reader COMMA (file_lines t);
  if (1 <? length rows)%nat then
    let max_len := max_list (length <$> rows) in
    let rows := pad_right [] max_len <$> rows in
    of_rows (drop 1 rows) (default [] (head rows))
  else Some empty_frame.

(** The first strategy that does not raise; [None] is the
    [ValueError] after the last. *)
Fixpoint first_success (strategies : list (option DataFrame)) : option DataFrame :=
  match strategies with
  | [] => None
  | Some d :: _ => Some d
  | None :: rest => first_success rest
  end.

Definition _safe_read_csv (L : library) (f : file) : option DataFrame :=
  first_success
    [ pd_read_csv L f UTF8; pd_read_csv L f LATIN1;
      pd_read_csv_skip L f UTF8; pd_read_csv_skip L f LATIN1;
      _manual_csv_read f ].

(** [load_file], on the lower-cased extension of the path. *)
Definition load_file (L : library) (ext : SimpleCleaner.extension) (f : file)
    : option DataFrame :=
  match ext with
  | SimpleCleaner.Csv | SimpleCleaner.OtherExtension => _safe_read_csv L f
  | SimpleCleaner.Excel => pd_read_excel L f
  | SimpleCleaner.Json => pd_read_json L f
  end.

End FileHandler.

(** ** How the route and the cleaners tell a CSV file *)
Module Dispatch.
Import Py OsPath.

(** [s.endswith(suffix)] *)
Definition endswith (suffix s : str) : bool := startswith (rev suffix) (rev s).

(** The test of the routes of [app.py]:
    [filename.lower().endswith('.csv')]. *)
Definition is_csv_upload (U : unicode_data) (filename : str) : bool :=
  endswith (u".csv") (lower U filename).

(** The branch [_load_data] and [load_file] take, on
    [os.path.splitext(filepath)[1].lower()]. *)
Definition extension_of (U : unicode_data) (filepath : str) : SimpleCleaner.extension :=
  let ext := lower U (splitext filepath).2 in
  if bool_decide (ext = u".csv") then SimpleCleaner.Csv
  else if bool_decide (ext ∈ [u".xlsx"; u".xls"]) then SimpleCleaner.Excel
  else if bool_decide (ext = u".json") then SimpleCleaner.Json
  else SimpleCleaner.OtherExtension.

End Dispatch.

(** ** [utils/data_cleaner.py]: loading *)
Module DataLoader.
Import Py Frame Io.

(** The third-party calls of [_load_data]. *)
Record library := {
  (** [pd.read_csv(path, encoding=e, on_bad_lines='skip',
      engine='python')]; the encoding is Python's [None] when chardet
      names none. *)
  pd_read_csv_skip : file -> option encoding -> option DataFrame;
  (** [pd.read_csv(path, sep=None, engine='python', on_bad_lines='skip')] *)
  pd_read_csv_sniff : file -> option DataFrame;
  pd_read_excel : file -> option DataFrame;
  pd_read_json : file -> option DataFrame;
  (** [chardet.detect(raw_data)] *)
  chardet_detect : list N -> option App.chardet_result
}.

(** [_detect_encoding]: what chardet says of the first 10000 bytes,
    whatever its confidence; [utf-8] when anything raises. *)
Definition _detect_encoding (L : library) (f : file) : option encoding :=
  match chardet_detect L (take (N.to_nat 10000) (raw f)) with
  | Some result => App.det_encoding result
  | None => Some UTF8
  end.

(** [for row in reader: rows.append(row)]: the records appended, and
    whether the loop came to its end ([false]: the reader raised). *)
Fixpoint append_rows (d : char) (p : Csv.parser) (lines : list str)
    : list (list str) * bool :=
  match lines with
  | [] => (if Csv.pending p then [Csv.fields (Csv.save_field p)] else [], true)
  | l :: ls =>
      match Csv.feed_line d p l with
      | None => ([], false)
      | Some p' =>
          if Csv.in_record p' then append_rows d p' ls
          else let r := append_rows d Csv.reset ls in (Csv.fields p' :: r.1, r.2)
      end
  end.

(** The loop over the encodings of [_manual_csv_read].  The list
    [rows] is made once, before the loop: what an attempt appended
    before it raised stays in it. *)
Fixpoint manual_rows (f : file) (rows : list (list str)) (encodings : list encoding)
    : list (list str) :=
  match encodings with
  | [] => rows
  | e :: es =>
      match text f e Replace with
      | None => manual_rows f rows es
      | Some t =>
          let r := append_rows COMMA Csv.reset (file_lines t) in
          if r.2 then rows ++ r.1 else manual_rows f (rows ++ r.1) es
      end
  end.

(** [_manual_csv_read] *)
Definition _manual_csv_read (f : file) : option DataFrame :=
  let rows := manual_rows f [] [UTF8; LATIN1; CP1252; ISO8859_1] in
  match rows with
  | [] => Some empty_frame
  | _ =>
      let max_cols := max_list (length <$> rows) in
      let rows := pad_right [] max_cols <$> rows in
      of_rows (drop 1 rows) (default [] (head rows))
  end.

(** The loop over the strategies: [self.df] is the frame of the last
    strategy that returned, and the loop stops at the first frame
    that is not empty. *)
Fixpoint run_strategies (df : option DataFrame) (strategies : list (option DataFrame))
    : option DataFrame :=
  match strategies with
  | [] => df
  | Some d :: rest => if negb (is_empty d) then Some d else run_strategies (Some d) rest
  | None :: rest => run_strategies df rest
  end.

Definition strategies (L : library) (f : file) : list (option DataFrame) :=
  [ pd_read_csv_skip L f (_detect_encoding L f);
    pd_read_csv_skip L f (Some UTF8);
    pd_read_csv_skip L f (Some LATIN1);
    pd_read_csv_skip L f (Some CP1252);
    _manual_csv_read f ].

(** [__init__] with [_load_data]; [None] is an exception: that of a
    reader, or the [ValueError] of line 44. *)
Definition _load_data (L : library) (ext : SimpleCleaner.extension) (f : file)
    (o : DataCleaner.options) : option DataCleaner.cleaner :=
  d ← match ext with
      | SimpleCleaner.Csv =>
          match run_strategies None (strategies L f) with
          | Some d => if is_empty d then None else Some d
          | None => None
          end
      | SimpleCleaner.Excel => pd_read_excel L f
      | SimpleCleaner.Json => pd_read_json L f
      | SimpleCleaner.OtherExtension => pd_read_csv_sniff L f
      end;
  Some {| DataCleaner.opts := o;
          DataCleaner.df := d;
          DataCleaner.report :=
            <["original_columns" := DataCleaner.RInt (Z.of_nat (length (cols d)))]>
              (<["original_rows" := DataCleaner.RInt (Z.of_nat (nrows d))]> ∅);
          DataCleaner.original_shape := (nrows d, length (cols d)) |}.

End DataLoader.

(** ** Concrete data for the examples *)
Module Examples.
Import Py Frame Io.

(** Two rows of the Unicode database beyond Latin-1: U+0130 (capital I
    with dot above) is a letter whose lower case is [i] followed by
    U+0307 (combining dot above), which is not alphanumeric. *)
Definition ucd_excerpt : unicode_data :=
  {| ucd_alnum := fun c => c =? 0x130;
     ucd_lower := fun _ c _ => if c =? 0x130 then [0x69; 0x307] else [c] |}.

(** The basic Cyrillic letters of the Unicode database: the capitals
    U+0410 to U+042F are letters whose lower case stands 32 places
    further, the small letters U+0430 to U+044F are their own. *)
Definition ucd_cyrillic : unicode_data :=
  {| ucd_alnum := fun c => (0x410 <=? c) && (c <=? 0x44F);
     ucd_lower := fun _ c _ => if (0x410 <=? c) && (c <=? 0x42F) then [c + 32] else [c] |}.

(** A file of printable ASCII characters and line feeds, here its
    text [t], reads the same under UTF-8, Latin-1, CP1252, ISO-8859-1
    and ASCII.  Under UTF-16 a file without byte-order mark is refused
    once it has two bytes; a codec the code never opens has no view. *)
Definition plain_file (t : str) : file :=
  {| raw := t;
     text := fun e m =>
       match e with
       | UTF8 | LATIN1 | CP1252 | ISO8859_1 | ASCII => Some t
       | UTF16 =>
           match t, m with
           | [], _ => Some []
           | [_], Replace => Some [0xFFFD]
           | [_], Ignore => Some []
           | _, _ => None
           end
       | OtherEncoding _ => None
       end |}.

(** A header [a|b] followed by a tab, and one record. *)
Definition pipe_file : file := plain_file (u"a|b" ++ [TAB; LF] ++ u"1|2" ++ [LF]).

(** A record wider than the header. *)
Definition wide_file : file := plain_file (u"a,b" ++ [LF] ++ u"1,2,3,4" ++ [LF]).

Definition semicolon_file : file := plain_file (u"a;b" ++ [LF] ++ u"1;2" ++ [LF]).

(** The file of no byte. *)
Definition empty_file : file := plain_file [].

(** What the libraries do on the file of no byte: pandas raises
    [EmptyDataError] whatever the encoding, chardet names no encoding. *)
Definition on_empty_file : App.library :=
  {| App.pd_read_csv := fun _ _ => None;
     App.pd_read_csv_skip := fun _ _ => None;
     App.pd_read_csv_text := fun _ => None;
     App.chardet_detect := fun _ =>
       Some {| App.det_encoding := None; App.det_confidence := 0 |} |}.

Definition simple_on_empty_file : SimpleCleaner.library :=
  {| SimpleCleaner.pd_read_csv_skip := fun _ _ => None;
     SimpleCleaner.pd_read_excel := fun _ => None;
     SimpleCleaner.pd_read_json := fun _ => None |}.

(** The header [a,b] and the record [1,2], in ASCII. *)
Definition comma_file : file := plain_file (u"a,b" ++ [LF] ++ u"1,2" ++ [LF]).

Definition ab_frame : DataFrame :=
  {| nrows := 1;
     cols := [ {| name := Lstr u"a"; data := NumCol [Some (Fin 1)] |};
               {| name := Lstr u"b"; data := NumCol [Some (Fin 2)] |} ] |}.

(** What the libraries do on [comma_file]: pandas parses it under every
    encoding that extends ASCII and refuses UTF-16 for want of a
    byte-order mark; chardet reports ASCII with confidence 1. *)
Definition on_comma_file : App.library :=
  let read := fun (_ : file) e =>
    match e with
    | UTF8 | LATIN1 | CP1252 | ISO8859_1 | ASCII => Some ab_frame
    | UTF16 | OtherEncoding _ => None
    end in
  {| App.pd_read_csv := read;
     App.pd_read_csv_skip := read;
     App.pd_read_csv_text := fun _ => Some ab_frame;
     App.chardet_detect := fun _ =>
       Some {| App.det_encoding := Some ASCII; App.det_confidence := 1 |} |}.

(** A file that is not UTF-8: the bytes of [n,v / caf\xe9,1], whose
    byte E9 is the letter e with acute accent in Latin-1 and in CP1252,
    and starts no valid sequence in UTF-8.  The eleven bytes are no
    UTF-16 either. *)
Definition latin1_file : file :=
  let before := u"n,v" ++ [LF] ++ u"caf" in
  let after := u",1" ++ [LF] in
  {| raw := before ++ [0xE9] ++ after;
     text := fun e m =>
       match e, m with
       | (LATIN1 | CP1252 | ISO8859_1), _ => Some (before ++ [0xE9] ++ after)
       | (UTF8 | ASCII), Strict => None
       | (UTF8 | ASCII), Replace => Some (before ++ [0xFFFD] ++ after)
       | (UTF8 | ASCII), Ignore => Some (before ++ after)
       | UTF16, Strict => None
       | UTF16, Replace => Some [0x2C6E; 0x0A76; 0x6163; 0xE966; 0x312C; 0xFFFD]
       | UTF16, Ignore => Some [0x2C6E; 0x0A76; 0x6163; 0xE966; 0x312C]
       | OtherEncoding _, _ => None
       end |}.

Definition cafe_frame : DataFrame :=
  {| nrows := 1;
     cols := [ {| name := Lstr u"n"; data := ObjCol [Some (u"caf" ++ [0xE9])] |};
               {| name := Lstr u"v"; data := NumCol [Some (Fin 1)] |} ] |}.

(** What the libraries do on [latin1_file]: pandas raises
    [UnicodeDecodeError] under UTF-8, UTF-16 and ASCII and parses the
    file under the one-byte encodings; chardet is taken to report
    ISO-8859-1 with confidence 0.73. *)
Definition on_latin1_file : App.library :=
  let read := fun (_ : file) e =>
    match e with
    | LATIN1 | CP1252 | ISO8859_1 => Some cafe_frame
    | UTF8 | UTF16 | ASCII | OtherEncoding _ => None
    end in
  {| App.pd_read_csv := read;
     App.pd_read_csv_skip := read;
     App.pd_read_csv_text := fun _ => Some cafe_frame;
     App.chardet_detect := fun _ =>
       Some {| App.det_encoding := Some ISO8859_1; App.det_confidence := 73 # 100 |} |}.

(** Scenario B: a record with two fields too many. *)
Definition scenario_b : str := u"a,b,c" ++ [LF] ++ u"1,2,3,4,5".

(** Two columns whose names normalise to the same [a]: the first has
    no value at all, the second misses none. *)
Definition twin_frame : DataFrame :=
  {| nrows := 2;
     cols := [ {| name := Lstr u"A"; data := NumCol [None; None] |};
               {| name := Lstr u"a"; data := NumCol [Some (Fin 1); Some (Fin 2)] |} ] |}.

(** One numeric column with a hole, one text column with a hole. *)
Definition holes_frame : DataFrame :=
  {| nrows := 4;
     cols := [ {| name := Lstr u"x"; data := NumCol [Some (Fin 1); Some (Fin 2); Some (Fin 6); None] |};
               {| name := Lstr u"t"; data := ObjCol [Some u"p"; None; Some u"p"; Some u"q"] |} ] |}.

Definition holes_cleaner (method : string) : SimpleCleaner.cleaner :=
  {| SimpleCleaner.opts :=
       {| SimpleCleaner.handle_missing := Some (of_ascii_string method);
          SimpleCleaner.missing_threshold := None;
          SimpleCleaner.handle_duplicates := None;
          SimpleCleaner.standardize_text := None |};
     SimpleCleaner.df := holes_frame;
     SimpleCleaner.report := ∅;
     SimpleCleaner.original_shape := (4, 2)%nat |}.

Definition data_options (method : string) : DataCleaner.options :=
  {| DataCleaner.handle_missing := Some (of_ascii_string method);
     DataCleaner.missing_threshold := None;
     DataCleaner.handle_duplicates := None;
     DataCleaner.standardize_text := None |}.

(** The second cleaner on the same frame. *)
Definition data_holes_cleaner (method : string) : DataCleaner.cleaner :=
  {| DataCleaner.opts := data_options method;
     DataCleaner.df := holes_frame;
     DataCleaner.report := ∅;
     DataCleaner.original_shape := (4, 2)%nat |}.

(** A header and no record. *)
Definition header_only_file : file := plain_file (u"a,b" ++ [LF]).

(** What the libraries do on [header_only_file]: pandas parses the
    header and finds no record; chardet reports ASCII. *)
Definition on_header_only_file : App.library :=
  let read := fun (_ : file) e =>
    match e with
    | UTF8 | LATIN1 | CP1252 | ISO8859_1 | ASCII => Some (of_header [u"a"; u"b"])
    | UTF16 | OtherEncoding _ => None
    end in
  {| App.pd_read_csv := read;
     App.pd_read_csv_skip := read;
     App.pd_read_csv_text := fun _ => Some (of_header [u"a"; u"b"]);
     App.chardet_detect := fun _ =>
       Some {| App.det_encoding := Some ASCII; App.det_confidence := 1 |} |}.

(** The header [a,b] and the record [1,2] twice. *)
Definition twice_file : file :=
  plain_file (u"a,b" ++ [LF] ++ u"1,2" ++ [LF] ++ u"1,2" ++ [LF]).

Definition twice_frame : DataFrame :=
  {| nrows := 2;
     cols := [ {| name := Lstr u"a"; data := NumCol [Some (Fin 1); Some (Fin 1)] |};
               {| name := Lstr u"b"; data := NumCol [Some (Fin 2); Some (Fin 2)] |} ] |}.

Definition twice_cleaner : SimpleCleaner.cleaner :=
  {| SimpleCleaner.opts := SimpleCleaner.no_options;
     SimpleCleaner.df := twice_frame;
     SimpleCleaner.report := ∅;
     SimpleCleaner.original_shape := (2, 2)%nat |}.

(** What pandas does on [twice_file]: two numeric columns under every
    encoding that extends ASCII; the file is neither a spreadsheet nor
    JSON. *)
Definition simple_on_twice_file : SimpleCleaner.library :=
  {| SimpleCleaner.pd_read_csv_skip := fun _ e =>
       match e with
       | UTF8 | LATIN1 | CP1252 | ISO8859_1 | ASCII => Some twice_frame
       | UTF16 | OtherEncoding _ => None
       end;
     SimpleCleaner.pd_read_excel := fun _ => None;
     SimpleCleaner.pd_read_json := fun _ => None |}.

(** What the libraries do for [data_cleaner] on a file that pandas
    parses into [d] under every encoding that extends ASCII: chardet
    reports ASCII; the file is neither a spreadsheet nor JSON. *)
Definition data_on_ascii_file (d : DataFrame) : DataLoader.library :=
  {| DataLoader.pd_read_csv_skip := fun _ e =>
       match e with
       | Some UTF16 | Some (OtherEncoding _) => None
       | _ => Some d
       end;
     DataLoader.pd_read_csv_sniff := fun _ => Some d;
     DataLoader.pd_read_excel := fun _ => None;
     DataLoader.pd_read_json := fun _ => None;
     DataLoader.chardet_detect := fun _ =>
       Some {| App.det_encoding := Some ASCII; App.det_confidence := 1 |} |}.

Definition data_no_options : DataCleaner.options :=
  {| DataCleaner.handle_missing := None;
     DataCleaner.missing_threshold := None;
     DataCleaner.handle_duplicates := None;
     DataCleaner.standardize_text := None |}.

(** A numeric column that holds both infinities and a hole, beside a
    complete one: pandas reads it from the lines [x,y], [inf,1],
    [-inf,2] and [,3]. *)
Definition inf_frame : DataFrame :=
  {| nrows := 3;
     cols := [ {| name := Lstr u"x"; data := NumCol [Some PInf; Some NInf; None] |};
               {| name := Lstr u"y";
                  data := NumCol [Some (Fin 1); Some (Fin 2); Some (Fin 3)] |} ] |}.

Definition inf_cleaner : SimpleCleaner.cleaner :=
  {| SimpleCleaner.opts := SimpleCleaner.no_options;
     SimpleCleaner.df := inf_frame;
     SimpleCleaner.report := ∅;
     SimpleCleaner.original_shape := (3, 2)%nat |}.

End Examples.

(** * Properties *)

Import Py Frame Io Examples.
(** *** Column names *)
Section ColumnNames.
Variable U : unicode_data.

Lemma below_256_enum (P : char -> bool) :
  forallb P (N.of_nat <$> seq 0 256) = true ->
  forall c, c < 256 -> P c = true.
Proof.
  intros H c Hc. rewrite forallb_forall in H. apply H.
  apply list_elem_of_In, list_elem_of_fmap. exists (N.to_nat c). split; [lia|].
  apply elem_of_seq. lia.
Qed.

Lemma lower_settles c :
  c < 256 -> latin1_alnum c || (c =? UNDERSCORE) = true -> isspace c = false ->
  settled (latin1_lower c) = true.
Proof.
  intros Hc Hw Hs.
  pose proof (below_256_enum
    (fun c => implb (latin1_alnum c || (c =? UNDERSCORE))
                (implb (negb (isspace c)) (settled (latin1_lower c))))) as H.
  specialize (H ltac:(vm_compute; reflexivity) c Hc). cbv beta in H.
  rewrite Hw, Hs in H. exact H.
Qed.

Lemma is_word_latin1 c : c < 256 -> is_word U c = latin1_alnum c || (c =? UNDERSCORE).
Proof.
  intros Hc. unfold is_word, isalnum. apply N.ltb_lt in Hc. by rewrite Hc.
Qed.

Lemma lower_from_latin1 before s :
  Forall (fun c => c < 256) s -> lower_from U before s = latin1_lower <$> s.
Proof.
  intros H. revert before. induction H as [|c s Hc _ IH]; intros before; [done|].
  simpl. unfold lower_char. apply N.ltb_lt in Hc. rewrite Hc. simpl. by rewrite IH.
Qed.

Lemma lstrip_sub s : exists k, lstrip s = drop k s.
Proof.
  induction s as [|c s [k IH]]; [by exists 0%nat|].
  simpl. destruct (isspace c); [by exists (S k)|by exists 0%nat].
Qed.

Lemma Forall_lstrip (P : char -> Prop) s : Forall P s -> Forall P (lstrip s).
Proof. destruct (lstrip_sub s) as [k ->]. apply Forall_drop. Qed.

Lemma Forall_strip (P : char -> Prop) s : Forall P s -> Forall P (strip s).
Proof.
  intros H. unfold strip, rstrip.
  by apply Forall_rev, Forall_lstrip, Forall_rev, Forall_lstrip.
Qed.

Lemma lstrip_no_space s : Forall (fun c => isspace c = false) s -> lstrip s = s.
Proof. destruct 1 as [|c s Hc _]; [done|]. simpl. by rewrite Hc. Qed.

Lemma strip_no_space s : Forall (fun c => isspace c = false) s -> strip s = s.
Proof.
  intros H. unfold strip, rstrip. rewrite (lstrip_no_space s H).
  rewrite lstrip_no_space by by apply Forall_rev. apply rev_involutive.
Qed.

Lemma sub_spaces_no_space repl b s :
  Forall (fun c => isspace c = false) s -> sub_spaces repl b s = s.
Proof.
  intros H. revert b. induction H as [|c s Hc _ IH]; intros b; [done|].
  simpl. by rewrite Hc, IH.
Qed.

(** What stage by stage survives of a Latin-1 name. *)
Lemma sub_spaces_word b s :
  Forall (fun c => c < 256 /\ is_word U c || isspace c = true) s ->
  Forall (fun c => c < 256 /\ is_word U c = true /\ isspace c = false)
    (sub_spaces [UNDERSCORE] b s).
Proof.
  intros H. revert b. induction H as [|c s [Hc Hw] _ IH]; intros b; [constructor|].
  simpl. destruct (isspace c) eqn:Hs.
  - apply Forall_app. split; [|apply IH].
    destruct b; repeat constructor.
  - constructor; [|apply IH]. rewrite orb_false_r in Hw. done.
Qed.

Lemma settled_fixed r :
  r <> [] -> Forall (fun c => settled c = true) r ->
  SimpleCleaner._clean_column_name U (Lstr r) = r.
Proof.
  intros Hne H. unfold SimpleCleaner._clean_column_name.
  assert (Forall (fun c => isspace c = false) r) as Hs.
  { eapply Forall_impl; [exact H|]. intros c Hc. unfold settled in Hc.
    repeat (apply andb_prop in Hc as [Hc ?]). by apply negb_true_iff. }
  assert (Forall (fun c => c < 256) r) as Hlt.
  { eapply Forall_impl; [exact H|]. intros c Hc. unfold settled in Hc.
    repeat (apply andb_prop in Hc as [Hc ?]). by apply N.ltb_lt. }
  rewrite (strip_no_space r Hs).
  assert (List.filter (fun c => is_word U c || isspace c) r = r) as ->.
  { apply forallb_filter_id, forallb_forall. intros c Hin.
    apply list_elem_of_In in Hin. rewrite Forall_forall in H.
    specialize (H c Hin). unfold settled in H.
    repeat (apply andb_prop in H as [H ?]). apply N.ltb_lt in H.
    rewrite (is_word_latin1 c H). apply orb_true_intro. by left. }
  rewrite (sub_spaces_no_space _ _ r Hs).
  unfold lower. rewrite (lower_from_latin1 [] r Hlt).
  assert (latin1_lower <$> r = r) as E.
  { clear Hne Hs Hlt. induction H as [|c r Hc _ IH]; [done|].
    rewrite fmap_cons, IH. f_equal. unfold settled in Hc.
    repeat (apply andb_prop in Hc as [Hc ?]). by apply N.eqb_eq. }
  destruct r; [done|exact E].
Qed.

Lemma clean_column_name_settled s :
  Forall (fun c => c < 256) s ->
  SimpleCleaner._clean_column_name U (Lstr s) <> []
  /\ Forall (fun c => settled c = true) (SimpleCleaner._clean_column_name U (Lstr s)).
Proof.
  intros H. unfold SimpleCleaner._clean_column_name.
  set (kept := List.filter (fun c => is_word U c || isspace c) (strip s)).
  assert (Forall (fun c => c < 256 /\ is_word U c || isspace c = true) kept) as Hk.
  { apply Forall_forall. intros c Hin. apply list_elem_of_In, filter_In in Hin as [Hin Hc].
    split; [|done]. apply list_elem_of_In in Hin.
    pose proof (Forall_strip _ s H) as Hs. rewrite Forall_forall in Hs.
    exact (Hs c Hin). }
  pose proof (sub_spaces_word false kept Hk) as Hw.
  set (t := sub_spaces [UNDERSCORE] false kept) in *.
  assert (Forall (fun c => c < 256) t) as Hlt.
  { eapply Forall_impl; [exact Hw|]. by intros c [? _]. }
  unfold lower. rewrite (lower_from_latin1 [] t Hlt).
  destruct t as [|c t]; [split; [done|vm_compute; repeat constructor]|].
  split; [done|].
  change (Forall (fun c => settled c = true) (latin1_lower <$> c :: t)).
  apply Forall_fmap. eapply Forall_impl; [exact Hw|].
  intros x (Hx & Hwx & Hsx). simpl. apply lower_settles; [done| |done].
  by rewrite <- is_word_latin1.
Qed.

(** The same, for any database: what is stable stays. *)
Lemma settled_stable c : settled c = true -> stable U c.
Proof.
  intros H. unfold settled in H. repeat (apply andb_prop in H as [H ?]).
  apply N.ltb_lt in H as Hlt. split; [|split].
  - by rewrite is_word_latin1.
  - by apply negb_true_iff.
  - intros before after. unfold lower_char. rewrite H. f_equal. by apply N.eqb_eq.
Qed.

Lemma lower_from_stable before r :
  Forall (stable U) r -> lower_from U before r = r.
Proof.
  intros H. revert before. induction H as [|c r (_ & _ & Hc) _ IH]; intros before; [done|].
  simpl. by rewrite Hc, IH.
Qed.

Lemma stable_fixed r :
  r <> [] -> Forall (stable U) r ->
  SimpleCleaner._clean_column_name U (Lstr r) = r.
Proof.
  intros Hne H. unfold SimpleCleaner._clean_column_name.
  assert (Forall (fun c => isspace c = false) r) as Hs.
  { eapply Forall_impl; [exact H|]. by intros c (_ & ? & _). }
  rewrite (strip_no_space r Hs).
  assert (List.filter (fun c => is_word U c || isspace c) r = r) as ->.
  { apply forallb_filter_id, forallb_forall. intros c Hin.
    apply list_elem_of_In in Hin. rewrite Forall_forall in H.
    destruct (H c Hin) as (Hw & _ & _). by rewrite Hw. }
  rewrite (sub_spaces_no_space _ _ r Hs).
  unfold lower. rewrite (lower_from_stable [] r H). by destruct r.
Qed.

Lemma Forall_sub_spaces (P : char -> Prop) repl b s :
  Forall P repl -> Forall P s -> Forall P (sub_spaces repl b s).
Proof.
  intros Hr H. revert b. induction H as [|c s Hc _ IH]; intros b; [constructor|].
  simpl. destruct (isspace c).
  - apply Forall_app. split; [|apply IH]. destruct b; [constructor|done].
  - constructor; [done|apply IH].
Qed.

Lemma sub_spaces_words b s :
  Forall (fun c => is_word U c || isspace c = true) s ->
  Forall (fun c => is_word U c = true /\ isspace c = false)
    (sub_spaces [UNDERSCORE] b s).
Proof.
  intros H. revert b. induction H as [|c s Hw _ IH]; intros b; [constructor|].
  simpl. destruct (isspace c) eqn:Hs.
  - apply Forall_app. split; [|apply IH].
    destruct b; repeat constructor.
  - constructor; [|apply IH]. rewrite orb_false_r in Hw. done.
Qed.

Lemma lower_from_lowers before t :
  Forall (fun c => forall b a, Forall (stable U) (lower_char U b c a)) t ->
  Forall (stable U) (lower_from U before t).
Proof.
  intros H. revert before. induction H as [|c t Hc _ IH]; intros before; [constructor|].
  simpl. apply Forall_app. split; [apply Hc|apply IH].
Qed.

(** A normalised name is not empty and holds stable characters only. *)
Lemma clean_column_name_stable s :
  lowers_to_stable U s ->
  SimpleCleaner._clean_column_name U (Lstr s) <> []
  /\ Forall (stable U) (SimpleCleaner._clean_column_name U (Lstr s)).
Proof.
  intros H. unfold SimpleCleaner._clean_column_name.
  set (Q := fun c => is_word U c = true -> isspace c = false ->
                     forall before after, Forall (stable U) (lower_char U before c after)).
  set (kept := List.filter (fun c => is_word U c || isspace c) (strip s)).
  assert (Forall Q kept) as HQ.
  { apply Forall_forall. intros c Hin. apply list_elem_of_In, filter_In in Hin as [Hin _].
    apply list_elem_of_In in Hin.
    pose proof (Forall_strip _ s H) as Hs. rewrite Forall_forall in Hs. exact (Hs c Hin). }
  assert (Forall (fun c => is_word U c || isspace c = true) kept) as Hk.
  { apply Forall_forall. intros c Hin. by apply list_elem_of_In, filter_In in Hin as [_ Hc]. }
  assert (stable U UNDERSCORE) as Hu by (by apply settled_stable).
  assert (Q UNDERSCORE) as HQu.
  { intros _ _ before after. destruct Hu as (_ & _ & ->). repeat constructor; apply Hu || by apply settled_stable. }
  pose proof (sub_spaces_words false kept Hk) as Hw.
  pose proof (Forall_sub_spaces Q [UNDERSCORE] false kept ltac:(by repeat constructor) HQ) as Hq.
  set (t := sub_spaces [UNDERSCORE] false kept) in *.
  assert (Forall (stable U) (lower U t)) as Hl.
  { apply lower_from_lowers. apply Forall_forall. intros c Hc b a.
    rewrite Forall_forall in Hw, Hq. destruct (Hw c Hc) as [Hcw Hcs].
    by apply (Hq c Hc). }
  destruct (lower U t) as [|x r]; [|done].
  split; [done|]. apply Forall_forall. intros c Hc.
  apply settled_stable.
  apply (proj1 (Forall_forall (fun c => settled c = true) (u"column"))); [|exact Hc].
  repeat constructor.
Qed.

(** A Latin-1 name is lower-cased to stable characters. *)
Lemma latin1_lowers_to_stable s :
  Forall (fun c => c < 256) s -> lowers_to_stable U s.
Proof.
  intros H. eapply Forall_impl; [exact H|]. intros c Hc Hw Hs before after.
  unfold lower_char. apply N.ltb_lt in Hc as Hb. rewrite Hb.
  constructor; [|constructor]. apply settled_stable, lower_settles; [done| |done].
  by rewrite <- is_word_latin1.
Qed.

End ColumnNames.

(** C9, as amended.  Normalising twice gives what normalising once
    gives on every name whose word characters are lower-cased to
    characters that are word characters themselves, no white space,
    and their own lower case: the normalised name then holds such
    characters only, which every stage leaves alone.  Every name made
    of ASCII or Latin-1 characters (code points below 256) is of that
    kind, whatever the Unicode database says beyond Latin-1. *)
Theorem clean_column_name_idempotent (U : unicode_data) :
  (forall s : str,
     lowers_to_stable U s ->
     SimpleCleaner._clean_column_name U (Lstr (SimpleCleaner._clean_column_name U (Lstr s)))
     = SimpleCleaner._clean_column_name U (Lstr s))
  /\ (forall s : str, Forall (fun c => c < 256) s -> lowers_to_stable U s).
Proof.
  split.
  - intros s H. destruct (clean_column_name_stable U s H) as [Hne Hs].
    by apply stable_fixed.
  - apply latin1_lowers_to_stable.
Qed.

(** A Latin-1 name, and a Cyrillic one under the Cyrillic letters of
    the database. *)
Lemma clean_column_name_idempotent_witness :
  (SimpleCleaner._clean_column_name ucd_excerpt (Lstr (u" Unit Price ($) ")) = u"unit_price_"
   /\ SimpleCleaner._clean_column_name ucd_excerpt
        (Lstr (SimpleCleaner._clean_column_name ucd_excerpt (Lstr (u" Unit Price ($) "))))
      = SimpleCleaner._clean_column_name ucd_excerpt (Lstr (u" Unit Price ($) ")))
  /\ (SimpleCleaner._clean_column_name ucd_cyrillic (Lstr [0x426; 0x435; 0x43D; 0x430; 0x20; 0x422])
      = [0x446; 0x435; 0x43D; 0x430; 0x5F; 0x442]
      /\ SimpleCleaner._clean_column_name ucd_cyrillic
           (Lstr (SimpleCleaner._clean_column_name ucd_cyrillic
                    (Lstr [0x426; 0x435; 0x43D; 0x430; 0x20; 0x422])))
         = SimpleCleaner._clean_column_name ucd_cyrillic
             (Lstr [0x426; 0x435; 0x43D; 0x430; 0x20; 0x422])).
Proof.
  split.
  - split; [vm_compute; reflexivity|].
    destruct (clean_column_name_idempotent ucd_excerpt) as [Hidem Hlatin].
    apply Hidem, Hlatin. vm_compute. repeat constructor.
  - split; [vm_compute; reflexivity|].
    destruct (clean_column_name_idempotent ucd_cyrillic) as [Hidem _].
    apply Hidem. unfold lowers_to_stable.
    repeat (constructor;
            [first
               [ intros Hw; vm_compute in Hw; discriminate Hw
               | intros _ _ before after; constructor; [|constructor];
                 (split; [reflexivity|split; [reflexivity|intros b a; reflexivity]]) ]|]).
    constructor.
Defined.

(** C9 as stated fails beyond Latin-1: the letter U+0130 passes the
    filter and is lower-cased to [i] followed by the combining dot
    U+0307, which is no word character; a second normalisation strips
    the dot. *)
Lemma clean_column_name_not_idempotent :
  SimpleCleaner._clean_column_name ucd_excerpt (Lstr [0x130]) = [0x69; 0x307]
  /\ SimpleCleaner._clean_column_name ucd_excerpt (Lstr [0x69; 0x307]) = [0x69]
  /\ SimpleCleaner._clean_column_name ucd_excerpt
       (Lstr (SimpleCleaner._clean_column_name ucd_excerpt (Lstr [0x130])))
     <> SimpleCleaner._clean_column_name ucd_excerpt (Lstr [0x130]).
Proof. vm_compute. repeat split; congruence. Qed.

(** *** The delimiter of the manual tiers *)
Section Delimiter.

Lemma max_by_first {A} (f : A -> nat) (b : A) (l : list A) :
  exists pre post,
    b :: l = pre ++ max_by f b l :: post
    /\ (forall x, x ∈ pre -> (f x < f (max_by f b l))%nat)
    /\ (forall x, x ∈ post -> (f x <= f (max_by f b l))%nat)
    /\ (f b <= f (max_by f b l))%nat.
Proof.
  revert b. induction l as [|x l IH]; intros b.
  - exists [], []. simpl. repeat split; try lia; intros y Hy; by apply elem_of_nil in Hy.
  - simpl. destruct (f b <? f x)%nat eqn:E.
    + apply Nat.ltb_lt in E. destruct (IH x) as (pre & post & Heq & Hpre & Hpost & Hx).
      exists (b :: pre), post. rewrite Heq. repeat split; [|done|lia].
      intros y Hy. apply elem_of_cons in Hy as [->|Hy]; [lia|by apply Hpre].
    + apply Nat.ltb_ge in E. destruct (IH b) as (pre & post & Heq & Hpre & Hpost & Hb).
      destruct pre as [|b' pre].
      * simpl in Heq. injection Heq as Hm Hl. exists [], (x :: post).
        rewrite <- Hm in *. subst post. simpl. repeat split; [| |lia].
        -- intros y Hy. by apply elem_of_nil in Hy.
        -- intros y Hy. apply elem_of_cons in Hy as [->|Hy]; [lia|by apply Hpost].
      * simpl in Heq. injection Heq as <- Hl. exists (b :: x :: pre), post.
        split; [simpl; do 2 f_equal; exact Hl|]. repeat split; [|done|done].
        assert (f b < f (max_by f b l))%nat as Hlt by (apply Hpre; left).
        intros y Hy. apply elem_of_cons in Hy as [->|Hy]; [done|].
        apply elem_of_cons in Hy as [->|Hy]; [lia|]. apply Hpre. by right.
Qed.

(** The candidate chosen is the earliest of those that occur most. *)
Lemma detect_delimiter_earliest (h : str) :
  exists pre post,
    App.delimiters = pre ++ App.detect_delimiter h :: post
    /\ (forall x, x ∈ pre -> (count x h < count (App.detect_delimiter h) h)%nat)
    /\ (forall x, x ∈ post -> (count x h <= count (App.detect_delimiter h) h)%nat).
Proof.
  destruct (max_by_first (fun d => count d h) COMMA [SEMICOLON; TAB; PIPE])
    as (pre & post & Heq & Hpre & Hpost & _).
  exists pre, post. done.
Qed.

Lemma detect_delimiter_none (h : str) :
  (forall x, x ∈ App.delimiters -> count x h = 0%nat) ->
  App.detect_delimiter h = COMMA.
Proof.
  intros H. destruct (detect_delimiter_earliest h) as (pre & post & Heq & Hpre & _).
  destruct pre as [|c pre]; [by injection Heq as <-|].
  injection Heq as <- _.
  assert (COMMA ∈ App.delimiters) as Hin by (unfold App.delimiters; set_solver).
  specialize (Hpre COMMA ltac:(left)). rewrite (H COMMA Hin) in Hpre.
  assert (App.detect_delimiter h ∈ App.delimiters) as Hd.
  { pose proof (max_by_first (fun d => count d h) COMMA [SEMICOLON; TAB; PIPE])
      as (p & q & E & _). unfold App.delimiters. rewrite E.
    apply elem_of_app. right. left. }
  rewrite (H _ Hd) in Hpre. lia.
Qed.

Lemma count_cons d c s :
  count d (c :: s) = ((if (d =? c)%N then 1 else 0) + count d s)%nat.
Proof. unfold count. simpl. by destruct (d =? c)%N. Qed.

Lemma count_app d s t : count d (s ++ t) = (count d s + count d t)%nat.
Proof. unfold count. by rewrite List.filter_app, length_app. Qed.

Lemma count_rev d s : count d (rev s) = count d s.
Proof.
  induction s as [|c s IH]; [done|]. simpl.
  rewrite count_app, IH, !count_cons. change (count d []) with 0%nat. lia.
Qed.

Lemma count_lstrip_le d s : (count d (lstrip s) <= count d s)%nat.
Proof.
  induction s as [|c s IH]; [done|]. simpl.
  destruct (isspace c); [rewrite count_cons; lia|done].
Qed.

Lemma count_strip_le d s : (count d (strip s) <= count d s)%nat.
Proof.
  unfold strip, rstrip. rewrite count_rev.
  etrans; [apply count_lstrip_le|]. rewrite count_rev. apply count_lstrip_le.
Qed.

(** White space around a line hides no candidate: a first line free
    of them gives the comma, trimmed or not. *)
Lemma detect_delimiter_none_strip (h : str) :
  (forall x, x ∈ App.delimiters -> count x h = 0%nat) ->
  App.detect_delimiter (strip h) = COMMA.
Proof.
  intros H. apply detect_delimiter_none. intros x Hx.
  pose proof (count_strip_le x h). rewrite (H x Hx) in *. lia.
Qed.

End Delimiter.

(** C10, as amended.  In each manual tier the delimiter is the earliest
    candidate, in the order comma, semicolon, tab, pipe, among those
    that occur most often in the header text the tier looks at, and the
    whole file is tokenised with it.  [manual_csv_parse] looks at the
    first line with the white space around it trimmed,
    [_try_csv_module] at the first line as read,
    [text_based_csv_parse] at the first line of the cleaned content.  A
    first line without any candidate gives the comma. *)
Theorem manual_tiers_delimiter (f : file) (e : encoding) (t : str) (first : str) (rest : list str) :
  text f e Replace = Some t ->
  file_lines t = first :: rest ->
  (forall h, exists pre post,
      App.delimiters = pre ++ App.detect_delimiter h :: post
      /\ (forall x, x ∈ pre -> (count x h < count (App.detect_delimiter h) h)%nat)
      /\ (forall x, x ∈ post -> (count x h <= count (App.detect_delimiter h) h)%nat))
  /\ ((forall x, x ∈ App.delimiters -> count x first = 0%nat) ->
      App.detect_delimiter (strip first) = COMMA /\ App.detect_delimiter first = COMMA)
  /\ (forall es,
      App.manual_rows f (e :: es) =
        match Csv.reader (App.detect_delimiter (strip first)) (file_lines t) with
        | Some rows => rows
        | None => App.manual_rows f es
        end)
  /\ SimpleCleaner.csv_module_attempt f e =
       (rows ← Csv.reader (App.detect_delimiter first) (file_lines t);
        if (1 <? length rows)%nat
        then of_rows (drop 1 rows) (default [] (head rows))
        else None)
  /\ (forall L content line lines,
      text f UTF8 Ignore = Some content ->
      App.pd_read_csv_text L (App.clean_csv_content content) = None ->
      split LF (strip (App.clean_csv_content content)) = line :: lines ->
      App.text_based_csv_parse L f =
        let rows := (fun l => strip <$> split (App.detect_delimiter line) l) <$> (line :: lines) in
        if (1 <? length rows)%nat
        then default empty_frame (of_rows (drop 1 rows) (default [] (head rows)))
        else empty_frame).
Proof.
  intros Ht Hl. split; [apply detect_delimiter_earliest|].
  split; [intros H; split; [by apply detect_delimiter_none_strip|by apply detect_delimiter_none]|].
  split; [|split].
  - intros es. simpl. rewrite Ht, Hl. reflexivity.
  - unfold SimpleCleaner.csv_module_attempt. rewrite Ht. simpl. rewrite Hl. reflexivity.
  - intros L content line lines Hc Hp Hs. unfold App.text_based_csv_parse.
    rewrite Hc, Hp, Hs. reflexivity.
Qed.

Lemma manual_tiers_delimiter_witness :
  App.manual_rows semicolon_file [UTF8; LATIN1; CP1252; ISO8859_1; UTF16]
  = [[u"a"; u"b"]; [u"1"; u"2"]].
Proof.
  destruct (manual_tiers_delimiter semicolon_file UTF8
              (u"a;b" ++ [LF] ++ u"1;2" ++ [LF]) (u"a;b" ++ [LF]) [u"1;2" ++ [LF]]
              eq_refl eq_refl) as (_ & _ & H & _).
  rewrite H. vm_compute. reflexivity.
Defined.

(** C10 as stated fails where trimming changes the counts: in the
    header [a|b] followed by a tab, tab and pipe both occur once, and
    [manual_csv_parse] tokenises with the pipe, not with the tab. *)
Lemma manual_csv_parse_tie_not_earliest :
  text pipe_file UTF8 Replace = Some (u"a|b" ++ [TAB; LF] ++ u"1|2" ++ [LF])
  /\ head (file_lines (u"a|b" ++ [TAB; LF] ++ u"1|2" ++ [LF])) = Some (u"a|b" ++ [TAB; LF])
  /\ (fun d => count d (u"a|b" ++ [TAB; LF])) <$> App.delimiters = [0; 0; 1; 1]%nat
  /\ App.manual_rows pipe_file [UTF8; LATIN1; CP1252; ISO8859_1; UTF16]
     = [[u"a"; u"b" ++ [TAB]]; [u"1"; u"2"]]
  /\ Csv.reader TAB (file_lines (u"a|b" ++ [TAB; LF] ++ u"1|2" ++ [LF]))
     = Some [[u"a|b"; []]; [u"1|2"]]
  /\ App.manual_rows pipe_file [UTF8; LATIN1; CP1252; ISO8859_1; UTF16]
     <> [[u"a|b"; []]; [u"1|2"]].
Proof. vm_compute. repeat split; congruence. Qed.

(** *** The table of the manual tiers *)
Section ManualTable.

Lemma length_pad_right {A} (x : A) w (l : list A) :
  (length l <= w)%nat -> length (pad_right x w l) = w.
Proof. intros H. unfold pad_right. rewrite length_app, length_replicate. lia. Qed.

Lemma row_at_of_cols (records : list (list str)) (names : list str) i r :
  records !! i = Some r -> length r = length names ->
  row_at {| nrows := length records;
            cols := imap (fun j n => {| name := Lstr n;
                                        data := ObjCol ((fun r : list str => r !! j) <$> records) |})
                      names |} i
  = (fun x => CStr (Some x)) <$> r.
Proof.
  intros Hi Hlen. unfold row_at. simpl. apply list_eq. intros j.
  rewrite !list_lookup_fmap, list_lookup_imap.
  destruct (names !! j) as [n|] eqn:Hn; simpl.
  - rewrite list_lookup_fmap, Hi. simpl.
    destruct (r !! j) as [x|] eqn:Hr; [done|].
    apply lookup_ge_None in Hr. apply lookup_lt_Some in Hn. lia.
  - apply lookup_ge_None in Hn. rewrite lookup_ge_None_2 by lia. done.
Qed.

(** [pd.DataFrame(records, columns=names)] on records as wide as the
    header: it does not raise and keeps every cell in place. *)
Lemma of_rows_rectangular (records : list (list str)) (names : list str) :
  records <> [] ->
  Forall (fun r : list str => length r = length names) records ->
  exists d,
    of_rows records names = Some d
    /\ columns d = Lstr <$> names
    /\ rows d = (fun r : list str => (fun x => CStr (Some x)) <$> r) <$> records.
Proof.
  intros Hne Hall. unfold of_rows.
  assert (max_list (length <$> records) = length names) as ->.
  { induction records as [|r rs IH]; [done|].
    apply Forall_cons in Hall as [Hr Hall]. rewrite fmap_cons. simpl. rewrite Hr.
    destruct rs as [|r1 rs']; [simpl; lia|]. rewrite IH by done. lia. }
  rewrite Nat.eqb_refl. destruct records as [|r0 rs] eqn:E; [done|]. rewrite <- E in *.
  eexists. split; [reflexivity|]. split.
  - unfold columns. simpl. apply list_eq. intros j.
    rewrite !list_lookup_fmap, list_lookup_imap. by destruct (names !! j).
  - unfold rows. simpl. apply list_eq. intros i.
    rewrite !list_lookup_fmap.
    destruct (records !! i) as [r|] eqn:Hi.
    + rewrite lookup_seq_lt by (by eapply lookup_lt_Some). simpl. f_equal.
      apply row_at_of_cols; [done|].
      rewrite Forall_forall in Hall. apply Hall. by eapply list_elem_of_lookup_2.
    + apply lookup_ge_None in Hi. rewrite lookup_seq_ge by lia. done.
Qed.

Lemma table_of_rows_some (header : list str) (records : list (list str)) :
  records <> [] ->
  exists d,
    App.table_of_rows (header :: records) = Some d
    /\ columns d = Lstr <$> pad_right [] (max_list (length <$> header :: records)) header
    /\ rows d = (fun r : list str => (fun x => CStr (Some x)) <$>
                   pad_right [] (max_list (length <$> header :: records)) r) <$> records.
Proof.
  intros Hne. unfold App.table_of_rows.
  set (w := max_list (length <$> header :: records)).
  assert ((1 <? length (header :: records))%nat = true) as ->.
  { apply Nat.ltb_lt. destruct records; [done|simpl; lia]. }
  rewrite fmap_cons. cbn [head default drop].
  destruct (of_rows_rectangular (pad_right [] w <$> records) (pad_right [] w header))
    as (d & Hd & Hc & Hr).
  - by destruct records.
  - apply Forall_fmap, Forall_forall. intros r Hr. simpl.
    rewrite !length_pad_right; [done| |].
    + subst w. rewrite fmap_cons. simpl. lia.
    + subst w. apply max_list_elem_of_le. rewrite fmap_cons. right.
      by apply list_elem_of_fmap_2.
  - exists d. split; [exact Hd|]. split; [exact Hc|].
    rewrite Hr. by rewrite <- list_fmap_compose.
Qed.

Lemma length_rows (d : DataFrame) :
  Forall (fun r => length r = length (columns d)) (rows d).
Proof.
  unfold rows, columns. apply Forall_fmap, Forall_forall. intros i _. simpl.
  unfold row_at. by rewrite !length_fmap.
Qed.

End ManualTable.

(** C3, as amended.  Every table the resolver returns has exactly as
    many cells in each record as it has columns.  The manual tier
    turns its tokenised lines into a table without raising.  The width is that of the
    longest line, header included: the header itself is completed with
    empty names, every shorter record with empty strings, and no cell
    is merged into another.  [_try_manual_parse] builds its table the
    same way. *)
Theorem manual_table_shape (header : list str) (records : list (list str)) :
  records <> [] ->
  (exists d,
      App.table_of_rows (header :: records) = Some d
      /\ columns d = Lstr <$> pad_right [] (max_list (length <$> header :: records)) header
      /\ rows d = (fun r : list str => (fun x => CStr (Some x)) <$>
                     pad_right [] (max_list (length <$> header :: records)) r) <$> records
      /\ length (columns d) = max_list (length <$> header :: records)
      /\ Forall (fun r => length r = length (columns d)) (rows d))
  /\ (forall f t,
      text f UTF8 Ignore = Some t ->
      (fun line => strip <$> split COMMA line) <$>
        List.filter (fun l => negb (bool_decide (l = []))) (strip <$> file_lines t)
      = header :: records ->
      SimpleCleaner._try_manual_parse f = App.table_of_rows (header :: records))
  /\ (forall L f d,
      App.read_csv_with_fallbacks L f = Some d ->
      Forall (fun r => length r = length (columns d)) (rows d)).
Proof.
  intros Hne. split; [|split; [|intros L f d _; apply length_rows]].
  - destruct (table_of_rows_some header records Hne) as (d & Hd & Hc & Hr).
    exists d. split; [exact Hd|]. split; [exact Hc|]. split; [exact Hr|].
    split; [|apply length_rows].
    rewrite Hc, length_fmap. apply length_pad_right.
    rewrite fmap_cons. simpl. lia.
  - intros f t Ht Hrows. unfold SimpleCleaner._try_manual_parse. rewrite Ht. simpl.
    rewrite Hrows.
    match type of Hrows with
    | _ <$> ?cleaned = _ => destruct cleaned as [|c cs]; [discriminate Hrows|]
    end.
    destruct records as [|r rs]; [done|]. reflexivity.
Qed.

Lemma manual_table_shape_witness :
  exists d,
    App.manual_csv_parse wide_file = Some d
    /\ columns d = [Lstr u"a"; Lstr u"b"; Lstr []; Lstr []]
    /\ rows d = [[CStr (Some u"1"); CStr (Some u"2"); CStr (Some u"3"); CStr (Some u"4")]].
Proof.
  destruct (manual_table_shape [u"a"; u"b"] [[u"1"; u"2"; u"3"; u"4"]] ltac:(done))
    as [(d & Hd & Hc & Hr & _) _].
  exists d. split; [exact Hd|]. split; [exact Hc|exact Hr].
Defined.

(** C3 as stated fails on a record wider than its header: for the
    lines [a,b] and [1,2,3,4] the header's two columns are not the
    width, and the cells [3] and [4] are not merged into the column
    [b]: the table has four columns, two of them named by the empty
    string. *)
Lemma manual_csv_parse_widens_header :
  exists d,
    App.manual_csv_parse wide_file = Some d
    /\ length (columns d) = 4%nat
    /\ columns d <> [Lstr u"a"; Lstr u"b"]
    /\ rows d <> [[CStr (Some u"1"); CStr (Some u"2,3,4")]]
    /\ rows d = [[CStr (Some u"1"); CStr (Some u"2"); CStr (Some u"3"); CStr (Some u"4")]]
    /\ SimpleCleaner._try_manual_parse wide_file = Some d.
Proof. eexists. vm_compute. repeat split; congruence. Qed.

(** *** Exhaustion of the cascade *)
Section Exhaustion.

Lemma try_encodings_none read ok es :
  (forall e d, e ∈ es -> read e = Some d -> ok d = false) ->
  (App.try_encodings read ok es).2 = None.
Proof.
  induction es as [|e es IH]; intros H; [done|]. simpl.
  destruct (read e) as [d|] eqn:E.
  - rewrite (H e d) by (done || left). simpl. apply IH.
    intros e' d' Hin. apply H. by right.
  - simpl. apply IH. intros e' d' Hin. apply H. by right.
Qed.

(** Building the table of the manual tier never raises. *)
Lemma table_of_rows_total rows : is_Some (App.table_of_rows rows).
Proof.
  destruct rows as [|header [|r records]]; [by eexists|by eexists|].
  destruct (table_of_rows_some header (r :: records)) as (d & Hd & _); [done|].
  by exists d.
Qed.

Lemma manual_csv_parse_total f :
  is_Some (text f UTF8 Ignore) -> is_Some (App.manual_csv_parse f).
Proof.
  intros [t Ht]. unfold App.manual_csv_parse.
  destruct (App.manual_rows f _) as [|r rs]; simpl.
  - rewrite Ht. simpl. apply table_of_rows_total.
  - apply table_of_rows_total.
Qed.

End Exhaustion.

(** C1, as amended.  When every strategy is exhausted (no encoding
    gives pandas a frame with a record and two columns, none gives the
    tolerant parse a frame that is not empty, the manual and the text
    tiers end with empty frames), [read_csv_with_fallbacks] raises
    nothing: it returns the empty frame [pd.DataFrame()], and so does
    [_read_csv_robustly] when its three strategies give nothing.  The
    caller tells the failure by [df.empty]. *)
Theorem exhausted_cascade_returns_empty (L : App.library) (f : file) :
  (forall e d, e ∈ App.encodings -> App.pd_read_csv L f e = Some d ->
     is_empty d = true \/ (length (columns d) <= 1)%nat) ->
  (forall e d, e ∈ App.encodings -> App.pd_read_csv_skip L f e = Some d -> is_empty d = true) ->
  is_Some (text f UTF8 Ignore) ->
  (forall d, App.manual_csv_parse f = Some d -> is_empty d = true) ->
  is_empty (App.text_based_csv_parse L f) = true ->
  App.read_csv_with_fallbacks L f = Some empty_frame
  /\ (forall L' : SimpleCleaner.library,
      (forall e d, SimpleCleaner.pd_read_csv_skip L' f e = Some d -> is_empty d = true) ->
      (forall d, SimpleCleaner._try_csv_module f = Some d -> is_empty d = true) ->
      (forall d, SimpleCleaner._try_manual_parse f = Some d -> is_empty d = true) ->
      SimpleCleaner._read_csv_robustly L' f = empty_frame).
Proof.
  intros H1 H2 Ht H3 H4. split.
  - unfold App.read_csv_with_fallbacks, App.strategy1, App.strategy2.
    rewrite try_encodings_none.
    2:{ intros e d He Hd. destruct (H1 e d He Hd) as [->|Hc]; [done|].
        apply andb_false_intro2, Nat.ltb_ge. done. }
    rewrite try_encodings_none.
    2:{ intros e d He Hd. by rewrite (H2 e d He Hd). }
    destruct (manual_csv_parse_total f Ht) as [d Hd]. rewrite Hd. simpl.
    rewrite (H3 d Hd), H4. done.
  - intros L' Hp Hc Hm. unfold SimpleCleaner._read_csv_robustly.
    assert (forall o : option DataFrame,
              (forall d, o = Some d -> is_empty d = true) ->
              forall rest, SimpleCleaner.first_non_empty (o :: rest)
                           = SimpleCleaner.first_non_empty rest) as Hskip.
    { intros [d|] Ho rest; [|done]. simpl. by rewrite (Ho d eq_refl). }
    rewrite !Hskip; [done|exact Hm|exact Hc|].
    intros d. unfold SimpleCleaner._try_pandas_read.
    generalize [UTF8; LATIN1; CP1252; ISO8859_1; UTF16].
    intros es. induction es as [|e es IH]; [done|]. simpl.
    destruct (SimpleCleaner.pd_read_csv_skip L' f e) as [d'|] eqn:E; [|exact IH].
    rewrite (Hp e d' E). exact IH.
Qed.

Lemma exhausted_cascade_returns_empty_witness :
  App.read_csv_with_fallbacks on_empty_file empty_file = Some empty_frame
  /\ SimpleCleaner._read_csv_robustly simple_on_empty_file empty_file = empty_frame.
Proof.
  destruct (exhausted_cascade_returns_empty on_empty_file empty_file) as [H1 H2].
  - intros e d _ H. discriminate H.
  - intros e d _ H. discriminate H.
  - by eexists.
  - intros d H. vm_compute in H. injection H as <-. reflexivity.
  - reflexivity.
  - split; [exact H1|]. apply H2.
    + intros e d H. discriminate H.
    + intros d H. vm_compute in H. discriminate H.
    + intros d H. vm_compute in H. discriminate H.
Defined.

(** C1 as stated fails: on the file of no byte every strategy is
    exhausted, and the resolver returns the empty frame instead of
    raising. *)
Lemma exhausted_cascade_does_not_raise :
  (App.strategy1 on_empty_file empty_file).2 = None
  /\ (App.strategy2 on_empty_file empty_file).2 = None
  /\ App.manual_csv_parse empty_file = Some empty_frame
  /\ App.text_based_csv_parse on_empty_file empty_file = empty_frame
  /\ App.read_csv_with_fallbacks on_empty_file empty_file <> None
  /\ App.read_csv_with_fallbacks on_empty_file empty_file = Some empty_frame
  /\ is_empty empty_frame = true.
Proof. vm_compute. repeat split; congruence. Qed.

(** *** Encodings of the structured tier *)
Section Encodings.

(** The loop returns the frame of the first encoding, in the order
    of the list, whose parse is accepted, and logs the encodings up
    to it. *)
Lemma try_encodings_first read ok es d :
  (App.try_encodings read ok es).2 = Some d ->
  exists pre e post,
    es = pre ++ e :: post
    /\ read e = Some d /\ ok d = true
    /\ (forall e' d', e' ∈ pre -> read e' = Some d' -> ok d' = false)
    /\ (App.try_encodings read ok es).1 = pre ++ [e].
Proof.
  induction es as [|e es IH]; [done|]. simpl.
  destruct (read e) as [d0|] eqn:E; [destruct (ok d0) eqn:O|]; simpl.
  - intros [= <-]. exists [], e, es. repeat split; [done|done|].
    intros e' d' Hin. by apply elem_of_nil in Hin.
  - intros H. destruct (IH H) as (pre & e1 & post & -> & Hr & Ho & Hpre & Hlog).
    exists (e :: pre), e1, post. repeat split; [done|done| |by rewrite Hlog].
    intros e' d' Hin He'. apply elem_of_cons in Hin as [->|Hin]; [congruence|eauto].
  - intros H. destruct (IH H) as (pre & e1 & post & -> & Hr & Ho & Hpre & Hlog).
    exists (e :: pre), e1, post. repeat split; [done|done| |by rewrite Hlog].
    intros e' d' Hin He'. apply elem_of_cons in Hin as [->|Hin]; [congruence|eauto].
Qed.

Lemma try_encodings_log_all read ok es :
  (App.try_encodings read ok es).2 = None -> (App.try_encodings read ok es).1 = es.
Proof.
  induction es as [|e es IH]; [done|]. simpl.
  destruct (read e) as [d0|]; [destruct (ok d0)|]; simpl; [done| |];
    intros H; by rewrite IH.
Qed.

(** Conversely, an encoding whose parse is accepted, after encodings
    that raise or whose parse is refused, is the one the loop stops
    at. *)
Lemma try_encodings_complete read ok pre e post d :
  read e = Some d -> ok d = true ->
  (forall e' d', e' ∈ pre -> read e' = Some d' -> ok d' = false) ->
  App.try_encodings read ok (pre ++ e :: post) = (pre ++ [e], Some d).
Proof.
  intros Hr Ho. induction pre as [|e0 pre IH]; intros Hpre; simpl.
  - by rewrite Hr, Ho.
  - assert (App.try_encodings read ok (pre ++ e :: post) = (pre ++ [e], Some d)) as ->.
    { apply IH. intros e' d' Hin. apply Hpre. by right. }
    destruct (read e0) as [d0|] eqn:E; [|done].
    by rewrite (Hpre e0 d0 ltac:(left) E).
Qed.

Lemma try_encodings_all_refused read ok es :
  (forall e d, e ∈ es -> read e = Some d -> ok d = false) ->
  App.try_encodings read ok es = (es, None).
Proof.
  induction es as [|e es IH]; intros H; [done|]. simpl.
  rewrite IH by (intros e' d' Hin; apply H; by right).
  destruct (read e) as [d0|] eqn:E; [|done].
  by rewrite (H e d0 ltac:(left) E).
Qed.

Lemma try_encodings_None_refused read ok es :
  (App.try_encodings read ok es).2 = None ->
  forall e d, e ∈ es -> read e = Some d -> ok d = false.
Proof.
  induction es as [|e es IH]; intros H e' d' Hin; [by apply elem_of_nil in Hin|].
  simpl in H. destruct (read e) as [d0|] eqn:E; [destruct (ok d0) eqn:O|]; simpl in H;
    try discriminate H;
    (apply elem_of_cons in Hin as [->|Hin]; [congruence|by apply IH]).
Qed.

(** The test of the structured tier, [not df.empty and
    len(df.columns) > 1], on the shape of the frame. *)
Lemma structured_accepts d :
  negb (is_empty d) && (1 <? length (columns d))%nat = true
  <-> (1 <= nrows d)%nat /\ (1 < length (columns d))%nat.
Proof.
  unfold is_empty, columns. rewrite length_fmap. split.
  - intros H. apply andb_prop in H as [Hne Hc].
    apply negb_true_iff, orb_false_elim in Hne as [Hn _].
    apply Nat.eqb_neq in Hn. apply Nat.ltb_lt in Hc. lia.
  - intros [Hn Hc]. apply andb_true_intro. split.
    + apply negb_true_iff, orb_false_intro; apply Nat.eqb_neq; lia.
    + by apply Nat.ltb_lt.
Qed.

Lemma structured_refuses d :
  negb (is_empty d) && (1 <? length (columns d))%nat = false
  <-> nrows d = 0%nat \/ (length (columns d) <= 1)%nat.
Proof.
  pose proof (structured_accepts d) as H.
  destruct (negb (is_empty d) && (1 <? length (columns d))%nat).
  - split; [done|]. destruct H as [H _]. specialize (H eq_refl). lia.
  - split; [intros _|done].
    destruct (decide (nrows d = 0%nat)) as [|Hn]; [by left|right].
    destruct (decide (length (columns d) <= 1)%nat) as [|Hc]; [done|].
    exfalso. assert (false = true) as [=]. apply H. lia.
Qed.

End Encodings.

(** C4, as amended.  [detect_file_encoding] hands chardet the first
    100,000 bytes at most and keeps its answer only when the confidence
    is strictly above 0.7, UTF-8 otherwise (also when chardet raises).
    The structured tier does not consult it: it tries the fixed list
    UTF-8, Latin-1, CP1252, ISO-8859-1, UTF-16, ASCII in this order.
    An encoding of the list whose parse has more than one column and
    at least one record, while every encoding before it in the list
    raises or gives a parse with at most one column or no record, is
    the one the tier returns the frame of, having attempted exactly the
    encodings up to it; when all six raise or are refused the tier has
    attempted all six and returns nothing.  Conversely a frame the tier
    returns comes from such an encoding, and a tier that returns
    nothing has attempted and refused all six. *)
Theorem structured_tier_encodings (L : App.library) (f : file) :
  let six := [UTF8; LATIN1; CP1252; ISO8859_1; UTF16; ASCII] in
  let refused e := forall d, App.pd_read_csv L f e = Some d ->
                     nrows d = 0%nat \/ (length (columns d) <= 1)%nat in
  (forall pre e post d,
      six = pre ++ e :: post ->
      App.pd_read_csv L f e = Some d ->
      (1 <= nrows d)%nat -> (1 < length (columns d))%nat ->
      (forall e', e' ∈ pre -> refused e') ->
      App.strategy1 L f = (pre ++ [e], Some d))
  /\ ((forall e', e' ∈ six -> refused e') -> App.strategy1 L f = (six, None))
  /\ (forall d, (App.strategy1 L f).2 = Some d ->
        exists pre e post,
          six = pre ++ e :: post
          /\ App.pd_read_csv L f e = Some d
          /\ (1 <= nrows d)%nat /\ (1 < length (columns d))%nat
          /\ (forall e', e' ∈ pre -> refused e')
          /\ (App.strategy1 L f).1 = pre ++ [e])
  /\ ((App.strategy1 L f).2 = None ->
        (App.strategy1 L f).1 = six /\ forall e', e' ∈ six -> refused e')
  /\ (forall detect, App.strategy1
        {| App.pd_read_csv := App.pd_read_csv L;
           App.pd_read_csv_skip := App.pd_read_csv_skip L;
           App.pd_read_csv_text := App.pd_read_csv_text L;
           App.chardet_detect := detect |} f = App.strategy1 L f)
  /\ (length (take (N.to_nat 100000) (raw f)) <= N.to_nat 100000)%nat
  /\ App.detect_file_encoding L f =
       match App.chardet_detect L (take (N.to_nat 100000) (raw f)) with
       | Some r => if Qlt_le_dec (7 # 10) (App.det_confidence r)
                   then App.det_encoding r else Some UTF8
       | None => Some UTF8
       end.
Proof.
  intros six refused. split; [|split; [|split; [|split; [|split; [|split]]]]].
  - intros pre e post d Hes Hr Hn Hc Hpre. unfold App.strategy1.
    change App.encodings with six. rewrite Hes.
    apply try_encodings_complete; [done|by apply structured_accepts|].
    intros e' d' Hin He'. apply structured_refuses. by apply (Hpre e' Hin).
  - intros Hall. unfold App.strategy1. change App.encodings with six.
    apply try_encodings_all_refused. intros e d Hin He.
    apply structured_refuses. by apply (Hall e Hin).
  - intros d H.
    destruct (try_encodings_first _ _ _ _ H) as (pre & e & post & Hes & Hr & Ho & Hpre & Hlog).
    exists pre, e, post. apply structured_accepts in Ho as [Hn Hc].
    repeat split; [exact Hes|exact Hr|exact Hn|exact Hc| |exact Hlog].
    intros e' Hin d' He'. apply structured_refuses. by apply (Hpre e' d' Hin).
  - intros H. split; [by apply try_encodings_log_all|].
    intros e' Hin d' He'. apply structured_refuses.
    by apply (try_encodings_None_refused _ _ _ H e' d' Hin).
  - reflexivity.
  - rewrite length_take. lia.
  - unfold App.detect_file_encoding.
    destruct (App.chardet_detect L _) as [r|]; [|done].
    unfold Qgt_bool. destruct (Qlt_le_dec (7 # 10) (App.det_confidence r)) as [Hlt|Hle].
    + destruct (Qle_bool (App.det_confidence r) (7 # 10)) eqn:E; [|done].
      apply Qle_bool_iff in E. exfalso. by apply (Qlt_not_le _ _ Hlt).
    + apply Qle_bool_iff in Hle. by rewrite Hle.
Qed.

(** On [latin1_file] UTF-8 raises and Latin-1 is accepted: the tier
    has attempted UTF-8, then Latin-1, and returns the Latin-1 parse. *)
Lemma structured_tier_encodings_witness :
  App.pd_read_csv on_latin1_file latin1_file UTF8 = None
  /\ App.pd_read_csv on_latin1_file latin1_file LATIN1 = Some cafe_frame
  /\ App.strategy1 on_latin1_file latin1_file = ([UTF8; LATIN1], Some cafe_frame).
Proof.
  split; [reflexivity|]. split; [reflexivity|].
  destruct (structured_tier_encodings on_latin1_file latin1_file) as [Hfirst _].
  apply (Hfirst [UTF8] LATIN1 [CP1252; ISO8859_1; UTF16; ASCII] cafe_frame).
  - reflexivity.
  - reflexivity.
  - apply Nat.le_refl.
  - apply (Nat.ltb_lt 1 2). reflexivity.
  - intros e' Hin d He'. apply list_elem_of_singleton in Hin. subst e'.
    discriminate He'.
Defined.

(** C4 as stated fails: on an ASCII file chardet reports ASCII with
    confidence 1, so the detected encoding is ASCII, yet the tier
    starts with UTF-8, accepts its parse and never attempts ASCII. *)
Lemma structured_tier_ignores_detection :
  App.detect_file_encoding on_comma_file comma_file = Some ASCII
  /\ (App.strategy1 on_comma_file comma_file).1 = [UTF8]
  /\ head (App.strategy1 on_comma_file comma_file).1
     <> App.detect_file_encoding on_comma_file comma_file
  /\ ASCII ∉ (App.strategy1 on_comma_file comma_file).1.
Proof.
  vm_compute. repeat split; try congruence.
  intros H. apply list_elem_of_singleton in H. discriminate H.
Qed.

(** *** Reconciling a line with the header *)
Section Split.
Variable c : char.

Lemma split_cons_ne x s : (x =? c) = false ->
  split c (x :: s) = match split c s with f :: fs => (x :: f) :: fs | [] => [[x]] end.
Proof. intros H. simpl. by rewrite H. Qed.

Lemma split_not_nil s : split c s <> [].
Proof. destruct s as [|x s]; [done|]. simpl. destruct (x =? c); [done|by destruct (split c s)]. Qed.

Lemma length_split s : length (split c s) = S (count c s).
Proof.
  induction s as [|x s IH]; [done|]. rewrite count_cons. simpl.
  rewrite (N.eqb_sym c x). destruct (x =? c); simpl; [by rewrite IH|].
  destruct (split c s); [done|]. simpl in *. lia.
Qed.

Lemma join_split s : join [c] (split c s) = s.
Proof.
  induction s as [|x s IH]; [done|]. simpl. destruct (x =? c) eqn:E.
  - apply N.eqb_eq in E as ->. pose proof (split_not_nil s).
    simpl. destruct (split c s); [done|]. by rewrite IH.
  - pose proof (split_not_nil s). destruct (split c s) as [|f fs]; [done|].
    simpl in *. destruct fs; simpl in *; by rewrite <- IH.
Qed.

Lemma split_parts (P : char -> Prop) s :
  Forall P s -> Forall (fun p => Forall P p /\ Forall (fun x => (x =? c) = false) p) (split c s).
Proof.
  induction 1 as [|x s Hx _ IH]; [by repeat constructor|]. simpl.
  destruct (x =? c) eqn:E; [by repeat constructor|].
  destruct IH as [|f fs [Hf1 Hf2] Hfs]; [by repeat constructor|].
  constructor; [|done]. split; by constructor.
Qed.

Lemma split_replicate n : split c (replicate n c) = replicate (S n) [].
Proof. induction n as [|n IH]; [done|]. simpl. by rewrite N.eqb_refl, IH. Qed.

Lemma split_app_replicate s n :
  split c (s ++ replicate n c) = split c s ++ replicate n [].
Proof.
  induction s as [|x s IH]; [simpl; by rewrite split_replicate|].
  simpl. destruct (x =? c); [by rewrite IH|]. rewrite IH.
  pose proof (split_not_nil s). by destruct (split c s).
Qed.

Lemma join_cons (sep q : str) (qs : list str) :
  qs <> [] -> join sep (q :: qs) = q ++ sep ++ join sep qs.
Proof. by destruct qs. Qed.

Lemma length_join_tail (sep q : str) (qs : list str) :
  (length (join sep qs) <= length (join sep (q :: qs)))%nat.
Proof.
  destruct qs as [|q' qs']; [simpl; lia|].
  rewrite (join_cons sep q (q' :: qs')) by done. rewrite !length_app. lia.
Qed.

Lemma length_join_drop (sep : str) n (parts : list str) :
  (length (join sep (drop n parts)) <= length (join sep parts))%nat.
Proof.
  revert parts. induction n as [|n IH]; intros parts; [by rewrite drop_0|].
  destruct parts as [|q qs]; [done|]. simpl drop.
  etrans; [apply IH|apply length_join_tail].
Qed.

Lemma length_join_elem (sep p : str) (parts : list str) :
  p ∈ parts -> (length p <= length (join sep parts))%nat.
Proof.
  induction parts as [|q qs IH]; intros Hp; [by apply elem_of_nil in Hp|].
  apply elem_of_cons in Hp as [->|Hp].
  - destruct qs; [done|]. rewrite join_cons by done. rewrite length_app. lia.
  - etrans; [by apply IH|apply length_join_tail].
Qed.

Lemma Forall_join (P : char -> Prop) (sep : str) (parts : list str) :
  Forall P sep -> Forall (Forall P) parts -> Forall P (join sep parts).
Proof.
  intros Hsep. induction 1 as [|q qs Hq _ IH]; [constructor|].
  destruct qs; [done|]. rewrite join_cons by done.
  apply Forall_app. split; [done|]. by apply Forall_app.
Qed.
End Split.

Section CsvReader.
Import Csv.

(** Characters that are neither delimiter, quote nor line break
    extend the current field. *)
Lemma feed_chars_field d p s :
  st p = START_FIELD \/ st p = IN_FIELD ->
  s <> [] ->
  Forall (fun x => plain x = true /\ (x =? d) = false) s ->
  short p s ->
  feed_chars d p s = Some {| st := IN_FIELD; field := field p ++ s; fields := fields p |}.
Proof.
  intros Hst Hne Hs. revert p Hst Hne.
  induction Hs as [|x s [Hx Hd] _ IH]; intros p Hst Hne Hshort; [done|]. clear Hne.
  unfold plain in Hx. apply andb_prop in Hx as [Hx Hcr]. apply andb_prop in Hx as [Hq Hlf].
  apply negb_true_iff in Hq, Hlf, Hcr.
  assert (process_char d p (Some x)
          = Some {| st := IN_FIELD; field := field p ++ [x]; fields := fields p |}) as Hstep.
  { unfold short in Hshort. simpl in Hshort.
    assert ((field_limit <=? N.of_nat (length (field p))) = false) as Hlim
      by (apply N.leb_gt; unfold field_limit in *; lia).
    unfold process_char. destruct Hst as [Hst|Hst]; rewrite Hst.
    - unfold start_field, is_newline. rewrite Hlf, Hcr, Hq, Hd. simpl.
      unfold add_char. rewrite Hlim. done.
    - unfold is_newline. rewrite Hlf, Hcr, Hd. simpl.
      unfold add_char. rewrite Hlim, Hst. done. }
  simpl. rewrite Hstep. simpl. destruct s as [|y s']; [done|].
  rewrite IH; [|by right|done|].
  - simpl. by rewrite <- app_assoc.
  - unfold short in *. simpl in *. rewrite length_app. simpl. lia.
Qed.

Lemma feed_chars_app d p s t :
  feed_chars d p (s ++ t) = feed_chars d p s ≫= fun p' => feed_chars d p' t.
Proof.
  revert p. induction s as [|x s IH]; intros p; [done|]. simpl.
  destruct (process_char d p (Some x)); [apply IH|done].
Qed.

Lemma feed_line_chars d p s :
  feed_line d p s = feed_chars d p s ≫= fun p' => process_char d p' None.
Proof.
  revert p. induction s as [|x s IH]; intros p; [done|]. simpl.
  destruct (process_char d p (Some x)); [apply IH|done].
Qed.

(** One unquoted field and the delimiter after it. *)
Lemma feed_chars_part d fs part :
  plain d = true ->
  Forall (fun x => plain x = true /\ (x =? d) = false) part ->
  N.of_nat (length part) < field_limit ->
  feed_chars d {| st := START_FIELD; field := []; fields := fs |} (part ++ [d])
  = Some {| st := START_FIELD; field := []; fields := fs ++ [part] |}.
Proof.
  intros Hd Hp Hlen. unfold plain in Hd.
  apply andb_prop in Hd as [Hd Hcr]. apply andb_prop in Hd as [Hq Hlf].
  apply negb_true_iff in Hq, Hlf, Hcr.
  rewrite feed_chars_app. destruct part as [|x part].
  - simpl. unfold process_char, start_field, is_newline. simpl.
    rewrite Hlf, Hcr, Hq, N.eqb_refl. done.
  - rewrite feed_chars_field; [|by left|done|done|by unfold short].
    simpl. unfold process_char, is_newline. simpl.
    rewrite Hlf, Hcr, N.eqb_refl. done.
Qed.

(** Several unquoted fields, each followed by the delimiter. *)
Lemma feed_chars_parts d fs parts :
  plain d = true ->
  Forall (fun part => Forall (fun x => plain x = true /\ (x =? d) = false) part
                      /\ N.of_nat (length part) < field_limit) parts ->
  feed_chars d {| st := START_FIELD; field := []; fields := fs |}
    (concat ((fun part => part ++ [d]) <$> parts))
  = Some {| st := START_FIELD; field := []; fields := fs ++ parts |}.
Proof.
  intros Hd Hp. revert fs. induction Hp as [|part parts [Hpart Hlen] _ IH]; intros fs.
  - simpl. by rewrite app_nil_r.
  - rewrite fmap_cons. simpl concat. rewrite feed_chars_app.
    rewrite feed_chars_part by done. simpl. rewrite IH. by rewrite <- app_assoc.
Qed.

(** A quoted field at the end of a line: what stands between the
    quotes is one field, delimiters included. *)
Lemma feed_line_quoted d fs body :
  Forall (fun x => (x =? QUOTE) = false) body ->
  N.of_nat (length body) < field_limit ->
  feed_line d {| st := START_FIELD; field := []; fields := fs |} (QUOTE :: body ++ [QUOTE])
  = Some {| st := START_RECORD; field := []; fields := fs ++ [body] |}.
Proof.
  intros Hb Hlen. rewrite feed_line_chars.
  change (QUOTE :: body ++ [QUOTE]) with ([QUOTE] ++ body ++ [QUOTE]).
  rewrite feed_chars_app. simpl feed_chars at 1. unfold process_char at 1.
  simpl. unfold start_field, is_newline. simpl.
  assert (forall cur,
            N.of_nat (length cur + length body) < field_limit ->
            feed_chars d {| st := IN_QUOTED_FIELD; field := cur; fields := fs |} body
            = Some {| st := IN_QUOTED_FIELD; field := cur ++ body; fields := fs |}) as Hq.
  { clear Hlen. induction Hb as [|x body Hx _ IH]; intros cur Hlen.
    - simpl. by rewrite app_nil_r.
    - simpl. unfold process_char. simpl. rewrite Hx. unfold add_char. simpl.
      assert ((field_limit <=? N.of_nat (length cur)) = false) as ->
        by (apply N.leb_gt; simpl in Hlen; unfold field_limit in *; lia).
      simpl. rewrite IH.
      + by rewrite <- app_assoc.
      + rewrite length_app. simpl in *. lia. }
  change (set_state IN_QUOTED_FIELD {| st := START_FIELD; field := []; fields := fs |})
    with {| st := IN_QUOTED_FIELD; field := []; fields := fs |}.
  rewrite feed_chars_app, Hq by done. simpl.
  unfold process_char. simpl. done.
Qed.

(** From the start of a record: unquoted fields, each followed by a
    comma. *)
Lemma feed_chars_from_reset parts :
  parts <> [] ->
  Forall (fun part => Forall (fun x => plain x = true) part
                      /\ Forall (fun x => (x =? COMMA) = false) part
                      /\ N.of_nat (length part) < field_limit) parts ->
  feed_chars COMMA reset (concat ((fun p => p ++ [COMMA]) <$> parts))
  = Some {| st := START_FIELD; field := []; fields := parts |}.
Proof.
  intros Hne Hparts.
  assert (forall s, s <> [] ->
            Forall (fun x => (x =? LF) = false /\ (x =? CR) = false) s ->
            feed_chars COMMA reset s
            = feed_chars COMMA {| st := START_FIELD; field := []; fields := [] |} s) as Hstart.
  { intros [|x s] Hs Hx; [done|]. apply Forall_cons in Hx as [[Hlf Hcr] _].
    simpl. unfold process_char. simpl. by rewrite Hlf, Hcr. }
  rewrite Hstart.
  - rewrite feed_chars_parts; [done|done|].
    eapply Forall_impl; [exact Hparts|]. intros p (Hp1 & Hp2 & Hp3). split; [|done].
    apply Forall_forall. intros z Hz. split.
    + rewrite Forall_forall in Hp1. by apply Hp1.
    + rewrite Forall_forall in Hp2. by apply Hp2.
  - destruct parts as [|p ps]; [done|]. rewrite fmap_cons. simpl. by destruct p.
  - apply Forall_concat, Forall_fmap. eapply Forall_impl; [exact Hparts|].
    intros p (Hp1 & _ & _). simpl. apply Forall_app. split; [|by repeat constructor].
    eapply Forall_impl; [exact Hp1|]. intros x Hx. unfold plain in Hx.
    apply andb_prop in Hx as [Hx Hcr]. apply andb_prop in Hx as [_ Hlf].
    by apply negb_true_iff in Hlf, Hcr.
Qed.

Lemma feed_line_app d p s t :
  feed_line d p (s ++ t) = feed_chars d p s ≫= fun p' => feed_line d p' t.
Proof.
  rewrite !feed_line_chars, feed_chars_app.
  destruct (feed_chars d p s); [|done]. simpl. by rewrite feed_line_chars.
Qed.
End CsvReader.

Section Reconcile.

Lemma join_as_concat (parts : list str) (last : str) :
  join [COMMA] (parts ++ [last]) = concat ((fun p => p ++ [COMMA]) <$> parts) ++ last.
Proof.
  induction parts as [|p parts IH]; [done|].
  rewrite fmap_cons. simpl concat. rewrite <- !app_assoc, <- IH. simpl.
  by destruct (parts ++ [last]) eqn:E; [destruct parts|].
Qed.

Lemma reconcile_pad n line :
  (count COMMA line < n)%nat ->
  App.reconcile n line = line ++ replicate (n - count COMMA line) COMMA
  /\ split COMMA (App.reconcile n line)
     = split COMMA line ++ replicate (n - count COMMA line) []
  /\ length (split COMMA (App.reconcile n line)) = S n.
Proof.
  intros H. unfold App.reconcile. apply Nat.ltb_lt in H as H'. rewrite H'.
  split; [done|]. rewrite split_app_replicate. split; [done|].
  rewrite length_app, length_split, length_replicate. lia.
Qed.

Lemma reconcile_merge n line :
  (n < count COMMA line)%nat ->
  App.reconcile n line
  = join [COMMA] (take n (split COMMA line)) ++ [COMMA; QUOTE]
      ++ join [COMMA] (drop n (split COMMA line)) ++ [QUOTE].
Proof.
  intros H. unfold App.reconcile.
  assert ((count COMMA line <? n)%nat = false) as -> by (apply Nat.ltb_ge; lia).
  apply Nat.ltb_lt in H as H'. rewrite H'. rewrite length_split.
  assert ((n + 1 <? S (count COMMA line))%nat = true) as -> by (apply Nat.ltb_lt; lia).
  done.
Qed.

(** The merged line, read with quotes honoured, has the first [n]
    fields of the line and one more that holds the rest. *)
Lemma reconcile_merge_fields n line :
  (1 <= n)%nat -> (n < count COMMA line)%nat ->
  Forall (fun x => plain x = true) line ->
  N.of_nat (length line) < Csv.field_limit ->
  Csv.reader COMMA [App.reconcile n line]
  = Some [take n (split COMMA line) ++ [join [COMMA] (drop n (split COMMA line))]].
Proof.
  intros Hn Hk Hplain Hlen. rewrite reconcile_merge by done.
  set (parts := split COMMA line).
  assert (Forall (fun p => Forall (fun x => plain x = true) p
                           /\ Forall (fun x => (x =? COMMA) = false) p) parts) as Hparts
    by (by apply split_parts).
  assert (join [COMMA] parts = line) as Hjoin by apply join_split.
  assert (length parts = S (count COMMA line)) as Hlp by apply length_split.
  assert (forall p, p ∈ parts -> (length p <= length line)%nat) as Hshort.
  { intros p Hp. rewrite <- Hjoin. by apply length_join_elem. }
  assert (length (join [COMMA] (drop n parts)) <= length line)%nat as Hbody.
  { rewrite <- Hjoin. apply length_join_drop. }
  assert (Forall (fun x => (x =? QUOTE) = false) (join [COMMA] (drop n parts))) as Hnoq.
  { apply Forall_join; [by repeat constructor|].
    apply Forall_drop. eapply Forall_impl; [exact Hparts|]. intros p [Hp _].
    eapply Forall_impl; [exact Hp|]. intros x Hx. unfold plain in Hx.
    apply andb_prop in Hx as [Hx _]. apply andb_prop in Hx as [Hx _].
    by apply negb_true_iff. }
  destruct (take n parts) as [|p0 front] eqn:Et using rev_ind.
  { apply (f_equal length) in Et. rewrite length_take in Et. simpl in Et. lia. }
  clear IHfront. rename front into first_parts, p0 into last_part.
  assert (Forall (fun p => Forall (fun x => plain x = true) p
                           /\ Forall (fun x => (x =? COMMA) = false) p)
            (first_parts ++ [last_part])) as Hfront.
  { rewrite <- Et. by apply Forall_take. }
  assert (forall p, p ∈ first_parts ++ [last_part] -> (length p <= length line)%nat) as Hfs.
  { intros p Hp. apply Hshort. rewrite <- Et in Hp.
    apply elem_of_take in Hp as (i & Hi & _). by eapply list_elem_of_lookup_2. }
  unfold Csv.reader. simpl Csv.records.
  rewrite join_as_concat.
  replace ((concat ((fun p => p ++ [COMMA]) <$> first_parts) ++ last_part)
             ++ [COMMA; QUOTE] ++ join [COMMA] (drop n parts) ++ [QUOTE])
    with (concat ((fun p => p ++ [COMMA]) <$> (first_parts ++ [last_part]))
            ++ QUOTE :: join [COMMA] (drop n parts) ++ [QUOTE]).
  2:{ rewrite fmap_app, concat_app. simpl. rewrite app_nil_r, <- !app_assoc. done. }
  rewrite feed_line_app.
  rewrite feed_chars_from_reset.
  2:{ intros E. by apply app_eq_nil in E as [_ E]. }
  2:{ apply Forall_forall. intros p Hp. rewrite Forall_forall in Hfront.
      destruct (Hfront p Hp) as [Hp1 Hp2]. split; [done|]. split; [done|].
      specialize (Hfs p Hp). eapply N.le_lt_trans; [|exact Hlen].
      clear -Hfs. unfold char in *. lia. }
  cbn [mbind option_bind].
  rewrite feed_line_quoted; [done|done|].
  eapply N.le_lt_trans; [|exact Hlen]. clear -Hbody. unfold char in *. lia.
Qed.

End Reconcile.

Section PlainLines.

(** A line without quote or line break, not empty, is read as its
    comma-separated pieces. *)
Lemma reader_plain_line line :
  line <> [] ->
  Forall (fun x => plain x = true) line ->
  Forall (fun p : str => N.of_nat (length p) < Csv.field_limit) (split COMMA line) ->
  Csv.reader COMMA [line] = Some [split COMMA line].
Proof.
  intros Hne Hplain Hshort.
  pose proof (split_parts COMMA _ line Hplain) as Hparts.
  pose proof (join_split COMMA line) as Hjoin.
  pose proof (split_not_nil COMMA line) as Hnn.
  destruct (split COMMA line) as [|p0 front] eqn:Es using rev_ind; [done|].
  clear IHfront Hnn. rename front into first_parts, p0 into last_part.
  rewrite join_as_concat in Hjoin. unfold Csv.reader. simpl Csv.records.
  apply Forall_app in Hparts as [Hfirst Hlast]. apply Forall_app in Hshort as [Hs1 Hs2].
  apply Forall_cons in Hlast as [[Hl1 Hl2] _]. apply Forall_cons in Hs2 as [Hs2 _].
  destruct first_parts as [|q qs].
  - (* no comma in the line *)
    simpl in Hjoin. subst last_part. destruct line as [|x rest]; [done|].
    apply Forall_cons in Hl1 as [Hx1 Hr1]. apply Forall_cons in Hl2 as [Hx2 Hr2].
    unfold plain in Hx1. apply andb_prop in Hx1 as [Hx1 Hcr].
    apply andb_prop in Hx1 as [Hq Hlf]. apply negb_true_iff in Hq, Hlf, Hcr.
    rewrite feed_line_chars.
    change (x :: rest) with ([x] ++ rest). rewrite feed_chars_app.
    assert (Csv.feed_chars COMMA Csv.reset [x]
            = Some {| Csv.st := Csv.IN_FIELD; Csv.field := [x]; Csv.fields := [] |}) as ->.
    { simpl. unfold Csv.process_char. simpl. rewrite Hlf, Hcr. simpl.
      unfold Csv.start_field, Csv.is_newline. rewrite Hlf, Hcr, Hq, Hx2. done. }
    cbn [mbind option_bind]. destruct rest as [|y rest'].
    + reflexivity.
    + rewrite feed_chars_field; [reflexivity|by right|done| |].
      * apply Forall_forall. intros z Hz. split.
        -- rewrite Forall_forall in Hr1. by apply Hr1.
        -- rewrite Forall_forall in Hr2. by apply Hr2.
      * unfold Csv.short. simpl in *. unfold char in *. lia.
  - rewrite <- Hjoin, feed_line_app, feed_chars_from_reset; [|done|].
    2:{ apply Forall_forall. intros p Hp.
        rewrite Forall_forall in Hfirst. destruct (Hfirst p Hp) as [Hp1 Hp2].
        rewrite Forall_forall in Hs1. specialize (Hs1 p Hp). done. }
    cbn [mbind option_bind]. rewrite feed_line_chars.
    destruct last_part as [|y rest].
    + reflexivity.
    + rewrite feed_chars_field; [reflexivity|by left|done| |].
      * apply Forall_forall. intros z Hz. split.
        -- rewrite Forall_forall in Hl1. by apply Hl1.
        -- rewrite Forall_forall in Hl2. by apply Hl2.
      * unfold Csv.short. simpl in *. unfold char in *. lia.
Qed.

Lemma fix_line_reconcile n line : CsvFixer.fix_line n line = App.reconcile n line.
Proof.
  unfold CsvFixer.fix_line, App.reconcile.
  destruct (n <? count COMMA line)%nat eqn:E1;
    destruct (count COMMA line <? n)%nat eqn:E2; try done.
  apply Nat.ltb_lt in E1, E2. lia.
Qed.

End PlainLines.

(** C5, as amended.  For a header with [n >= 1] commas and a data line
    without quote characters of its own, both cleaning passes rebuild
    the line so that a quote-aware reader sees exactly [n + 1] fields:
    a line with fewer commas gets its missing commas appended, which
    are empty trailing fields; a line with more commas keeps its first
    [n] fields, and the fields after them are joined by commas inside
    one pair of quotes, as the last field. *)
Theorem delimiter_reconciliation (n : nat) (line : str) :
  (1 <= n)%nat ->
  Forall (fun x => plain x = true) line ->
  N.of_nat (length line) < Csv.field_limit ->
  CsvFixer.fix_line n line = App.reconcile n line
  /\ exists fields,
      Csv.reader COMMA [App.reconcile n line] = Some [fields]
      /\ length fields = S n
      /\ ((count COMMA line < n)%nat ->
          App.reconcile n line = line ++ replicate (n - count COMMA line) COMMA
          /\ fields = split COMMA line ++ replicate (n - count COMMA line) [])
      /\ (count COMMA line = n -> App.reconcile n line = line /\ fields = split COMMA line)
      /\ ((n < count COMMA line)%nat ->
          fields = take n (split COMMA line) ++ [join [COMMA] (drop n (split COMMA line))]).
Proof.
  intros Hn Hplain Hlen. split; [apply fix_line_reconcile|].
  assert (forall p, p ∈ split COMMA line -> N.of_nat (length p) < Csv.field_limit) as Hparts.
  { intros p Hp. eapply N.le_lt_trans; [|exact Hlen].
    pose proof (length_join_elem [COMMA] p _ Hp) as H. rewrite join_split in H.
    clear -H. unfold char in *. lia. }
  destruct (Nat.lt_trichotomy (count COMMA line) n) as [Hk|[Hk|Hk]].
  - destruct (reconcile_pad n line Hk) as (Hr & Hs & Hl).
    exists (split COMMA line ++ replicate (n - count COMMA line) []).
    split; [|split; [by rewrite <- Hs|split; [done|split; intros; lia]]].
    rewrite <- Hs. apply reader_plain_line.
    + rewrite Hr. intros E. apply app_eq_nil in E as [_ E].
      destruct (n - count COMMA line)%nat eqn:En; [lia|done].
    + rewrite Hr. apply Forall_app. split; [done|]. by apply Forall_replicate.
    + rewrite Hs. apply Forall_app. split; [by apply Forall_forall|].
      by apply Forall_replicate.
  - assert (App.reconcile n line = line) as Hr.
    { unfold App.reconcile. rewrite Hk, Nat.ltb_irrefl. done. }
    exists (split COMMA line). rewrite Hr.
    split; [|split; [by rewrite length_split, Hk|split; [intros; lia|split; [done|intros; lia]]]].
    apply reader_plain_line; [|done|by apply Forall_forall].
    intros ->. unfold count in Hk. simpl in Hk. lia.
  - eexists. split; [by apply reconcile_merge_fields|].
    split; [|split; [intros; lia|split; [intros; lia|done]]].
    rewrite length_app, length_take, length_split. simpl. lia.
Qed.

Lemma delimiter_reconciliation_witness :
  App.clean_csv_content scenario_b = u"a,b,c" ++ [LF] ++ u"1,2," ++ [QUOTE] ++ u"3,4,5" ++ [QUOTE]
  /\ Csv.reader COMMA [App.reconcile 2 (u"1,2,3,4,5")] = Some [[u"1"; u"2"; u"3,4,5"]].
Proof.
  split; [vm_compute; reflexivity|].
  assert (Forall (fun x => plain x = true) (u"1,2,3,4,5")) as Hp
    by (vm_compute; repeat constructor).
  assert (N.of_nat (length (u"1,2,3,4,5")) < Csv.field_limit) as Hl by (vm_compute; reflexivity).
  destruct (delimiter_reconciliation 2 (u"1,2,3,4,5") ltac:(lia) Hp Hl)
    as (_ & fields & Hr & _ & _ & _ & Hf).
  rewrite Hr, (Hf ltac:(vm_compute; lia)). reflexivity.
Defined.

(** C5 as stated fails in two ways.  A header without comma: the line
    [1,2] becomes an empty field followed by the quoted field [1,2],
    two fields under a header of one.  A line with a quoted field of
    its own: the pieces are cut at the commas inside the quotes, and
    the line is read as three fields under a header of two. *)
Lemma reconciliation_misses :
  App.clean_csv_content (u"a" ++ [LF] ++ u"1,2") = u"a" ++ [LF; COMMA; QUOTE] ++ u"1,2" ++ [QUOTE]
  /\ Csv.reader COMMA [App.reconcile 0 (u"1,2")] = Some [[[]; u"1,2"]]
  /\ Csv.reader COMMA [u"a"] = Some [[u"a"]]
  /\ Csv.reader COMMA [App.reconcile 1 ([QUOTE] ++ u"p,q" ++ [QUOTE] ++ u",2,3")]
     = Some [[u"p,q" ++ [QUOTE]; u"2"; u"3" ++ [QUOTE]]]
  /\ CsvFixer.fix_line 0 (u"1,2") = App.reconcile 0 (u"1,2").
Proof. vm_compute. repeat split; reflexivity. Qed.

(** *** Sparse columns *)
Section Sparse.

Lemma Qgt_bool_mono q t1 t2 :
  (t1 <= t2)%Q -> Qgt_bool q t2 = true -> Qgt_bool q t1 = true.
Proof.
  unfold Qgt_bool. intros H H2. apply negb_true_iff in H2. apply negb_true_iff.
  destruct (Qle_bool q t1) eqn:E; [|done].
  apply Qle_bool_iff in E. assert (Qle_bool q t2 = true) as E2.
  { apply Qle_bool_iff. by eapply Qle_trans. }
  congruence.
Qed.

Lemma exceeds_mono p t1 t2 :
  (t1 <= t2)%Q ->
  SimpleCleaner.exceeds p t2 = true -> SimpleCleaner.exceeds p t1 = true.
Proof. destruct p as [q|]; [apply Qgt_bool_mono|done]. Qed.

Lemma cols_to_drop_mono t1 t2 d l :
  (t1 <= t2)%Q ->
  l ∈ SimpleCleaner.cols_to_drop t2 d -> l ∈ SimpleCleaner.cols_to_drop t1 d.
Proof.
  intros H Hl. unfold SimpleCleaner.cols_to_drop in *.
  apply list_elem_of_fmap in Hl as (c & -> & Hc). apply list_elem_of_fmap_2.
  apply list_elem_of_In, filter_In in Hc as [Hc He].
  apply list_elem_of_In, filter_In. split; [done|]. by eapply exceeds_mono.
Qed.

(** The columns that stay: those whose label is not to be dropped. *)
Lemma drop_sparse_at_cols t d :
  cols (SimpleCleaner.drop_sparse_at t d)
  = if Qlt_bool t 1
    then List.filter (fun c => negb (bool_decide (name c ∈ SimpleCleaner.cols_to_drop t d)))
           (cols d)
    else cols d.
Proof.
  unfold SimpleCleaner.drop_sparse_at. destruct (Qlt_bool t 1); [|done].
  destruct (SimpleCleaner.cols_to_drop t d) as [|l ls] eqn:E; [|done].
  symmetry. apply forallb_filter_id, forallb_forall. intros c _.
  apply negb_true_iff, bool_decide_eq_false. apply not_elem_of_nil.
Qed.

Lemma null_count_le {A} (l : list (option A)) : (Stats.null_count l <= length l)%nat.
Proof. unfold Stats.null_count. apply filter_length_le. Qed.

(** On a well-formed frame no missing fraction exceeds 1. *)
Lemma exceeds_one d c t :
  wf d -> c ∈ cols d -> (1 <= t)%Q ->
  SimpleCleaner.exceeds (SimpleCleaner.missing_percent d c) t = false.
Proof.
  intros Hwf Hc Ht. unfold SimpleCleaner.missing_percent.
  destruct (nrows d =? 0)%nat eqn:E; [done|]. apply Nat.eqb_neq in E.
  simpl. unfold Qgt_bool. apply negb_false_iff, Qle_bool_iff.
  eapply Qle_trans; [|exact Ht].
  unfold wf in Hwf. rewrite Forall_forall in Hwf. specialize (Hwf c Hc).
  assert (SimpleCleaner.series_null_count c <= nrows d)%nat as Hle.
  { rewrite <- Hwf. unfold SimpleCleaner.series_null_count, size.
    destruct (data c); apply null_count_le. }
  unfold Qle. simpl. rewrite Z.mul_1_r, Z.mul_1_l.
  assert (Z.pos (Pos.of_nat (nrows d)) = Z.of_nat (nrows d)) as -> by lia.
  lia.
Qed.

Lemma cols_to_drop_one d t :
  wf d -> (1 <= t)%Q -> SimpleCleaner.cols_to_drop t d = [].
Proof.
  intros Hwf Ht. unfold SimpleCleaner.cols_to_drop.
  assert (List.filter
            (fun c => SimpleCleaner.exceeds (SimpleCleaner.missing_percent d c) t) (cols d)
          = []) as ->; [|done].
  destruct (List.filter _ (cols d)) as [|c cs] eqn:E; [done|].
  assert (In c (List.filter
                  (fun c => SimpleCleaner.exceeds (SimpleCleaner.missing_percent d c) t)
                  (cols d))) as Hin by (rewrite E; left; done).
  apply filter_In in Hin as [Hin He]. apply list_elem_of_In in Hin.
  by rewrite exceeds_one in He.
Qed.

Lemma filter_length_mono {A} (P Q : A -> bool) (l : list A) :
  (forall x, P x = true -> Q x = true) ->
  (length (List.filter P l) <= length (List.filter Q l))%nat.
Proof.
  intros H. induction l as [|x l IH]; [done|]. simpl.
  destruct (P x) eqn:E; [rewrite (H x E); simpl; lia|].
  destruct (Q x); simpl; lia.
Qed.

(** Both cleaners drop the same columns on a well-formed frame. *)
Lemma data_drop_sparse_at t d :
  wf d -> DataCleaner.drop_sparse_at t d = SimpleCleaner.drop_sparse_at t d.
Proof.
  intros Hwf. unfold SimpleCleaner.drop_sparse_at, DataCleaner.drop_sparse_at.
  change (DataCleaner.cols_to_drop t d) with (SimpleCleaner.cols_to_drop t d).
  unfold Qlt_bool. destruct (Qle_bool 1 t) eqn:E; [|done]. simpl.
  apply Qle_bool_iff in E. by rewrite cols_to_drop_one.
Qed.

End Sparse.

(** C8: what stage 2 drops.  With thresholds [t1 <= t2] in [0,1],
    every column that the stage keeps at [t1] it keeps at [t2], so it
    drops at [t2] a subset of what it drops at [t1] and never more
    columns.  The stage drops by label: a column goes exactly when a
    column of its name, itself included, has a missing fraction
    strictly above the threshold, so a column that misses nothing goes
    with a namesake that misses too much, against the stage's comment
    (drop columns with too many missing values).  When the names are
    distinct a column goes exactly when its own fraction is above the
    threshold.  This holds for both cleaners. *)
Theorem threshold_monotone (d : DataFrame) (t1 t2 : Q) :
  wf d -> (0 <= t1)%Q -> (t1 <= t2)%Q -> (t2 <= 1)%Q ->
  (forall c, c ∈ cols (SimpleCleaner.drop_sparse_at t1 d) ->
             c ∈ cols (SimpleCleaner.drop_sparse_at t2 d))
  /\ (length (cols d) - length (cols (SimpleCleaner.drop_sparse_at t2 d))
      <= length (cols d) - length (cols (SimpleCleaner.drop_sparse_at t1 d)))%nat
  /\ (forall t c, (t <= 1)%Q -> c ∈ cols d ->
        (c ∈ cols (SimpleCleaner.drop_sparse_at t d) <->
         ~ exists c', c' ∈ cols d /\ name c' = name c
                      /\ SimpleCleaner.exceeds (SimpleCleaner.missing_percent d c') t = true))
  /\ (forall t c, NoDup (columns d) -> (t <= 1)%Q -> c ∈ cols d ->
        (c ∈ cols (SimpleCleaner.drop_sparse_at t d) <->
         SimpleCleaner.exceeds (SimpleCleaner.missing_percent d c) t = false))
  /\ (forall t, DataCleaner.drop_sparse_at t d = SimpleCleaner.drop_sparse_at t d).
Proof.
  intros Hwf H0 H12 H2.
  assert (forall t c, c ∈ cols d ->
            (c ∈ cols (SimpleCleaner.drop_sparse_at t d) <->
             ~ exists c', c' ∈ cols d /\ name c' = name c
                          /\ SimpleCleaner.exceeds (SimpleCleaner.missing_percent d c') t = true))
    as Hchar.
  { intros t c Hc. rewrite drop_sparse_at_cols. unfold Qlt_bool.
    destruct (Qle_bool 1 t) eqn:E; simpl.
    - apply Qle_bool_iff in E. split; [|done]. intros _ (c' & Hc' & _ & He).
      by rewrite exceeds_one in He.
    - rewrite list_elem_of_In, filter_In, <- list_elem_of_In.
      rewrite negb_true_iff, bool_decide_eq_false.
      unfold SimpleCleaner.cols_to_drop. rewrite list_elem_of_fmap.
      split.
      + intros [_ Hn] (c' & Hc' & Hname & He). apply Hn. exists c'. split; [done|].
        apply list_elem_of_In, filter_In. split; [by apply list_elem_of_In|done].
      + intros Hn. split; [done|]. intros (c' & Hname & Hc'). apply Hn.
        apply list_elem_of_In, filter_In in Hc' as [Hc' He].
        exists c'. split; [by apply list_elem_of_In|done]. }
  assert (forall c, c ∈ cols (SimpleCleaner.drop_sparse_at t1 d) ->
                    c ∈ cols (SimpleCleaner.drop_sparse_at t2 d)) as Hsub.
  { intros c Hc.
    assert (c ∈ cols d) as Hin.
    { rewrite drop_sparse_at_cols in Hc. destruct (Qlt_bool t1 1); [|done].
      apply list_elem_of_In, filter_In in Hc as [Hc _]. by apply list_elem_of_In. }
    apply Hchar; [done|]. apply (Hchar t1 c Hin) in Hc.
    intros (c' & Hc' & Hname & He). apply Hc. exists c'. split; [done|]. split; [done|].
    by eapply exceeds_mono. }
  split; [exact Hsub|]. split; [|split; [|split]].
  - assert (length (cols (SimpleCleaner.drop_sparse_at t1 d))
            <= length (cols (SimpleCleaner.drop_sparse_at t2 d)))%nat; [|lia].
    rewrite !drop_sparse_at_cols. unfold Qlt_bool.
    destruct (Qle_bool 1 t2) eqn:E2; destruct (Qle_bool 1 t1) eqn:E1; simpl.
    + done.
    + apply filter_length_le.
    + apply Qle_bool_iff in E1. assert (Qle_bool 1 t2 = true) as E.
      { apply Qle_bool_iff. by eapply Qle_trans. } congruence.
    + apply filter_length_mono. intros c Hc.
      apply negb_true_iff, bool_decide_eq_false in Hc.
      apply negb_true_iff, bool_decide_eq_false. intros Hl. apply Hc.
      by eapply cols_to_drop_mono.
  - intros t c _ Hc. by apply Hchar.
  - intros t c Hnd _ Hc. rewrite (Hchar t c Hc). split.
    + intros Hn. destruct (SimpleCleaner.exceeds _ t) eqn:E; [|done].
      exfalso. apply Hn. by exists c.
    + intros He (c' & Hc' & Hname & He').
      assert (c' = c) as ->; [|congruence].
      apply list_elem_of_lookup in Hc as [i Hi]. apply list_elem_of_lookup in Hc' as [j Hj].
      assert (i = j) as ->; [|congruence].
      eapply NoDup_lookup; [exact Hnd| |].
      * unfold columns. rewrite list_lookup_fmap, Hi. reflexivity.
      * unfold columns. rewrite list_lookup_fmap, Hj. simpl. by rewrite Hname.
  - intros t. by apply data_drop_sparse_at.
Qed.

(** The headers [A] and [a] both normalise to [a]: the second column
    misses nothing and is dropped with the first, which misses all. *)
Lemma threshold_monotone_witness :
  let d := SimpleCleaner.rename_columns ucd_excerpt twin_frame in
  let c := {| name := Lstr u"a"; data := NumCol [Some (Fin 1); Some (Fin 2)] |} in
  cols d !! 1%nat = Some c
  /\ SimpleCleaner.exceeds (SimpleCleaner.missing_percent d c) (1 # 2) = false
  /\ (c ∉ cols (SimpleCleaner.drop_sparse_at (1 # 2) d))
  /\ (length (cols d) - length (cols (SimpleCleaner.drop_sparse_at (1 # 2) d))
      <= length (cols d) - length (cols (SimpleCleaner.drop_sparse_at (1 # 5) d)))%nat.
Proof.
  intros d c.
  assert (wf d) as Hwf by (repeat constructor).
  destruct (threshold_monotone d (1 # 5) (1 # 2) Hwf) as (_ & Hcount & Hchar & _);
    [done|done|done|].
  split; [reflexivity|]. split; [reflexivity|]. split; [|exact Hcount].
  intros Hin. apply (Hchar (1 # 2) c) in Hin; [|done|].
  - apply Hin. exists {| name := Lstr u"a"; data := NumCol [None; None] |}.
    split; [|split; reflexivity].
    apply (list_elem_of_lookup_2 _ 0%nat). reflexivity.
  - apply (list_elem_of_lookup_2 _ 1%nat). reflexivity.
Defined.

(** Stage 2 on columns that share a name: the headers [A] and [a]
    both normalise to [a]; the first column is all missing, and
    dropping its label takes the second column with it, whose missing
    fraction is 0. *)
Lemma drop_takes_namesake :
  (fun c => SimpleCleaner.missing_percent twin_frame c)
    <$> cols (SimpleCleaner.rename_columns ucd_excerpt twin_frame)
  = [Some (2 # 2); Some (0 # 2)]
  /\ SimpleCleaner.cols_to_drop (1 # 2) (SimpleCleaner.rename_columns ucd_excerpt twin_frame)
     = [Lstr u"a"]
  /\ cols (SimpleCleaner.drop_sparse_at (1 # 2)
             (SimpleCleaner.rename_columns ucd_excerpt twin_frame)) = []
  /\ SimpleCleaner.exceeds (Some (0 # 2)) (1 # 2) = false.
Proof. vm_compute. repeat split; reflexivity. Qed.

(** *** Filling missing values *)
Section Fill.

(** [fillna]: present cells stay, missing cells take the value. *)
Lemma fillna_lookup {A} (v : option A) (l : list (option A)) i :
  Stats.fillna v l !! i = (fun x => match x with Some _ => x | None => v end) <$> l !! i.
Proof. unfold Stats.fillna. by rewrite list_lookup_fmap. Qed.

Lemma fillna_present {A} (v : option A) (l : list (option A)) i x :
  l !! i = Some (Some x) -> Stats.fillna v l !! i = Some (Some x).
Proof. intros H. by rewrite fillna_lookup, H. Qed.

Lemma fillna_missing {A} (v : option A) (l : list (option A)) i :
  l !! i = Some None -> Stats.fillna v l !! i = Some v.
Proof. intros H. by rewrite fillna_lookup, H. Qed.

Lemma null_count_fillna {A} (v : A) (l : list (option A)) :
  Stats.null_count (Stats.fillna (Some v) l) = 0%nat.
Proof.
  unfold Stats.null_count, Stats.fillna. induction l as [|x l IH]; [done|].
  rewrite fmap_cons. simpl. destruct x; simpl; exact IH.
Qed.

(** Dropping columns keeps distinct names distinct. *)
Lemma NoDup_names_filter (f : series -> bool) (l : list series) :
  NoDup (name <$> l) -> NoDup (name <$> List.filter f l).
Proof.
  induction l as [|c l IH]; [done|]. rewrite fmap_cons, NoDup_cons. intros [Hc Hl].
  simpl. destruct (f c); [|by apply IH].
  rewrite fmap_cons. apply NoDup_cons. split; [|by apply IH].
  intros Hin. apply Hc. apply list_elem_of_fmap in Hin as (c' & -> & Hin).
  apply list_elem_of_fmap_2. apply list_elem_of_In, filter_In in Hin as [Hin _].
  by apply list_elem_of_In.
Qed.

Lemma simple_drop_sparse_NoDup o d :
  NoDup (columns d) -> NoDup (columns (SimpleCleaner.drop_sparse o d)).
Proof.
  unfold SimpleCleaner.drop_sparse, SimpleCleaner.drop_sparse_at, columns. intros H.
  destruct (Qlt_bool _ 1); [|done].
  destruct (SimpleCleaner.cols_to_drop _ d); [done|].
  by apply NoDup_names_filter.
Qed.

Lemma data_drop_sparse_NoDup o d :
  NoDup (columns d) -> NoDup (columns (DataCleaner.drop_sparse o d)).
Proof.
  unfold DataCleaner.drop_sparse, DataCleaner.drop_sparse_at, columns. intros H.
  destruct (DataCleaner.cols_to_drop _ d); [done|].
  by apply NoDup_names_filter.
Qed.

End Fill.

(** C2, as amended.  The missing-value stage of [clean_data] runs on
    the frame that sparse-column elimination leaves: of the normalised
    table in [simple_cleaner], of the loaded table in [data_cleaner].
    The names of that frame are distinct whenever those of the
    normalised table (of the loaded table, in [data_cleaner]) are;
    when they are distinct the stage raises nothing and fills every
    column on its own, and [simple_cleaner.clean_data] returns; when
    they are not, [clean_data] raises.  A column with a missing cell is
    treated as follows.  In [simple_cleaner] the option
    [handle_missing] is not read: a numeric column is filled with its
    median, another column with the string [Unknown].  In
    [data_cleaner] a numeric column is filled with its mean under
    [mean], its median under [median], [auto] or any other value, and
    its mode under [mode]; a column that is not numeric is filled with
    [Unknown], except under [mode], where it is filled with its own
    mode when it has one.  Cells that are present are left as they
    are. *)
Theorem missing_value_policy (U : unicode_data) (now : str)
    (sc : SimpleCleaner.cleaner) (dc : DataCleaner.cleaner) :
  let s1 := SimpleCleaner.drop_sparse (SimpleCleaner.opts sc)
              (SimpleCleaner.rename_columns U (SimpleCleaner.df sc)) in
  let s2 := DataCleaner.drop_sparse (DataCleaner.opts dc) (DataCleaner.df dc) in
  let method := default u"auto" (DataCleaner.handle_missing (DataCleaner.opts dc)) in
  (is_empty (SimpleCleaner.df sc) = false ->
     (NoDup (columns (SimpleCleaner.rename_columns U (SimpleCleaner.df sc))) ->
        NoDup (columns s1))
     /\ (NoDup (columns s1) ->
           SimpleCleaner.fill_missing s1
             = Some {| nrows := nrows s1; cols := SimpleCleaner.fill_series <$> cols s1 |}
           /\ is_Some (SimpleCleaner.clean_data U now sc))
     /\ (~ NoDup (columns s1) -> SimpleCleaner.clean_data U now sc = None))
  /\ ((NoDup (columns (DataCleaner.df dc)) -> NoDup (columns s2))
      /\ (NoDup (columns s2) ->
            DataCleaner.fill_missing (DataCleaner.opts dc) s2
              = Some {| nrows := nrows s2;
                        cols := DataCleaner.fill_series method <$> cols s2 |})
      /\ (~ NoDup (columns s2) -> DataCleaner.clean_data U now dc = None))
  /\ (forall c l, data c = NumCol l -> (0 < Stats.null_count l)%nat ->
        SimpleCleaner.fill_series c
          = {| name := name c; data := NumCol (Stats.fillna (Stats.median l) l) |}
        /\ (method = u"mean" ->
            DataCleaner.fill_series method c
              = {| name := name c; data := NumCol (Stats.fillna (Stats.mean l) l) |})
        /\ (method <> u"mean" -> method <> u"mode" ->
            DataCleaner.fill_series method c
              = {| name := name c; data := NumCol (Stats.fillna (Stats.median l) l) |})
        /\ (method = u"mode" -> forall m,
            Stats.mode_first num_leb num_eqb l = Some m ->
            DataCleaner.fill_series method c
              = {| name := name c; data := NumCol (Stats.fillna (Some m) l) |}))
  /\ (forall c l, data c = ObjCol l -> (0 < Stats.null_count l)%nat ->
        SimpleCleaner.fill_series c
          = {| name := name c; data := ObjCol (Stats.fillna (Some u"Unknown") l) |}
        /\ (method <> u"mode" ->
            DataCleaner.fill_series method c
              = {| name := name c; data := ObjCol (Stats.fillna (Some u"Unknown") l) |})
        /\ (method = u"mode" ->
            DataCleaner.fill_series method c
              = {| name := name c;
                   data := ObjCol (Stats.fillna
                                     (Some (default u"Unknown"
                                              (Stats.mode_first Stats.str_leb Stats.str_eqb l)))
                                     l) |}))
  /\ (forall c, SimpleCleaner.series_null_count c = 0%nat ->
        SimpleCleaner.fill_series c = c /\ DataCleaner.fill_series method c = c).
Proof.
  intros s1 s2 method. split; [|split; [|split; [|split]]].
  - intros Hne. split; [apply simple_drop_sparse_NoDup|]. split.
    + intros Hnd.
      assert (SimpleCleaner.fill_missing s1
              = Some {| nrows := nrows s1; cols := SimpleCleaner.fill_series <$> cols s1 |}) as Hf.
      { unfold SimpleCleaner.fill_missing. by rewrite (bool_decide_eq_true_2 _ Hnd). }
      split; [exact Hf|]. unfold SimpleCleaner.clean_data. rewrite Hne.
      fold s1. rewrite Hf. cbn [mbind option_bind]. eauto.
    + intros Hnd. unfold SimpleCleaner.clean_data. rewrite Hne. fold s1.
      unfold SimpleCleaner.fill_missing. by rewrite (bool_decide_eq_false_2 _ Hnd).
  - split; [apply data_drop_sparse_NoDup|]. split.
    + intros Hnd. unfold DataCleaner.fill_missing. by rewrite (bool_decide_eq_true_2 _ Hnd).
    + intros Hnd. unfold DataCleaner.clean_data. fold s2.
      unfold DataCleaner.fill_missing. by rewrite (bool_decide_eq_false_2 _ Hnd).
  - intros c l Hc Hn. apply Nat.ltb_lt in Hn.
    unfold SimpleCleaner.fill_series, DataCleaner.fill_series. rewrite Hc, Hn.
    split; [done|]. split; [|split].
    + intros E. by rewrite (bool_decide_eq_true_2 _ E).
    + intros H1 H2. rewrite (bool_decide_eq_false_2 _ H1), (bool_decide_eq_false_2 _ H2).
      by destruct (bool_decide (method = u"median")).
    + intros E m Hm. rewrite E, Hm. reflexivity.
  - intros c l Hc Hn. apply Nat.ltb_lt in Hn.
    unfold SimpleCleaner.fill_series, DataCleaner.fill_series. rewrite Hc, Hn.
    split; [done|]. split.
    + intros H. by rewrite (bool_decide_eq_false_2 _ H).
    + intros E. rewrite (bool_decide_eq_true_2 _ E).
      by destruct (Stats.mode_first Stats.str_leb Stats.str_eqb l).
  - intros c Hc. unfold SimpleCleaner.fill_series, DataCleaner.fill_series.
    unfold SimpleCleaner.series_null_count in Hc. destruct (data c); by rewrite Hc.
Qed.

(** Both cleaners on the frame with two holes, asked for the mean:
    the first fills the numeric column with the median 2, the second
    with the mean 3. *)
Lemma missing_value_policy_witness :
  SimpleCleaner.fill_missing
    (SimpleCleaner.drop_sparse (SimpleCleaner.opts (holes_cleaner "mean"))
       (SimpleCleaner.rename_columns ucd_excerpt holes_frame))
  = Some {| nrows := 4;
            cols := [ {| name := Lstr u"x";
                         data := NumCol [Some (Fin 1); Some (Fin 2); Some (Fin 6); Some (Fin 2)] |};
                      {| name := Lstr u"t";
                         data := ObjCol [Some u"p"; Some u"Unknown"; Some u"p"; Some u"q"] |} ] |}
  /\ is_Some (SimpleCleaner.clean_data ucd_excerpt u"now" (holes_cleaner "mean"))
  /\ DataCleaner.fill_missing (data_options "mean")
       (DataCleaner.drop_sparse (data_options "mean") holes_frame)
     = Some {| nrows := 4;
               cols := [ {| name := Lstr u"x";
                            data := NumCol [Some (Fin 1); Some (Fin 2); Some (Fin 6); Some (Fin 3)] |};
                         {| name := Lstr u"t";
                            data := ObjCol [Some u"p"; Some u"Unknown"; Some u"p"; Some u"q"] |} ] |}.
Proof.
  destruct (missing_value_policy ucd_excerpt u"now" (holes_cleaner "mean")
              (data_holes_cleaner "mean")) as (Hs & (Hd1 & Hd2 & _) & _).
  destruct (Hs eq_refl) as (Hs1 & Hs2 & _).
  assert (NoDup (columns (SimpleCleaner.rename_columns ucd_excerpt holes_frame))) as Hnd1.
  { apply (bool_decide_unpack _). vm_compute. exact I. }
  assert (NoDup (columns holes_frame)) as Hnd2.
  { apply (bool_decide_unpack _). vm_compute. exact I. }
  destruct (Hs2 (Hs1 Hnd1)) as [Hfill Hsome].
  split; [|split].
  - etransitivity; [exact Hfill|]. vm_compute. reflexivity.
  - exact Hsome.
  - etransitivity; [exact (Hd2 (Hd1 Hnd2))|]. vm_compute. reflexivity.
Defined.

(** C2 as stated fails in both cleaners.  In [simple_cleaner], asked
    for the mean, the numeric column 1, 2, 6 is filled with its median
    2, not its mean 3.  In [data_cleaner], asked for the mode, the text
    column is filled with its mode [p], not with [Unknown]. *)
Lemma fill_ignores_claimed_policy :
  Stats.mean [Some (Fin 1); Some (Fin 2); Some (Fin 6); None] = Some (Fin 3)
  /\ Stats.median [Some (Fin 1); Some (Fin 2); Some (Fin 6); None] = Some (Fin 2)
  /\ (cols ∘ SimpleCleaner.df) <$> SimpleCleaner.clean_data ucd_excerpt u"now" (holes_cleaner "mean")
     = Some [ {| name := Lstr u"x";
                 data := NumCol [Some (Fin 1); Some (Fin 2); Some (Fin 6); Some (Fin 2)] |};
              {| name := Lstr u"t";
                 data := ObjCol [Some u"p"; Some u"Unknown"; Some u"p"; Some u"q"] |} ]
  /\ cols <$> DataCleaner.fill_missing (data_options "mode") holes_frame
     = Some [ {| name := Lstr u"x";
                 data := NumCol [Some (Fin 1); Some (Fin 2); Some (Fin 6); Some (Fin 1)] |};
              {| name := Lstr u"t";
                 data := ObjCol [Some u"p"; Some u"p"; Some u"p"; Some u"q"] |} ].
Proof. vm_compute. repeat split; reflexivity. Qed.

(** *** The empty table *)

(** C6.  A cleaner whose loaded table is empty carries the empty frame
    and an empty report; [clean_data] then returns at once, without
    raising: it leaves the frame alone, and its report has the single
    field [error], with the value [Empty DataFrame]: no row or column
    count, no removal counter, no timestamp. *)
Theorem empty_table_report (L : SimpleCleaner.library) (ext : SimpleCleaner.extension)
    (f : file) (o : SimpleCleaner.options) (U : unicode_data) (now : str)
    (c : SimpleCleaner.cleaner) :
  SimpleCleaner._load_data L ext f o = Some c ->
  is_empty (SimpleCleaner.df c) = true ->
  exists c',
    SimpleCleaner.clean_data U now c = Some c'
    /\ SimpleCleaner.report c' = {[ "error" := SimpleCleaner.RStr u"Empty DataFrame" ]}
    /\ dom (SimpleCleaner.report c') = {[ "error" ]}
    /\ SimpleCleaner.df c' = empty_frame.
Proof.
  intros Hload Hempty. unfold SimpleCleaner._load_data in Hload.
  destruct (match ext with
            | SimpleCleaner.Csv | SimpleCleaner.OtherExtension =>
                Some (SimpleCleaner._read_csv_robustly L f)
            | SimpleCleaner.Excel => SimpleCleaner.pd_read_excel L f
            | SimpleCleaner.Json => SimpleCleaner.pd_read_json L f
            end) as [d|]; [|done].
  simpl in Hload. injection Hload as <-.
  destruct (is_empty d) eqn:E; simpl in *.
  - eexists. split; [reflexivity|]. simpl.
    split; [apply insert_empty|]. split; [|done].
    rewrite insert_empty. apply dom_singleton_L.
  - congruence.
Qed.

Lemma empty_table_report_witness :
  exists c c',
    SimpleCleaner._load_data simple_on_empty_file SimpleCleaner.Csv empty_file
      SimpleCleaner.no_options = Some c
    /\ SimpleCleaner.clean_data ucd_excerpt u"2024-01-01T00:00:00" c = Some c'
    /\ SimpleCleaner.report c' = {[ "error" := SimpleCleaner.RStr u"Empty DataFrame" ]}.
Proof.
  eexists. 
  destruct (empty_table_report simple_on_empty_file SimpleCleaner.Csv empty_file
              SimpleCleaner.no_options ucd_excerpt u"2024-01-01T00:00:00" _ eq_refl eq_refl)
    as (c' & Hc & Hr & _).
  exists c'. split; [reflexivity|]. split; [exact Hc|exact Hr].
Defined.

(** *** Temporary files *)
Section TempFiles.

Lemma temp_name_fresh (d : gmap CsvFixer.path str) : d !! CsvFixer.temp_name d = None.
Proof.
  apply not_elem_of_dom. unfold CsvFixer.temp_name. apply fresh_string_of_set_fresh.
Qed.

End TempFiles.

(** C7: what [smart_read_csv] leaves on disk.  When pandas reads the
    repaired copy, the copy is deleted and the disk is as before.  When
    pandas refuses both the file and the repaired copy, the function
    falls back to the manual parse and returns with the copy still on
    disk: a path that was free before the call now holds the repaired
    text. *)
Theorem smart_read_csv_keeps_temp_file (L : CsvFixer.library) (d : gmap CsvFixer.path str)
    (filepath : CsvFixer.path) (content : str) :
  d !! filepath = Some content ->
  CsvFixer.pd_read_csv L content = None ->
  (forall frame, CsvFixer.pd_read_csv L (CsvFixer.fixed_content content) = Some frame ->
     CsvFixer.smart_read_csv L d filepath = (d, Some frame))
  /\ (CsvFixer.pd_read_csv L (CsvFixer.fixed_content content) = None ->
      d !! CsvFixer.temp_name d = None
      /\ (CsvFixer.smart_read_csv L d filepath).1
         = <[CsvFixer.temp_name d := CsvFixer.fixed_content content]> d
      /\ (CsvFixer.smart_read_csv L d filepath).1 !! CsvFixer.temp_name d
         = Some (CsvFixer.fixed_content content)
      /\ (CsvFixer.smart_read_csv L d filepath).2
         = CsvFixer.manual_csv_parse d filepath).
Proof.
  intros Hd Hp. pose proof (temp_name_fresh d) as Hfresh.
  assert (CsvFixer.temp_name d <> filepath) as Hne by (intros E; congruence).
  unfold CsvFixer.smart_read_csv, CsvFixer.fix_csv_issues. rewrite Hd. simpl. rewrite Hp.
  rewrite lookup_insert_eq. simpl. split.
  - intros frame Hf. rewrite Hf. f_equal. by apply delete_insert_id.
  - intros Hf. rewrite Hf. simpl. split; [done|]. split; [done|].
    split; [apply lookup_insert_eq|].
    unfold CsvFixer.manual_csv_parse. by rewrite lookup_insert_ne.
Qed.

Lemma smart_read_csv_keeps_temp_file_witness :
  (CsvFixer.smart_read_csv {| CsvFixer.pd_read_csv := fun _ => None |}
     {[ "upload.csv" := [] ]} "upload.csv").1
  = {[ "upload.csv" := []; "/tmp/tmp.csv" := [] ]}.
Proof.
  destruct (smart_read_csv_keeps_temp_file {| CsvFixer.pd_read_csv := fun _ => None |}
              {[ "upload.csv" := [] ]} "upload.csv" [] (lookup_singleton_eq _ _) eq_refl)
    as [_ H].
  destruct (H eq_refl) as (_ & -> & _).
  vm_compute. reflexivity.
Defined.

(** The route [/] has the same gap: for an upload of no byte the
    cascade returns the empty frame, the repaired copy is written to a
    temporary file, the cleaner built on it holds no data, and the
    route returns at line 357, before the lines that delete the copy. *)
Lemma index_keeps_temp_file :
  let L := {| Index.app := on_empty_file;
              Index.cleaner_library := simple_on_empty_file;
              Index.written := plain_file |} in
  let d : gmap Index.path file := {[ "uploads/x.csv" := empty_file ]} in
  (Index.load L d true SimpleCleaner.Csv "uploads/x.csv" SimpleCleaner.no_options).2
  = Index.NothingLoaded
  /\ d !! "/tmp/tmp.csv" = None
  /\ (Index.load L d true SimpleCleaner.Csv "uploads/x.csv" SimpleCleaner.no_options).1
       !! "/tmp/tmp.csv" = Some (plain_file []).
Proof. vm_compute. repeat split; reflexivity. Qed.

(** * Further properties of the code *)

(** ** The cascade of [app.py] *)
Section Cascade.

Lemma manual_csv_parse_none f :
  App.manual_csv_parse f = None <->
  App.manual_rows f [UTF8; LATIN1; CP1252; ISO8859_1; UTF16] = []
  /\ text f UTF8 Ignore = None.
Proof.
  unfold App.manual_csv_parse.
  destruct (App.manual_rows f _) as [|r rs]; simpl.
  - destruct (text f UTF8 Ignore) as [t|]; simpl.
    + destruct (table_of_rows_total ((fun line => split COMMA (strip line)) <$> file_lines t))
        as [d ->]. split; [done|]. by intros [_ ?].
    + done.
  - destruct (table_of_rows_total (r :: rs)) as [d ->]. split; [done|]. by intros [? _].
Qed.

End Cascade.

(** A frame the cascade returns is never a header without records:
    either it has a record and a column, or it is [pd.DataFrame()],
    without rows and without columns. *)
Theorem cascade_frame_not_empty_or_blank (L : App.library) (f : file) (d : DataFrame) :
  App.read_csv_with_fallbacks L f = Some d ->
  is_empty d = false \/ d = empty_frame.
Proof.
  intros H. unfold App.read_csv_with_fallbacks in H.
  destruct (App.strategy1 L f).2 as [d1|] eqn:E1.
  { injection H as <-. left.
    destruct (try_encodings_first _ _ _ _ E1) as (? & ? & ? & _ & _ & Ho & _).
    apply andb_prop in Ho as [Ho _]. by apply negb_true_iff. }
  destruct (App.strategy2 L f).2 as [d2|] eqn:E2.
  { injection H as <-. left.
    destruct (try_encodings_first _ _ _ _ E2) as (? & ? & ? & _ & _ & Ho & _).
    by apply negb_true_iff. }
  destruct (App.manual_csv_parse f) as [d3|]; [|done]. simpl in H.
  destruct (is_empty d3) eqn:E3; simpl in H; [|injection H as <-; by left].
  destruct (is_empty (App.text_based_csv_parse L f)) eqn:E4; simpl in H;
    injection H as <-; [by right|by left].
Qed.

(** pandas reads a header without records from [header_only_file];
    the cascade returns the frame without columns. *)
Lemma cascade_frame_not_empty_or_blank_witness :
  App.pd_read_csv on_header_only_file header_only_file UTF8 = Some (of_header [u"a"; u"b"])
  /\ exists d,
       App.read_csv_with_fallbacks on_header_only_file header_only_file = Some d
       /\ (is_empty d = false \/ d = empty_frame).
Proof.
  split; [reflexivity|]. eexists. split; [vm_compute; reflexivity|].
  apply (cascade_frame_not_empty_or_blank on_header_only_file header_only_file).
  vm_compute. reflexivity.
Defined.

(** [read_csv_with_fallbacks] lets an exception out in one case only:
    neither pandas tier accepts a frame, the manual tier collects no
    record under any of its encodings, and the last-resort [open] of
    the file raises. *)
Theorem cascade_raises_iff (L : App.library) (f : file) :
  App.read_csv_with_fallbacks L f = None <->
  (App.strategy1 L f).2 = None
  /\ (App.strategy2 L f).2 = None
  /\ App.manual_rows f [UTF8; LATIN1; CP1252; ISO8859_1; UTF16] = []
  /\ text f UTF8 Ignore = None.
Proof.
  unfold App.read_csv_with_fallbacks.
  destruct (App.strategy1 L f).2 as [d1|]; [split; [done|by intros [? _]]|].
  destruct (App.strategy2 L f).2 as [d2|]; [split; [done|by intros (_ & ? & _)]|].
  rewrite <- manual_csv_parse_none.
  destruct (App.manual_csv_parse f) as [d3|]; simpl.
  - split; [|by intros (_ & _ & ?)].
    destruct (negb (is_empty d3)); [done|].
    by destruct (negb (is_empty (App.text_based_csv_parse L f))).
  - done.
Qed.

(** A candidate that occurs in the header strictly more often than
    each of the three others is the delimiter chosen. *)
Theorem detect_delimiter_majority (h : str) (d : char) :
  d ∈ App.delimiters ->
  (forall x, x ∈ App.delimiters -> x <> d -> (count x h < count d h)%nat) ->
  App.detect_delimiter h = d /\ SimpleCleaner.detect_delimiter h = d.
Proof.
  intros Hd Hmax.
  assert (App.detect_delimiter h = d) as E; [|split; [exact E|exact E]].
  destruct (detect_delimiter_earliest h) as (pre & post & Heq & Hpre & Hpost).
  destruct (decide (App.detect_delimiter h = d)) as [|Hne]; [done|exfalso].
  assert (App.detect_delimiter h ∈ App.delimiters) as Hm.
  { rewrite Heq. apply elem_of_app. right. left. }
  specialize (Hmax _ Hm Hne). rewrite Heq in Hd.
  apply elem_of_app in Hd as [Hd|Hd].
  - specialize (Hpre d Hd). lia.
  - apply elem_of_cons in Hd as [Hd|Hd]; [congruence|]. specialize (Hpost d Hd). lia.
Qed.

Lemma detect_delimiter_majority_witness :
  App.detect_delimiter (u"id;name,first;age") = SEMICOLON.
Proof.
  apply (detect_delimiter_majority (u"id;name,first;age") SEMICOLON).
  - unfold App.delimiters. set_solver.
  - intros x Hx Hne. unfold App.delimiters in Hx.
    assert (count SEMICOLON (u"id;name,first;age") = 2%nat) as -> by reflexivity.
    apply elem_of_cons in Hx as [->|Hx]; [apply (Nat.ltb_lt 1 2); reflexivity|].
    apply elem_of_cons in Hx as [->|Hx]; [congruence|].
    apply elem_of_cons in Hx as [->|Hx]; [apply (Nat.ltb_lt 0 2); reflexivity|].
    apply elem_of_cons in Hx as [->|Hx]; [apply (Nat.ltb_lt 0 2); reflexivity|].
    by apply elem_of_nil in Hx.
Defined.

(** ** The text tier of [app.py]: [clean_csv_content] *)
Section Replace.

Lemma Forall_replace_from (P : char -> Prop) old new k s :
  Forall P new -> Forall P s -> Forall P (replace_from old new k s).
Proof.
  intros Hnew Hs. revert k. induction Hs as [|x s Hx Hs IH]; intros k; [constructor|].
  simpl. destruct k as [|k]; [|apply IH].
  destruct (startswith old (x :: s)).
  - apply Forall_app. split; [done|apply IH].
  - constructor; [done|apply IH].
Qed.

Lemma Forall_replace (P : char -> Prop) old new s :
  Forall P new -> Forall P s -> Forall P (replace old new s).
Proof. apply Forall_replace_from. Qed.

Lemma startswith_elem c old s : c ∈ old -> startswith old s = true -> c ∈ s.
Proof.
  revert s. induction old as [|a old IH]; intros s Hc H; [by apply elem_of_nil in Hc|].
  destruct s as [|b s]; [done|]. simpl in H. apply andb_prop in H as [Hab H].
  apply N.eqb_eq in Hab as ->.
  apply elem_of_cons in Hc as [->|Hc]; [left|right; by apply IH].
Qed.

(** An [old] with a character the text does not have matches nowhere. *)
Lemma replace_absent c old new s : c ∈ old -> c ∉ s -> replace old new s = s.
Proof.
  intros Hc. unfold replace. induction s as [|x s IH]; intros Hs; [done|].
  cbn [replace_from]. destruct (startswith old (x :: s)) eqn:E.
  - destruct Hs. by apply (startswith_elem c old).
  - f_equal. apply IH. intros H. apply Hs. by right.
Qed.

(** Replacing a character removes it. *)
Lemma replace_single_gone c new s : c ∉ new -> c ∉ replace [c] new s.
Proof.
  intros Hnew. unfold replace. induction s as [|x s IH]; [apply not_elem_of_nil|].
  cbn [replace_from startswith length]. rewrite andb_true_r.
  destruct (c =? x) eqn:E.
  - intros H. apply elem_of_app in H as [H|H]; [done|]. by apply IH.
  - apply N.eqb_neq in E. intros H. apply elem_of_cons in H as [H|H]; [done|by apply IH].
Qed.

Lemma replace_keeps_out c old new s : c ∉ new -> c ∉ s -> c ∉ replace old new s.
Proof.
  intros Hnew Hs H.
  assert (Forall (fun x => x <> c) (replace old new s)) as HF.
  { apply Forall_replace; apply Forall_forall; intros y Hy ->; done. }
  by apply (proj1 (Forall_forall _ _) HF c).
Qed.

End Replace.

Section Lines.

Lemma Forall_List_filter {A} (P : A -> Prop) (f : A -> bool) (l : list A) :
  Forall P l -> Forall P (List.filter f l).
Proof.
  induction 1 as [|x l Hx _ IH]; [constructor|]. simpl. destruct (f x); [by constructor|done].
Qed.

Lemma Forall_List_filter_true {A} (f : A -> bool) (l : list A) :
  Forall (fun x => f x = true) (List.filter f l).
Proof.
  induction l as [|x l IH]; [constructor|]. simpl. destruct (f x) eqn:E; [by constructor|done].
Qed.

Lemma lstrip_nil s : lstrip s = [] <-> forallb isspace s = true.
Proof.
  induction s as [|c s IH]; [done|]. simpl. destruct (isspace c); [exact IH|done].
Qed.

Lemma forallb_lstrip s : forallb isspace (lstrip s) = forallb isspace s.
Proof. induction s as [|c s IH]; [done|]. simpl. destruct (isspace c) eqn:E; [exact IH|simpl; by rewrite E]. Qed.

Lemma forallb_rev {A} (f : A -> bool) (l : list A) : forallb f (rev l) = forallb f l.
Proof.
  induction l as [|x l IH]; [done|]. simpl. rewrite forallb_app, IH. simpl.
  rewrite andb_true_r. apply andb_comm.
Qed.

(** A line is blank when all its characters are white space. *)
Lemma is_blank_spaces s : App.is_blank s = forallb isspace s.
Proof.
  unfold App.is_blank, strip, rstrip.
  rewrite <- (forallb_lstrip s), <- (forallb_rev isspace (lstrip s)).
  destruct (forallb isspace (rev (lstrip s))) eqn:E.
  - apply lstrip_nil in E. by rewrite E.
  - destruct (rev (lstrip (rev (lstrip s)))) eqn:E'; [|done].
    apply (f_equal (@rev _)) in E'. rewrite rev_involutive in E'. simpl in E'.
    apply lstrip_nil in E'. congruence.
Qed.

Lemma not_blank_elem s x : x ∈ s -> isspace x = false -> App.is_blank s = false.
Proof.
  intros Hx Hs. rewrite is_blank_spaces. apply not_true_iff_false. intros H.
  rewrite forallb_forall in H. apply list_elem_of_In, H in Hx. congruence.
Qed.

Lemma not_blank_inv s : App.is_blank s = false -> exists x, x ∈ s /\ isspace x = false.
Proof.
  rewrite is_blank_spaces. induction s as [|c s IH]; [done|]. simpl.
  destruct (isspace c) eqn:E; simpl.
  - intros H. destruct (IH H) as (x & Hx & Hs). exists x. split; [by right|done].
  - intros _. exists c. split; [left|done].
Qed.

Variable c : char.

Lemma split_free s : Forall (fun x => (x =? c) = false) s -> split c s = [s].
Proof.
  induction 1 as [|x s Hx _ IH]; [done|]. simpl. by rewrite Hx, IH.
Qed.

Lemma split_app_sep p s :
  Forall (fun x => (x =? c) = false) p -> split c (p ++ c :: s) = p :: split c s.
Proof.
  induction 1 as [|x p Hx _ IH]; simpl; [by rewrite N.eqb_refl|]. by rewrite Hx, IH.
Qed.

(** Joining parts free of the separator and splitting again gives the
    parts back. *)
Lemma split_join parts :
  parts <> [] ->
  Forall (Forall (fun x => (x =? c) = false)) parts ->
  split c (join [c] parts) = parts.
Proof.
  intros Hne H. induction H as [|p ps Hp Hps IH]; [done|].
  destruct ps as [|q ps]; [simpl; by apply split_free|].
  rewrite join_cons by done. simpl app. rewrite split_app_sep by done.
  f_equal. by apply IH.
Qed.

Lemma count_join_ge parts : (length parts - 1 <= count c (join [c] parts))%nat.
Proof.
  induction parts as [|p ps IH]; [simpl; lia|].
  destruct ps as [|q ps]; [simpl; lia|].
  rewrite join_cons by done. rewrite !count_app. simpl app. rewrite count_cons, N.eqb_refl.
  simpl in *. lia.
Qed.

End Lines.

Section ReconcileCounts.

Lemma count_replicate_same c n : count c (replicate n c) = n.
Proof. induction n as [|n IH]; [done|]. simpl. rewrite count_cons, N.eqb_refl, IH. done. Qed.

Lemma reconcile_cases n line :
  App.reconcile n line = line
  \/ App.reconcile n line = line ++ replicate (n - count COMMA line) COMMA
     /\ (count COMMA line < n)%nat
  \/ App.reconcile n line
     = join [COMMA] (take n (split COMMA line)) ++ [COMMA; QUOTE]
         ++ join [COMMA] (drop n (split COMMA line)) ++ [QUOTE]
     /\ (n < count COMMA line)%nat.
Proof.
  destruct (lt_eq_lt_dec (count COMMA line) n) as [[H|H]|H].
  - right. left. split; [|done]. by apply reconcile_pad.
  - left. unfold App.reconcile. rewrite H, Nat.ltb_irrefl. done.
  - right. right. split; [|done]. by apply reconcile_merge.
Qed.

(** A reconciled line has at least the commas of the header. *)
Lemma count_reconcile n line : (n <= count COMMA (App.reconcile n line))%nat.
Proof.
  destruct (lt_eq_lt_dec (count COMMA line) n) as [[H|H]|H].
  - destruct (reconcile_pad n line H) as [-> _].
    rewrite count_app, count_replicate_same. lia.
  - unfold App.reconcile. rewrite H, Nat.ltb_irrefl. lia.
  - rewrite reconcile_merge by done. rewrite !count_app.
    pose proof (count_join_ge COMMA (take n (split COMMA line))) as Hc.
    rewrite length_take, length_split in Hc.
    change (count COMMA [COMMA; QUOTE]) with 1%nat. lia.
Qed.

Lemma reconcile_Forall (P : char -> Prop) n line :
  P COMMA -> P QUOTE -> Forall P line -> Forall P (App.reconcile n line).
Proof.
  intros Hc Hq Hl. destruct (reconcile_cases n line) as [->|[[-> _]|[-> _]]]; [done| |].
  - apply Forall_app. split; [done|]. by apply Forall_replicate.
  - pose proof (split_parts COMMA P line Hl) as Hp.
    assert (Forall (Forall P) (split COMMA line)) as Hp'.
    { eapply Forall_impl; [exact Hp|]. by intros ? [? _]. }
    repeat (apply Forall_app; split).
    + apply Forall_join; [by repeat constructor|by apply Forall_take].
    + by repeat constructor.
    + apply Forall_join; [by repeat constructor|by apply Forall_drop].
    + by repeat constructor.
Qed.

Lemma reconcile_not_blank n line :
  App.is_blank line = false -> App.is_blank (App.reconcile n line) = false.
Proof.
  intros H. destruct (reconcile_cases n line) as [->|[[-> _]|[-> _]]]; [done| |].
  - destruct (not_blank_inv _ H) as (x & Hx & Hs).
    apply (not_blank_elem _ x); [|done]. apply elem_of_app. by left.
  - apply (not_blank_elem _ COMMA); [|done].
    apply elem_of_app. right. left.
Qed.

End ReconcileCounts.

Ltac concrete := apply (bool_decide_unpack _); vm_compute; exact I.

(** None of the characters the repairs of [clean_csv_content] replace
    is left in its result: no carriage return, no [Â], no [Ã], no
    no-break space and neither of the two C1 dashes. *)
Theorem clean_csv_content_removes (content : str) :
  Forall (fun x => x ∉ [CR; 0xC2; 0xC3; 0xA0; 0x96; 0x97]) (App.clean_csv_content content).
Proof.
  unfold App.clean_csv_content. cbv zeta.
  set (c1 := replace [CR] [LF] (replace [CR; LF] [LF] content)).
  set (c2 := if startswith [BOM] c1 then drop 1 c1 else c1).
  set (c3 := foldl (fun c r => replace r.1 r.2 c) c2 App.replacements).
  assert (CR ∉ c2) as Hcr.
  { assert (CR ∉ c1) as H1 by (by apply replace_single_gone; concrete).
    unfold c2. destruct (startswith [BOM] c1); [|done].
    intros H. apply H1. by apply (elem_of_drop _ 1) in H || (destruct c1; [done|right; exact H]). }
  assert (Forall (fun x => x ∉ [CR; 0xC2; 0xC3; 0xA0; 0x96; 0x97]) c3) as H3.
  { assert (forall x, x ∈ [CR; 0xC2; 0xC3; 0xA0; 0x96; 0x97] -> x ∉ c3) as H.
    { intros x Hx. unfold c3, App.replacements. cbn [foldl fst snd].
      repeat (apply elem_of_cons in Hx as [->|Hx]); [..|by apply elem_of_nil in Hx].
      - repeat (apply replace_keeps_out; [concrete|]). exact Hcr.
      - do 12 (apply replace_keeps_out; [concrete|]).
        apply replace_single_gone. concrete.
      - do 9 (apply replace_keeps_out; [concrete|]).
        apply replace_single_gone. concrete.
      - do 2 (apply replace_keeps_out; [concrete|]).
        apply replace_single_gone. concrete.
      - do 1 (apply replace_keeps_out; [concrete|]).
        apply replace_single_gone. concrete.
      - apply replace_single_gone. concrete. }
    apply Forall_forall. intros y Hy Hin. by apply (H y Hin). }
  clearbody c3. clear c1 c2 Hcr.
  destruct (List.filter _ (split LF c3)) as [|header data] eqn:E; [done|].
  assert (Forall (Forall (fun x => x ∉ [CR; 0xC2; 0xC3; 0xA0; 0x96; 0x97])) (header :: data)) as Hl.
  { rewrite <- E. apply Forall_List_filter.
    eapply Forall_impl; [apply (split_parts LF _ c3 H3)|]. by intros ? [? _]. }
  apply Forall_join; [repeat constructor; concrete|].
  apply Forall_cons in Hl as [Hh Hd]. constructor; [done|].
  apply Forall_fmap. eapply Forall_impl; [exact Hd|]. intros l Hlx. simpl.
  apply reconcile_Forall; [concrete|concrete|done].
Qed.

(** The entries of the table for [ó], [á], [ñ], [ú], [ü] and [ç] apply
    to nothing: the entry for a lone [Ã] comes before them and has
    replaced every [Ã].  Without the six the table does the same. *)
Theorem replacements_dead_entries (content : str) :
  foldl (fun c r => replace r.1 r.2 c) content App.replacements
  = foldl (fun c r => replace r.1 r.2 c) content
      (take 4 App.replacements ++ drop 10 App.replacements).
Proof.
  unfold App.replacements. cbn [take drop app foldl fst snd].
  set (s := replace [0xC3] [0xED] _).
  assert (0xC3 ∉ s) as H by (apply replace_single_gone; concrete).
  clearbody s.
  do 6 (rewrite (replace_absent 0xC3 _ _ s) by (first [exact H|concrete])).
  done.
Qed.

(** The lines of the result of [clean_csv_content]: all blank, when
    the repaired text has blank lines only; otherwise none is blank
    and each has at least as many commas as the first. *)
Theorem clean_csv_content_lines (content : str) :
  Forall (fun l => App.is_blank l = true) (split LF (App.clean_csv_content content))
  \/ exists header data,
       split LF (App.clean_csv_content content) = header :: data
       /\ Forall (fun l => App.is_blank l = false
                           /\ (count COMMA header <= count COMMA l)%nat)
            (header :: data).
Proof.
  unfold App.clean_csv_content. cbv zeta.
  set (c3 := foldl _ _ App.replacements). clearbody c3.
  pose proof (Forall_List_filter_true (fun line => negb (App.is_blank line)) (split LF c3)) as Hnb.
  pose proof (Forall_List_filter _ (fun line => negb (App.is_blank line)) _
                (split_parts LF (fun _ => True) c3 (Forall_true _ _ (fun _ => I)))) as Hfree.
  destruct (List.filter _ (split LF c3)) as [|header data] eqn:E.
  - left. clear Hnb Hfree. induction (split LF c3) as [|l ls IH]; [constructor|].
    simpl in E. destruct (App.is_blank l) eqn:B; simpl in E; [|done].
    constructor; [done|by apply IH].
  - right. exists header, (App.reconcile (count COMMA header) <$> data).
    apply Forall_cons in Hnb as [Hh Hd]. apply Forall_cons in Hfree as [[_ Fh] Fd].
    split.
    + apply split_join; [done|]. constructor; [done|].
      apply Forall_fmap. eapply Forall_impl; [exact Fd|]. intros l [_ Hl]. simpl.
      by apply reconcile_Forall.
    + constructor; [split; [by apply negb_true_iff|lia]|].
      apply Forall_fmap. eapply Forall_impl; [exact Hd|]. intros l Hl. simpl.
      split; [apply reconcile_not_blank; by apply negb_true_iff|apply count_reconcile].
Qed.

(** ** The pipeline of [utils/simple_cleaner.py] *)
Section Pipeline.

Lemma length_duplicated_from seen rs : length (duplicated_from seen rs) = length rs.
Proof. revert seen. induction rs as [|r rs IH]; intros seen; [done|]. simpl. by rewrite IH. Qed.

Lemma count_true_le marks : (count_true marks <= length marks)%nat.
Proof. unfold count_true. apply filter_length_le. Qed.

Lemma length_rows_frame d : length (rows d) = nrows d.
Proof. unfold rows. by rewrite length_fmap, length_seq. Qed.

(** The first record is a duplicate of none. *)
Lemma count_true_duplicated d :
  nrows d <> 0%nat -> (count_true (duplicated d) < nrows d)%nat.
Proof.
  intros Hn. unfold duplicated. destruct (is_empty d); [unfold count_true; simpl; lia|].
  rewrite <- (length_rows_frame d) in *. destruct (rows d) as [|r rs]; [done|].
  simpl. unfold count_true. simpl.
  pose proof (count_true_le (duplicated_from [r] rs)) as H.
  rewrite length_duplicated_from in H. unfold count_true in H. lia.
Qed.

Lemma Forall_keep_unmarked {A} (P : A -> Prop) marks (l : list A) :
  Forall P l -> Forall P (keep_unmarked marks l).
Proof.
  intros H. revert marks. induction H as [|x l Hx Hl IH]; intros marks.
  - by destruct marks.
  - destruct marks as [|[] marks]; simpl; [by constructor|apply IH|constructor; [done|apply IH]].
Qed.

Lemma length_keep_unmarked {A} marks (l : list A) :
  length marks = length l ->
  length (keep_unmarked marks l) = (length l - count_true marks)%nat.
Proof.
  revert l. induction marks as [|m marks IH]; intros [|x l] H; try done.
  injection H as H. specialize (IH l H). unfold count_true in *. destruct m; simpl; [done|].
  rewrite IH. pose proof (filter_length_le id marks). lia.
Qed.

Lemma drop_sparse_at_nrows t d : nrows (SimpleCleaner.drop_sparse_at t d) = nrows d.
Proof.
  unfold SimpleCleaner.drop_sparse_at. destruct (Qlt_bool t 1); [|done].
  by destruct (SimpleCleaner.cols_to_drop t d).
Qed.

Lemma drop_sparse_at_length t d :
  (length (cols (SimpleCleaner.drop_sparse_at t d)) <= length (cols d))%nat.
Proof.
  rewrite drop_sparse_at_cols. destruct (Qlt_bool t 1); [apply filter_length_le|done].
Qed.

Lemma fill_missing_inv d d' :
  SimpleCleaner.fill_missing d = Some d' ->
  nrows d' = nrows d /\ cols d' = SimpleCleaner.fill_series <$> cols d.
Proof. unfold SimpleCleaner.fill_missing. case_bool_decide; [by intros [= <-]|done]. Qed.

(** The frame [clean_data] leaves, stage by stage. *)
Lemma clean_data_frame U now c c' :
  is_empty (SimpleCleaner.df c) = false ->
  SimpleCleaner.clean_data U now c = Some c' ->
  exists d2,
    SimpleCleaner.fill_missing
      (SimpleCleaner.drop_sparse (SimpleCleaner.opts c)
         (SimpleCleaner.rename_columns U (SimpleCleaner.df c))) = Some d2
    /\ let k := if SimpleCleaner.option_is (SimpleCleaner.handle_duplicates (SimpleCleaner.opts c))
                     u"drop" u"drop"
                then count_true (duplicated d2) else 0%nat in
       let d3 := if (0 <? k)%nat then drop_duplicates d2 else d2 in
       SimpleCleaner.df c'
       = (if default false (SimpleCleaner.standardize_text (SimpleCleaner.opts c))
          then {| nrows := nrows d3; cols := SimpleCleaner.strip_series <$> cols d3 |}
          else d3)
       /\ SimpleCleaner.report c'
          = <["note" := SimpleCleaner.RStr u"Simple cleaning applied"]>
            (<["cleaning_timestamp" := SimpleCleaner.RStr now]>
            (<["columns_removed" :=
                 SimpleCleaner.RInt (Z.of_nat (SimpleCleaner.original_shape c).2
                                     - Z.of_nat (length (cols (SimpleCleaner.df c'))))]>
            (<["rows_removed" :=
                 SimpleCleaner.RInt (Z.of_nat (SimpleCleaner.original_shape c).1
                                     - Z.of_nat (nrows (SimpleCleaner.df c')))]>
            (<["final_columns" := SimpleCleaner.RInt (Z.of_nat (length (cols (SimpleCleaner.df c'))))]>
            (<["final_rows" := SimpleCleaner.RInt (Z.of_nat (nrows (SimpleCleaner.df c')))]>
               (if (0 <? k)%nat
                then <["duplicates_removed" := SimpleCleaner.RInt (Z.of_nat k)]>
                       (SimpleCleaner.report c)
                else SimpleCleaner.report c)))))).
Proof.
  intros He H. unfold SimpleCleaner.clean_data in H. rewrite He in H.
  destruct (SimpleCleaner.fill_missing _) as [d2|] eqn:E; [|done].
  exists d2. split; [done|]. cbn [mbind option_bind] in H. injection H as <-. done.
Qed.

End Pipeline.

(** The counts of a cleaning run on a loaded table that is not empty.
    At least one record is left and no record or column is added; the
    report gives the removed records and columns as the differences of
    the counts, and it has the field [duplicates_removed], with that
    same number of records, exactly when a record was removed. *)
Theorem clean_data_counts (L : SimpleCleaner.library) (ext : SimpleCleaner.extension)
    (f : file) (o : SimpleCleaner.options) (U : unicode_data) (now : str)
    (c c' : SimpleCleaner.cleaner) :
  SimpleCleaner._load_data L ext f o = Some c ->
  is_empty (SimpleCleaner.df c) = false ->
  SimpleCleaner.clean_data U now c = Some c' ->
  let before := SimpleCleaner.df c in
  let after := SimpleCleaner.df c' in
  (1 <= nrows after <= nrows before)%nat
  /\ (length (cols after) <= length (cols before))%nat
  /\ SimpleCleaner.report c' !! "original_rows"
     = Some (SimpleCleaner.RInt (Z.of_nat (nrows before)))
  /\ SimpleCleaner.report c' !! "final_rows"
     = Some (SimpleCleaner.RInt (Z.of_nat (nrows after)))
  /\ SimpleCleaner.report c' !! "rows_removed"
     = Some (SimpleCleaner.RInt (Z.of_nat (nrows before - nrows after)))
  /\ SimpleCleaner.report c' !! "columns_removed"
     = Some (SimpleCleaner.RInt (Z.of_nat (length (cols before) - length (cols after))))
  /\ SimpleCleaner.report c' !! "duplicates_removed"
     = (if (nrows after <? nrows before)%nat
        then Some (SimpleCleaner.RInt (Z.of_nat (nrows before - nrows after)))
        else None).
Proof.
  intros Hload He Hclean before after.
  assert (SimpleCleaner.original_shape c = (nrows before, length (cols before))
          /\ SimpleCleaner.report c
             = <["original_columns" := SimpleCleaner.RInt (Z.of_nat (length (cols before)))]>
                 (<["original_rows" := SimpleCleaner.RInt (Z.of_nat (nrows before))]> ∅))
    as [Hshape Hrep].
  { unfold SimpleCleaner._load_data in Hload.
    destruct (match ext with
              | SimpleCleaner.Csv | SimpleCleaner.OtherExtension =>
                  Some (SimpleCleaner._read_csv_robustly L f)
              | SimpleCleaner.Excel => SimpleCleaner.pd_read_excel L f
              | SimpleCleaner.Json => SimpleCleaner.pd_read_json L f
              end) as [d|]; [|done].
    simpl in Hload. injection Hload as Hc. subst before.
    destruct (is_empty d) eqn:E; simpl in Hc; subst c; simpl in *; [done|done]. }
  destruct (clean_data_frame U now c c' He Hclean) as (d2 & Hfill & Hdf & Hreport).
  apply fill_missing_inv in Hfill as [Hn2 Hc2].
  unfold SimpleCleaner.drop_sparse in Hn2, Hc2.
  rewrite drop_sparse_at_nrows in Hn2. simpl in Hn2. fold before in Hn2.
  assert (length (cols d2) <= length (cols before))%nat as Hlen2.
  { rewrite Hc2, length_fmap. etrans; [apply drop_sparse_at_length|].
    simpl. by rewrite length_fmap. }
  assert (nrows before <> 0%nat) as Hpos.
  { intros H0. unfold is_empty in He. fold before in He. by rewrite H0 in He. }
  set (k := if SimpleCleaner.option_is _ _ _ then count_true (duplicated d2) else 0%nat) in *.
  assert (k < nrows before)%nat as Hk.
  { unfold k. destruct (SimpleCleaner.option_is _ _ _); [|lia].
    rewrite <- Hn2. apply count_true_duplicated. by rewrite Hn2. }
  assert (nrows after = (nrows before - k)%nat /\ length (cols after) = length (cols d2))
    as [Hna Hca].
  { unfold after. rewrite Hdf.
    destruct (default false _); destruct (0 <? k)%nat eqn:Ek; simpl;
      rewrite ?length_fmap; try (apply Nat.ltb_ge in Ek);
      try (split; [|done]); try lia.
    all: assert (k = count_true (duplicated d2)) as <-
           by (unfold k in *; destruct (SimpleCleaner.option_is _ _ _); [done|done || lia]);
         lia. }
  split; [lia|]. split; [lia|].
  rewrite Hreport. fold after. rewrite Hshape, Hrep. simpl fst. simpl snd.
  assert (Z.of_nat (nrows before) - Z.of_nat (nrows after)
          = Z.of_nat (nrows before - nrows after))%Z as -> by lia.
  assert (Z.of_nat (length (cols before)) - Z.of_nat (length (cols after))
          = Z.of_nat (length (cols before) - length (cols after)))%Z as -> by lia.
  assert ((nrows after <? nrows before)%nat = (0 <? k)%nat) as ->.
  { destruct (0 <? k)%nat eqn:Ek; [apply Nat.ltb_lt in Ek; apply Nat.ltb_lt; lia|].
    apply Nat.ltb_ge in Ek. apply Nat.ltb_ge. lia. }
  assert (nrows before - nrows after = k)%nat as Hd by lia. rewrite Hd.
  destruct (0 <? k)%nat; repeat split; by simplify_map_eq.
Qed.

Lemma clean_data_counts_witness :
  exists c c',
    SimpleCleaner._load_data simple_on_twice_file SimpleCleaner.Csv twice_file
      SimpleCleaner.no_options = Some c
    /\ SimpleCleaner.clean_data ucd_excerpt (u"2024-01-01T00:00:00") c = Some c'
    /\ (1 <= nrows (SimpleCleaner.df c') <= 2)%nat
    /\ SimpleCleaner.report c' !! "rows_removed" = Some (SimpleCleaner.RInt 1)
    /\ SimpleCleaner.report c' !! "duplicates_removed" = Some (SimpleCleaner.RInt 1).
Proof.
  destruct (SimpleCleaner._load_data simple_on_twice_file SimpleCleaner.Csv twice_file
              SimpleCleaner.no_options) as [c|] eqn:Hload; [|by vm_compute in Hload].
  destruct (SimpleCleaner.clean_data ucd_excerpt (u"2024-01-01T00:00:00") c) as [c'|] eqn:Hclean;
    [|vm_compute in Hload; injection Hload as <-; by vm_compute in Hclean].
  assert (is_empty (SimpleCleaner.df c) = false) as He
    by (vm_compute in Hload; injection Hload as <-; reflexivity).
  destruct (clean_data_counts _ _ _ _ _ _ c c' Hload He Hclean) as (Hn & _ & _ & _ & Hr & _ & Hd).
  exists c, c'. split; [reflexivity|]. split; [exact Hclean|].
  vm_compute in Hload. injection Hload as <-.
  vm_compute in Hclean. injection Hclean as <-.
  split; [exact Hn|]. split; [exact Hr|exact Hd].
Defined.

Section Filling.
Import Stats.

Lemma length_insert_sorted {A} (leb : A -> A -> bool) x l :
  length (insert_sorted leb x l) = S (length l).
Proof. induction l as [|y l IH]; [done|]. simpl. destruct (leb x y); simpl; by rewrite ?IH. Qed.

Lemma length_sort {A} (leb : A -> A -> bool) l : length (sort leb l) = length l.
Proof. induction l as [|x l IH]; [done|]. simpl. by rewrite length_insert_sorted, IH. Qed.

Lemma elem_of_insert_sorted {A} (leb : A -> A -> bool) (x a : A) l :
  x ∈ insert_sorted leb a l <-> x = a \/ x ∈ l.
Proof.
  induction l as [|y l IH]; simpl.
  - rewrite list_elem_of_singleton, elem_of_nil. tauto.
  - destruct (leb a y); rewrite !elem_of_cons; [tauto|]. rewrite IH. tauto.
Qed.

(** Sorting keeps the values. *)
Lemma elem_of_sort {A} (leb : A -> A -> bool) (x : A) l : x ∈ sort leb l <-> x ∈ l.
Proof.
  induction l as [|y l IH]; [done|]. simpl.
  rewrite elem_of_insert_sorted, elem_of_cons, IH. tauto.
Qed.

Lemma elem_of_dropna {A} (x : A) (l : list (option A)) : x ∈ dropna l <-> Some x ∈ l.
Proof.
  unfold dropna. rewrite list_elem_of_omap. split.
  - intros (y & Hy & E). unfold id in E. by subst.
  - intros H. by exists (Some x).
Qed.

Lemma null_count_cons {A} (x : option A) l :
  null_count (x :: l) = ((if x is Some _ then 0 else 1) + null_count l)%nat.
Proof. unfold null_count. simpl. by destruct x. Qed.

Lemma length_dropna {A} (l : list (option A)) :
  (length (dropna l) + null_count l = length l)%nat.
Proof.
  induction l as [|x l IH]; [done|]. rewrite null_count_cons.
  destruct x; simpl; unfold dropna in *; lia.
Qed.

Lemma num_add_None a b :
  num_add a b = None -> (a = PInf /\ b = NInf) \/ (a = NInf /\ b = PInf).
Proof. destruct a, b; simpl; intros H; try done; [by left|by right]. Qed.

(** The median is NaN on a column without any value and on a column
    whose two middle values are the two infinities, nowhere else. *)
Lemma median_None l :
  median l = None -> dropna l = [] \/ (Some PInf ∈ l /\ Some NInf ∈ l).
Proof.
  unfold median. rewrite length_sort. set (xs := sort num_leb (dropna l)).
  assert (length xs = length (dropna l)) as Hx by apply length_sort.
  destruct (length (dropna l) =? 0)%nat eqn:E.
  { intros _. left. apply Nat.eqb_eq in E. by destruct (dropna l). }
  apply Nat.eqb_neq in E.
  assert (forall i, (i < length (dropna l))%nat -> exists a, xs !! i = Some a /\ Some a ∈ l)
    as Hl.
  { intros i Hi. destruct (lookup_lt_is_Some_2 xs i) as [a Ha]; [lia|]. exists a.
    split; [done|]. apply elem_of_dropna, (elem_of_sort num_leb), list_elem_of_lookup.
    by exists i. }
  assert (length (dropna l) / 2 < length (dropna l))%nat as H2 by (apply Nat.div_lt; lia).
  destruct (Nat.odd _).
  - destruct (Hl _ H2) as (a & -> & _). done.
  - destruct (Hl _ H2) as (b & -> & Hb).
    destruct (Hl (length (dropna l) / 2 - 1)%nat) as (a & -> & Ha); [lia|]. simpl.
    destruct (num_add a b) eqn:Eab; [done|]. intros _. right.
    apply num_add_None in Eab as [[-> ->]|[-> ->]]; done.
Qed.

Lemma null_count_fmap {A} (g : A -> A) (l : list (option A)) :
  null_count (option_map g <$> l) = null_count l.
Proof.
  induction l as [|x l IH]; [done|]. rewrite fmap_cons, !null_count_cons, IH. by destruct x.
Qed.

Lemma null_count_keep_unmarked {A} marks (l : list (option A)) :
  null_count l = 0%nat -> null_count (keep_unmarked marks l) = 0%nat.
Proof.
  revert marks. induction l as [|x l IH]; intros marks; [by destruct marks|].
  rewrite null_count_cons. intros H. destruct marks as [|[] marks]; simpl.
  - rewrite null_count_cons. lia.
  - apply IH. lia.
  - rewrite null_count_cons, IH by lia. lia.
Qed.

(** Stage 3 on one column: no cell is missing afterwards, unless the
    column is numeric and its median is NaN; the column is then left
    as it was. *)
Lemma fill_series_filled c :
  SimpleCleaner.series_null_count (SimpleCleaner.fill_series c) = 0%nat
  \/ exists l, data c = NumCol l /\ median l = None.
Proof.
  unfold SimpleCleaner.fill_series, SimpleCleaner.series_null_count.
  destruct (data c) as [l|l] eqn:E.
  - destruct (0 <? null_count l)%nat eqn:E0; simpl.
    + destruct (median l) as [m|] eqn:Em; [left; apply null_count_fillna|].
      right. by exists l.
    + left. rewrite E. apply Nat.ltb_ge in E0. lia.
  - destruct (0 <? null_count l)%nat eqn:E0; simpl.
    + left. apply null_count_fillna.
    + left. rewrite E. apply Nat.ltb_ge in E0. lia.
Qed.

(** Dropping records and trimming text leave a column without missing
    cell as it is. *)
Lemma later_stages_keep marks (c : series) :
  SimpleCleaner.series_null_count c = 0%nat ->
  SimpleCleaner.series_null_count
    {| name := name c;
       data := match data c with
               | NumCol l => NumCol (keep_unmarked marks l)
               | ObjCol l => ObjCol (keep_unmarked marks l)
               end |} = 0%nat
  /\ SimpleCleaner.series_null_count (SimpleCleaner.strip_series c) = 0%nat.
Proof.
  unfold SimpleCleaner.series_null_count, SimpleCleaner.strip_series.
  destruct (data c) as [l|l] eqn:E; simpl.
  - rewrite E. intros H. split; [by apply null_count_keep_unmarked|done].
  - intros H. split; [by apply null_count_keep_unmarked|].
    destruct (_ || _); simpl; [by rewrite E|]. by rewrite null_count_fmap.
Qed.

(** A column of the frame after stages 4 and 5 comes from the column
    at the same place after stage 3. *)
Lemma later_stages_lookup (dedupe standardize : bool) d2 i col :
  let d3 := if dedupe then drop_duplicates d2 else d2 in
  cols (if standardize
        then {| nrows := nrows d3; cols := SimpleCleaner.strip_series <$> cols d3 |}
        else d3) !! i = Some col ->
  exists col2,
    cols d2 !! i = Some col2
    /\ (SimpleCleaner.series_null_count col2 = 0%nat ->
        SimpleCleaner.series_null_count col = 0%nat).
Proof.
  intros d3. unfold d3, drop_duplicates.
  destruct standardize, dedupe; cbn [cols]; rewrite ?list_lookup_fmap;
    destruct (cols d2 !! i) as [col2|]; cbn [fmap option_fmap option_map];
    try done; intros [= <-]; exists col2; (split; [done|]); intros H0.
  - apply (later_stages_keep []). by apply later_stages_keep.
  - by apply (later_stages_keep []).
  - by apply later_stages_keep.
  - done.
Qed.

(** With a threshold below 1, a column that stage 2 keeps has a value. *)
Lemma kept_column_has_value t d col :
  wf d -> nrows d <> 0%nat -> Qlt_bool t 1 = true ->
  col ∈ cols (SimpleCleaner.drop_sparse_at t d) ->
  (SimpleCleaner.series_null_count col < size (data col))%nat.
Proof.
  intros Hwf Hpos Ht Hcol. apply list_elem_of_In in Hcol.
  rewrite drop_sparse_at_cols, Ht in Hcol. apply filter_In in Hcol as [Hin Hkeep].
  apply negb_true_iff, bool_decide_eq_false in Hkeep.
  assert (SimpleCleaner.exceeds (SimpleCleaner.missing_percent d col) t = false) as Hex.
  { apply not_true_iff_false. intros Hex. apply Hkeep.
    unfold SimpleCleaner.cols_to_drop. apply list_elem_of_fmap_2.
    apply list_elem_of_In, filter_In. by split. }
  assert (size (data col) = nrows d) as Hsize.
  { unfold wf in Hwf. rewrite Forall_forall in Hwf. apply Hwf. by apply list_elem_of_In. }
  unfold SimpleCleaner.missing_percent in Hex.
  destruct (nrows d =? 0)%nat eqn:E0; [by apply Nat.eqb_eq in E0|].
  simpl in Hex. unfold Qgt_bool in Hex. apply negb_false_iff, Qle_bool_iff in Hex.
  unfold Qlt_bool in Ht. apply negb_true_iff in Ht.
  assert (~ (1 <= t)%Q) as Hlt by (rewrite <- Qle_bool_iff; congruence).
  apply Qnot_le_lt in Hlt. pose proof (Qle_lt_trans _ _ _ Hex Hlt) as Hq.
  unfold Qlt in Hq. simpl in Hq. rewrite Z.mul_1_r, Z.mul_1_l in Hq.
  rewrite Hsize. lia.
Qed.

End Filling.

(** After a cleaning run, a column that still misses a cell is a
    numeric column whose median, taken after stage 2, is NaN, so that
    stage 3 filled nothing: the column holds both infinities, or it
    has no value at all, which a threshold below 1 excludes.  No cell
    of a text column is missing, nor of a numeric column of finite
    values when the threshold is below 1. *)
Theorem clean_data_leaves_no_hole (U : unicode_data) (now : str)
    (c c' : SimpleCleaner.cleaner) (i : nat) (col : series) :
  wf (SimpleCleaner.df c) ->
  is_empty (SimpleCleaner.df c) = false ->
  SimpleCleaner.clean_data U now c = Some c' ->
  cols (SimpleCleaner.df c') !! i = Some col ->
  (0 < SimpleCleaner.series_null_count col)%nat ->
  exists col1 l,
    cols (SimpleCleaner.drop_sparse (SimpleCleaner.opts c)
            (SimpleCleaner.rename_columns U (SimpleCleaner.df c))) !! i = Some col1
    /\ data col1 = NumCol l
    /\ Stats.median l = None
    /\ ((Some PInf ∈ l /\ Some NInf ∈ l)
        \/ (Stats.dropna l = []
            /\ Qlt_bool (default (1 # 2) (SimpleCleaner.missing_threshold (SimpleCleaner.opts c))) 1
               = false)).
Proof.
  intros Hwf He Hclean Hcol Hhole.
  destruct (clean_data_frame U now c c' He Hclean) as (d2 & Hfill & Hdf & _).
  apply fill_missing_inv in Hfill as [Hn2 Hc2].
  set (k := if SimpleCleaner.option_is _ _ _ then count_true (duplicated d2) else 0%nat) in *.
  set (t := default (1 # 2) (SimpleCleaner.missing_threshold (SimpleCleaner.opts c))) in *.
  unfold SimpleCleaner.drop_sparse in *. fold t in Hn2, Hc2. fold t.
  set (d1 := SimpleCleaner.drop_sparse_at t (SimpleCleaner.rename_columns U (SimpleCleaner.df c)))
    in *.
  rewrite Hdf in Hcol.
  destruct (later_stages_lookup _ _ _ _ _ Hcol) as (col2 & Hcol2 & Hkeep).
  rewrite Hc2, list_lookup_fmap in Hcol2.
  destruct (cols d1 !! i) as [col1|] eqn:E1; [|done]. injection Hcol2 as <-.
  destruct (fill_series_filled col1) as [H0|(l & Hl & Hm)]; [apply Hkeep in H0; lia|].
  exists col1, l. split; [done|]. split; [done|]. split; [done|].
  destruct (median_None l Hm) as [Hnone|Hinf]; [|by left]. right. split; [done|].
  apply not_true_iff_false. intros Ht.
  assert (nrows (SimpleCleaner.rename_columns U (SimpleCleaner.df c)) <> 0%nat) as Hpos.
  { simpl. intros H0. unfold is_empty in He. by rewrite H0 in He. }
  assert (wf (SimpleCleaner.rename_columns U (SimpleCleaner.df c))) as Hwf1.
  { unfold wf. simpl. apply Forall_fmap. eapply Forall_impl; [exact Hwf|]. done. }
  pose proof (kept_column_has_value t _ col1 Hwf1 Hpos Ht
                (list_elem_of_lookup_2 _ _ _ E1)) as Hlt.
  unfold SimpleCleaner.series_null_count, size in Hlt. rewrite Hl in Hlt.
  pose proof (length_dropna l) as Hd. rewrite Hnone in Hd. simpl in Hd. lia.
Qed.

(** The column [x] of [inf_frame] keeps its hole: it holds both
    infinities. *)
Lemma clean_data_leaves_no_hole_witness :
  exists c' col,
    SimpleCleaner.clean_data ucd_excerpt (u"now") inf_cleaner = Some c'
    /\ cols (SimpleCleaner.df c') !! 0%nat = Some col
    /\ SimpleCleaner.series_null_count col = 1%nat
    /\ Stats.median [Some PInf; Some NInf; None] = None.
Proof.
  assert (wf (SimpleCleaner.df inf_cleaner)) as Hwf by (repeat constructor).
  destruct (SimpleCleaner.clean_data ucd_excerpt (u"now") inf_cleaner)
    as [c'|] eqn:Hclean; [|by vm_compute in Hclean].
  destruct (cols (SimpleCleaner.df c') !! 0%nat) as [col|] eqn:Hcol;
    [|vm_compute in Hclean; injection Hclean as <-; discriminate Hcol].
  assert (SimpleCleaner.series_null_count col = 1%nat) as Hone.
  { vm_compute in Hclean. injection Hclean as <-. by injection Hcol as <-. }
  exists c', col. split; [done|]. split; [done|]. split; [done|].
  destruct (clean_data_leaves_no_hole ucd_excerpt (u"now") inf_cleaner c' 0%nat col
              Hwf eq_refl Hclean Hcol) as (col1 & l & H1 & Hl & Hm & _); [lia|].
  injection H1 as <-. injection Hl as <-. exact Hm.
Defined.

Section Duplicates.

Lemma keep_unmarked_fmap {A B} (g : A -> B) marks (l : list A) :
  keep_unmarked marks (g <$> l) = g <$> keep_unmarked marks l.
Proof.
  revert marks. induction l as [|x l IH]; intros [|[] marks]; simpl; try done.
  by rewrite IH.
Qed.

(** The cell at a position of a column after the marked records are
    gone is the cell of the record that position now holds. *)
Lemma keep_unmarked_lookup {A} marks (l : list A) (s i : nat) :
  length l = length marks ->
  keep_unmarked marks l !! i
  = keep_unmarked marks (seq s (length marks)) !! i ≫= (fun j => l !! (j - s)%nat).
Proof.
  revert l s i. induction marks as [|m marks IH]; intros [|x l] s i Hlen; try done.
  injection Hlen as Hlen. simpl length. cbn [seq].
  assert (forall i, keep_unmarked marks l !! i
                    = keep_unmarked marks (seq (S s) (length marks)) !! i
                        ≫= (fun j => (x :: l) !! (j - s)%nat)) as Hrest.
  { intros i'. rewrite (IH l (S s) i' Hlen).
    destruct (keep_unmarked marks (seq (S s) (length marks)) !! i') as [j|] eqn:Ej; [|done].
    simpl. assert (S s <= j)%nat as Hj.
    { apply list_elem_of_lookup_2 in Ej.
      assert (Forall (fun j => S s <= j)%nat (keep_unmarked marks (seq (S s) (length marks)))) as HF.
      { apply Forall_keep_unmarked, Forall_forall. intros y Hy. apply elem_of_seq in Hy. lia. }
      by apply (proj1 (Forall_forall _ _) HF). }
    replace (j - s)%nat with (S (j - S s)) by lia. done. }
  destruct m; simpl; [apply Hrest|].
  destruct i as [|i]; simpl; [by rewrite Nat.sub_diag|apply Hrest].
Qed.

(** The records of the frame without its duplicates are the unmarked
    records of the frame. *)
Lemma rows_drop_duplicates d :
  wf d -> is_empty d = false ->
  rows (drop_duplicates d) = keep_unmarked (duplicated d) (rows d).
Proof.
  intros Hwf He. set (marks := duplicated d).
  assert (length marks = nrows d) as Hm.
  { unfold marks, duplicated. rewrite He, length_duplicated_from. apply length_rows_frame. }
  unfold rows at 2. rewrite keep_unmarked_fmap.
  set (kept := keep_unmarked marks (seq 0 (nrows d))).
  assert (length kept = (nrows d - count_true marks)%nat) as Hk.
  { unfold kept. rewrite length_keep_unmarked by (by rewrite length_seq).
    by rewrite length_seq. }
  unfold rows. apply list_eq. intros i. rewrite !list_lookup_fmap.
  change (nrows (drop_duplicates d)) with (nrows d - count_true marks)%nat.
  destruct (decide (i < nrows d - count_true marks)%nat) as [Hi|Hi].
  - rewrite lookup_seq_lt by done. simpl.
    destruct (lookup_lt_is_Some_2 kept i) as [j Ej]; [lia|]. rewrite Ej. simpl. f_equal.
    unfold row_at, drop_duplicates. fold marks. simpl. rewrite <- list_fmap_compose.
    apply Forall_fmap_ext_1. unfold wf in Hwf. eapply Forall_impl; [exact Hwf|].
    intros col Hcol. simpl. unfold kept in Ej. rewrite <- Hm in Ej.
    unfold size in Hcol.
    destruct (data col) as [l|l]; simpl; f_equal;
      rewrite (keep_unmarked_lookup marks l 0 i) by lia; rewrite Ej; simpl;
      by rewrite Nat.sub_0_r.
  - rewrite lookup_seq_ge by lia. rewrite (lookup_ge_None_2 kept i) by lia. done.
Qed.

(** A second pass marks nothing: the records seen in it are among
    those seen in the first. *)
Lemma duplicated_from_kept seen seen' rs :
  (forall r, r ∈ seen' -> r ∈ seen) ->
  count_true (duplicated_from seen' (keep_unmarked (duplicated_from seen rs) rs)) = 0%nat.
Proof.
  revert seen seen'. induction rs as [|r rs IH]; intros seen seen' Hsub; [done|].
  simpl. destruct (existsb (row_eqb r) seen) eqn:E.
  - apply IH. intros r' Hr'. right. by apply Hsub.
  - simpl. assert (existsb (row_eqb r) seen' = false) as ->.
    { apply not_true_iff_false. intros H. apply existsb_exists in H as (y & Hy & Heq).
      apply not_true_iff_false in E. apply E, existsb_exists. exists y.
      split; [|done]. apply list_elem_of_In, Hsub, list_elem_of_In, Hy. }
    unfold count_true. simpl. apply (IH (r :: seen) (r :: seen')).
    intros r' Hr'. apply elem_of_cons in Hr' as [->|Hr']; [left|right; by apply Hsub].
Qed.

Lemma duplicated_drop_duplicates d :
  wf d -> count_true (duplicated (drop_duplicates d)) = 0%nat.
Proof.
  intros Hwf. unfold duplicated at 1.
  destruct (is_empty (drop_duplicates d)) eqn:E'; [done|].
  assert (is_empty d = false) as E.
  { unfold is_empty in *. simpl in E'. rewrite length_fmap in E'.
    apply orb_false_iff in E' as [E1 E2]. apply orb_false_iff. split; [|done].
    apply Nat.eqb_neq. apply Nat.eqb_neq in E1. lia. }
  rewrite rows_drop_duplicates by done. unfold duplicated. rewrite E.
  by apply duplicated_from_kept.
Qed.

Lemma wf_fill_series n c :
  size (data c) = n -> size (data (SimpleCleaner.fill_series c)) = n.
Proof.
  unfold SimpleCleaner.fill_series, Stats.fillna.
  destruct (data c) as [l|l] eqn:E; simpl; intros H;
    destruct (0 <? Stats.null_count l)%nat; simpl; rewrite ?length_fmap, ?E; done.
Qed.

(** The stages before the removal of duplicates keep the columns as
    long as the index. *)
Lemma wf_before_duplicates U o d d2 :
  wf d ->
  SimpleCleaner.fill_missing (SimpleCleaner.drop_sparse o (SimpleCleaner.rename_columns U d))
  = Some d2 ->
  wf d2.
Proof.
  intros Hwf H. apply fill_missing_inv in H as [Hn Hc].
  unfold SimpleCleaner.drop_sparse in *. rewrite drop_sparse_at_nrows in Hn. simpl in Hn.
  unfold wf. rewrite Hc, Hn. apply Forall_fmap.
  rewrite drop_sparse_at_cols.
  assert (Forall (fun c => size (data c) = nrows d)
            (cols (SimpleCleaner.rename_columns U d))) as Hr.
  { simpl. apply Forall_fmap. eapply Forall_impl; [exact Hwf|]. done. }
  assert (forall cs, Forall (fun c => size (data c) = nrows d) cs ->
            Forall (fun c => size (data (SimpleCleaner.fill_series c)) = nrows d) cs) as Hf.
  { intros cs Hcs. eapply Forall_impl; [exact Hcs|]. intros c. apply wf_fill_series. }
  destruct (Qlt_bool _ 1); apply Hf; [by apply Forall_List_filter|done].
Qed.

End Duplicates.

(** With duplicates dropped and text left as it is, no record of the
    cleaned table equals an earlier one: a second look for duplicates
    finds none. *)
Theorem clean_data_leaves_no_duplicate (U : unicode_data) (now : str)
    (c c' : SimpleCleaner.cleaner) :
  wf (SimpleCleaner.df c) ->
  is_empty (SimpleCleaner.df c) = false ->
  default u"drop" (SimpleCleaner.handle_duplicates (SimpleCleaner.opts c)) = u"drop" ->
  default false (SimpleCleaner.standardize_text (SimpleCleaner.opts c)) = false ->
  SimpleCleaner.clean_data U now c = Some c' ->
  count_true (duplicated (SimpleCleaner.df c')) = 0%nat.
Proof.
  intros Hwf He Hdrop Htext Hclean.
  destruct (clean_data_frame U now c c' He Hclean) as (d2 & Hfill & Hdf & _).
  apply wf_before_duplicates in Hfill; [|done].
  rewrite Htext in Hdf. unfold SimpleCleaner.option_is in Hdf.
  rewrite (bool_decide_eq_true_2 _ Hdrop) in Hdf. rewrite Hdf.
  destruct (0 <? count_true (duplicated d2))%nat eqn:E.
  - by apply duplicated_drop_duplicates.
  - apply Nat.ltb_ge in E. lia.
Qed.

Lemma clean_data_leaves_no_duplicate_witness :
  exists c',
    SimpleCleaner.clean_data ucd_excerpt (u"now") twice_cleaner = Some c'
    /\ nrows (SimpleCleaner.df c') = 1%nat
    /\ count_true (duplicated (SimpleCleaner.df c')) = 0%nat.
Proof.
  assert (wf (SimpleCleaner.df twice_cleaner)) as Hwf by (repeat constructor).
  destruct (SimpleCleaner.clean_data ucd_excerpt (u"now") twice_cleaner)
    as [c'|] eqn:Hclean; [|by vm_compute in Hclean].
  exists c'. split; [reflexivity|].
  split; [vm_compute in Hclean; by injection Hclean as <-|].
  by apply (clean_data_leaves_no_duplicate ucd_excerpt (u"now") twice_cleaner c'
              Hwf eq_refl eq_refl eq_refl Hclean).
Defined.

(** ** The repair of [utils/csv_fixer.py] *)
Section Fixer.

Lemma count_lstrip d s : isspace d = false -> count d (lstrip s) = count d s.
Proof.
  intros Hd. induction s as [|c s IH]; [done|]. simpl.
  destruct (isspace c) eqn:E; [|done]. rewrite count_cons, IH.
  destruct (d =? c) eqn:Edc; [|done]. apply N.eqb_eq in Edc. congruence.
Qed.

(** Trimming takes no comma away. *)
Lemma count_strip d s : isspace d = false -> count d (strip s) = count d s.
Proof.
  intros Hd. unfold strip, rstrip.
  by rewrite count_rev, count_lstrip, count_rev, count_lstrip.
Qed.

Lemma lstrip_head s c r : lstrip s = c :: r -> isspace c = false.
Proof.
  induction s as [|x s IH]; [done|]. simpl. destruct (isspace x) eqn:E; [exact IH|].
  by intros [= <- _].
Qed.

Lemma rstrip_cons c s : isspace c = false -> exists r, rstrip (c :: s) = c :: r.
Proof.
  intros Hc. unfold rstrip. simpl.
  destruct (lstrip_sub (rev s ++ [c])) as [k Hk].
  assert (lstrip (rev s ++ [c]) <> []) as Hne.
  { intros H. apply lstrip_nil in H. rewrite forallb_app in H. simpl in H.
    rewrite Hc in H. by rewrite andb_false_r in H. }
  rewrite Hk in *. clear Hk.
  assert (k < length (rev s ++ [c]))%nat as Hlt.
  { destruct (decide (k < length (rev s ++ [c]))%nat); [done|].
    rewrite drop_ge in Hne by lia. done. }
  rewrite length_app in Hlt. simpl in Hlt.
  rewrite drop_app_le by lia. rewrite rev_app_distr. simpl. by eexists.
Qed.

(** A trimmed text opens with a character that is not white space. *)
Lemma strip_head s c r : strip s = c :: r -> isspace c = false.
Proof.
  unfold strip. destruct (lstrip s) as [|x t] eqn:E; [done|].
  pose proof (lstrip_head s x t E) as Hx.
  destruct (rstrip_cons x t Hx) as [r' ->]. by intros [= <- _].
Qed.

Lemma strip_strip s : strip (strip s) = strip s.
Proof.
  unfold strip, rstrip. set (t := rev (lstrip (rev (lstrip s)))).
  assert (lstrip t = t) as ->.
  { unfold t. destruct (lstrip s) as [|x l] eqn:E; [done|].
    pose proof (lstrip_head _ _ _ E) as Hx.
    destruct (rstrip_cons x l Hx) as [r Hr]. unfold rstrip in Hr. rewrite Hr.
    simpl. by rewrite Hx. }
  unfold t. rewrite rev_involutive.
  destruct (lstrip (rev (lstrip s))) as [|y l'] eqn:E; [done|].
  pose proof (lstrip_head _ _ _ E) as Hy. simpl. by rewrite Hy.
Qed.

Lemma strip_not_nil s x : x ∈ s -> isspace x = false -> strip s <> [].
Proof.
  intros Hx Hs H. pose proof (not_blank_elem s x Hx Hs) as Hb.
  unfold App.is_blank in Hb. by rewrite H in Hb.
Qed.

Lemma reconcile_not_nil n line : line <> [] -> App.reconcile n line <> [].
Proof.
  intros Hne. destruct (reconcile_cases n line) as [->|[[-> _]|[-> _]]]; [done| |].
  - by destruct line.
  - by destruct (join [COMMA] (take n (split COMMA line))).
Qed.

End Fixer.

(** The text [fix_csv_issues] writes is empty, or made of lines none
    of which is empty; the first is the trimmed header, unchanged, and
    every line has at least the commas of the header. *)
Theorem fixed_content_lines (content : str) :
  CsvFixer.fixed_content content = []
  \/ exists header data,
       split LF (CsvFixer.fixed_content content) = header :: data
       /\ strip header = header
       /\ Forall (fun l => l <> [] /\ (count COMMA header <= count COMMA l)%nat)
            (header :: data).
Proof.
  unfold CsvFixer.fixed_content. cbv zeta.
  set (c5 := CsvFixer.sub_quote_space_end _). clearbody c5.
  destruct (strip c5) as [|c0 s] eqn:Es; [by left|]. right.
  pose proof (strip_head _ _ _ Es) as Hc0.
  assert ((c0 =? LF) = false) as Hlf.
  { apply N.eqb_neq. intros ->. done. }
  pose proof (split_parts LF (fun _ => True) (c0 :: s) (Forall_true _ _ (fun _ => I))) as Hfree.
  pose proof (split_cons_ne LF c0 s Hlf) as Hsp.
  pose proof (split_not_nil LF s) as Hs. destruct (split LF s) as [|f fs]; [done|]. clear Hs.
  unfold str, char in *. rewrite Hsp in Hfree |- *. clear Hsp.
  cbn [head default from_option id]. rewrite fmap_cons. cbn [List.filter].
  assert (strip (c0 :: f) <> []) as Hh by (apply (strip_not_nil _ c0); [left|done]).
  rewrite (bool_decide_eq_false_2 _ Hh). cbn [negb]. rewrite fmap_cons.
  rewrite !fix_line_reconcile.
  assert (App.reconcile (count COMMA (c0 :: f)) (strip (c0 :: f)) = strip (c0 :: f)) as ->.
  { unfold App.reconcile. rewrite (count_strip COMMA) by done. by rewrite Nat.ltb_irrefl. }
  set (header := c0 :: f) in *.
  assert (forall rest : list str,
            Forall (fun l => l <> [] /\ Forall (fun x => (x =? LF) = false) l) rest ->
            exists h data,
              split LF (join [LF] (strip header :: (CsvFixer.fix_line (count COMMA header) <$> rest)))
              = h :: data
              /\ strip h = h
              /\ Forall (fun l => l <> [] /\ (count COMMA h <= count COMMA l)%nat) (h :: data))
    as Hgen; [|apply Hgen].
  2:{ apply Forall_forall. intros l Hl.
      apply list_elem_of_In, filter_In in Hl as [Hl Hne]. split.
      - apply negb_true_iff, bool_decide_eq_false in Hne. done.
      - apply in_map_iff in Hl as (l0 & <- & Hl0). apply Forall_strip.
        apply Forall_cons in Hfree as [_ Hfs]. rewrite Forall_forall in Hfs.
        apply list_elem_of_In in Hl0. by destruct (Hfs l0 Hl0). }
  intros rest Hrest.
  assert (CsvFixer.fix_line (count COMMA header) <$> rest
          = App.reconcile (count COMMA header) <$> rest) as ->
    by (apply list_fmap_ext; intros i l _; apply fix_line_reconcile).
  exists (strip header), (App.reconcile (count COMMA header) <$> rest). split; [|split].
  - apply split_join; [done|]. constructor.
    + apply Forall_strip. apply Forall_cons in Hfree as [[_ Hh'] _]. exact Hh'.
    + apply Forall_fmap. eapply Forall_impl; [exact Hrest|]. intros l [_ Hl]. simpl.
      by apply reconcile_Forall.
  - apply strip_strip.
  - constructor; [split; [done|apply Nat.le_refl]|].
    apply Forall_fmap. eapply Forall_impl; [exact Hrest|]. intros l [Hl _]. simpl.
    split; [by apply reconcile_not_nil|].
    rewrite (count_strip COMMA header) by done. apply count_reconcile.
Qed.

(** ** Where the cleaned file is saved and where the download looks for it *)
Section Paths.
Import OsPath.

Lemma rpartition_None c s : c ∉ s -> rpartition c s = None.
Proof.
  induction s as [|x s IH]; [done|]. intros H. simpl.
  rewrite IH by (intros ?; apply H; by right).
  destruct (x =? c) eqn:E; [|done]. apply N.eqb_eq in E as ->. destruct H. left.
Qed.

(** The last [c] of a text that ends with [c] and a part without [c]. *)
Lemma rpartition_app c a e : c ∉ e -> rpartition c (a ++ c :: e) = Some (a, e).
Proof.
  intros H. induction a as [|x a IH]; simpl.
  - by rewrite rpartition_None, N.eqb_refl.
  - by rewrite IH.
Qed.

Lemma join_app a b t : b <> [] -> join a (b ++ t) = join a b ++ t.
Proof.
  intros Hb. unfold join. destruct b as [|x b]; [done|].
  rewrite <- app_comm_cons. cbn [startswith]. rewrite andb_true_r.
  destruct (SLASH =? x); [done|].
  destruct (_ || _); by rewrite <- ?app_assoc.
Qed.

Lemma contains_false c s : c ∉ s -> contains c s = false.
Proof.
  intros H. unfold contains. apply not_true_iff_false. intros E.
  apply existsb_exists in E as (x & Hx & Ex). apply N.eqb_eq in Ex as <-.
  by apply H, list_elem_of_In.
Qed.

(** The path of the cleaned file for a name [base.e]. *)
Lemma save_cleaned_data_cases U folder base e :
  base <> [] -> head base <> Some DOT -> SLASH ∉ base -> DOT ∉ e -> SLASH ∉ e ->
  FileHandler.save_cleaned_data U folder (base ++ DOT :: e)
  = if bool_decide (lower U (DOT :: e) ∈ [u".csv"; u".xlsx"; u".xls"; u".json"])
    then join folder (base ++ DOT :: e)
    else join folder base ++ u".csv".
Proof.
  intros Hne Hhead Hbase Hdot Hslash. unfold FileHandler.save_cleaned_data.
  assert (splitext (base ++ DOT :: e) = (base, DOT :: e)) as ->.
  { unfold splitext. rewrite rpartition_app by done. rewrite contains_false by done.
    rewrite rpartition_None by done.
    destruct base as [|x base]; [done|]. simpl.
    destruct (x =? DOT) eqn:E; [|done]. apply N.eqb_eq in E as ->. done. }
  cbn [snd]. set (ext := lower U (DOT :: e)).
  assert (ext ∈ [u".csv"; u".xlsx"; u".xls"; u".json"]
          <-> ext = u".csv" \/ ext ∈ [u".xlsx"; u".xls"] \/ ext = u".json") as Hk.
  { rewrite !elem_of_cons, elem_of_nil. tauto. }
  destruct (bool_decide (ext = u".csv")) eqn:E1.
  { apply bool_decide_eq_true in E1. rewrite bool_decide_eq_true_2; [done|]. tauto. }
  destruct (bool_decide (ext ∈ [u".xlsx"; u".xls"])) eqn:E2.
  { apply bool_decide_eq_true in E2. rewrite bool_decide_eq_true_2; [done|]. tauto. }
  destruct (bool_decide (ext = u".json")) eqn:E3.
  { apply bool_decide_eq_true in E3. rewrite bool_decide_eq_true_2; [done|]. tauto. }
  apply bool_decide_eq_false in E1, E2, E3.
  rewrite bool_decide_eq_false_2 by tauto.
  rewrite join_app by done. unfold rsplit1. by rewrite rpartition_app.
Qed.

End Paths.

(** The cleaned file of an upload [stem.e] is saved under the name the
    download link carries when [e] is, up to case, one of [csv],
    [xlsx], [xls] and [json].  Otherwise it is saved with [.csv] in
    the place of [.e], and the path the download route opens is
    another one. *)
Theorem cleaned_file_and_download (U : unicode_data) (folder timestamp stem e : str) :
  OsPath.SLASH ∉ timestamp -> OsPath.SLASH ∉ stem ->
  OsPath.DOT ∉ e -> OsPath.SLASH ∉ e ->
  let name := FileHandler.cleaned_filename timestamp (stem ++ OsPath.DOT :: e) in
  let saved := FileHandler.save_cleaned_data U folder name in
  if bool_decide (lower U (OsPath.DOT :: e) ∈ [u".csv"; u".xlsx"; u".xls"; u".json"])
  then saved = FileHandler.download_file folder name
  else saved = FileHandler.download_file folder (FileHandler.cleaned_filename timestamp stem)
                 ++ u".csv"
       /\ saved <> FileHandler.download_file folder name.
Proof.
  intros Hts Hstem Hdot Hslash name saved.
  set (base := FileHandler.cleaned_filename timestamp stem).
  assert (name = base ++ OsPath.DOT :: e) as Hname.
  { unfold name, base, FileHandler.cleaned_filename. by rewrite <- !app_assoc. }
  assert (base <> [] /\ head base <> Some OsPath.DOT /\ OsPath.SLASH ∉ base) as (Hne & Hhead & Hbase).
  { unfold base, FileHandler.cleaned_filename. split; [done|]. split; [done|].
    rewrite !not_elem_of_app. split; [concrete|]. split; [done|]. split; [concrete|done]. }
  unfold saved. rewrite Hname, save_cleaned_data_cases by done.
  unfold FileHandler.download_file.
  case_bool_decide as Hk; [done|]. split; [done|].
  rewrite join_app by done. intros H. apply app_inv_head in H. injection H as <-.
  apply Hk. concrete.
Qed.

Lemma cleaned_file_and_download_witness :
  FileHandler.allowed_file ucd_excerpt (u"data.txt") = true
  /\ FileHandler.save_cleaned_data ucd_excerpt (u"static/uploads")
       (FileHandler.cleaned_filename (u"20240101_000000") (u"data.txt"))
     = u"static/uploads/cleaned_20240101_000000_data.csv"
  /\ FileHandler.save_cleaned_data ucd_excerpt (u"static/uploads")
       (FileHandler.cleaned_filename (u"20240101_000000") (u"data.txt"))
     <> FileHandler.download_file (u"static/uploads")
          (FileHandler.cleaned_filename (u"20240101_000000") (u"data.txt")).
Proof.
  split; [reflexivity|].
  assert (OsPath.SLASH ∉ u"20240101_000000") as H1 by concrete.
  assert (OsPath.SLASH ∉ u"data") as H2 by concrete.
  assert (OsPath.DOT ∉ u"txt") as H3 by concrete.
  assert (OsPath.SLASH ∉ u"txt") as H4 by concrete.
  pose proof (cleaned_file_and_download ucd_excerpt (u"static/uploads")
                (u"20240101_000000") (u"data") (u"txt") H1 H2 H3 H4) as H.
  cbv zeta in H.
  rewrite (bool_decide_eq_false_2
             (lower ucd_excerpt (OsPath.DOT :: u"txt") ∈ [u".csv"; u".xlsx"; u".xls"; u".json"]))
    in H by concrete.
  destruct H as [Hs Hd]. split; [exact Hs|exact Hd].
Defined.

(** ** Loading in [utils/data_cleaner.py] and [utils/file_handler.py] *)
Section Loading.

(** The records appended are those the reader lists, when it does
    not raise. *)
Lemma append_rows_records d p lines :
  Csv.records d p lines
  = if (DataLoader.append_rows d p lines).2
    then Some (DataLoader.append_rows d p lines).1
    else None.
Proof.
  revert p. induction lines as [|l ls IH]; intros p; [done|]. simpl.
  destruct (Csv.feed_line d p l) as [p'|]; [|done]. simpl.
  destruct (Csv.in_record p'); [apply IH|]. rewrite IH. simpl.
  by destruct (DataLoader.append_rows d Csv.reset ls).2.
Qed.

Lemma padded_table_total (rows : list (list str)) :
  is_Some (of_rows (drop 1 (pad_right [] (max_list (length <$> rows)) <$> rows))
             (default [] (head (pad_right [] (max_list (length <$> rows)) <$> rows)))).
Proof.
  destruct rows as [|header [|r records]]; [by eexists|by eexists|].
  destruct (table_of_rows_some header (r :: records)) as (d & Hd & _); [done|].
  exists d. exact Hd.
Qed.

Lemma run_strategies_None cur l :
  (forall d, cur = Some d -> is_empty d = true) ->
  (match DataLoader.run_strategies cur l with
   | Some d => is_empty d = true
   | None => True
   end
   <-> Forall (fun s => forall d, s = Some d -> is_empty d = true) l).
Proof.
  revert cur. induction l as [|[d|] l IH]; intros cur Hcur; simpl.
  - split; [constructor|]. intros _. destruct cur as [d|]; [by apply Hcur|done].
  - destruct (is_empty d) eqn:E; simpl.
    + rewrite IH by (by intros ? [= <-]). split.
      * intros H. constructor; [by intros ? [= <-]|done].
      * by intros [_ H]%Forall_cons_1.
    + split; [congruence|]. intros [H _]%Forall_cons_1. rewrite (H d eq_refl) in E. done.
  - rewrite IH by done. split.
    + intros H. by constructor.
    + by intros [_ H]%Forall_cons_1.
Qed.

Lemma run_strategies_Some cur l d :
  (forall d, cur = Some d -> is_empty d = true) ->
  DataLoader.run_strategies cur l = Some d -> is_empty d = false ->
  exists pre post,
    l = pre ++ Some d :: post
    /\ Forall (fun s => forall d', s = Some d' -> is_empty d' = true) pre.
Proof.
  revert cur. induction l as [|[d0|] l IH]; intros cur Hcur H Hd; simpl in H.
  - rewrite (Hcur d H) in Hd. done.
  - destruct (is_empty d0) eqn:E; simpl in H.
    + destruct (IH (Some d0)) as (pre & post & -> & Hpre); [by intros ? [= <-]|done|done|].
      exists (Some d0 :: pre), post. split; [done|]. constructor; [by intros ? [= <-]|done].
    + injection H as <-. by exists [], l.
  - destruct (IH cur Hcur H Hd) as (pre & post & -> & Hpre).
    exists (None :: pre), post. split; [done|]. by constructor.
Qed.

End Loading.

(** [data_cleaner] loads a CSV file as the frame of the first of its
    five strategies that returns a frame with a record; it raises
    exactly when every strategy raises or returns an empty frame.  A
    cleaner it builds from a CSV file never holds an empty table. *)
Theorem data_load_csv (L : DataLoader.library) (f : file) (o : DataCleaner.options) :
  (DataLoader._load_data L SimpleCleaner.Csv f o = None
   <-> Forall (fun s => forall d, s = Some d -> is_empty d = true) (DataLoader.strategies L f))
  /\ (forall c,
        DataLoader._load_data L SimpleCleaner.Csv f o = Some c ->
        is_empty (DataCleaner.df c) = false
        /\ DataCleaner.original_shape c
           = (nrows (DataCleaner.df c), length (cols (DataCleaner.df c)))
        /\ exists pre post,
             DataLoader.strategies L f = pre ++ Some (DataCleaner.df c) :: post
             /\ Forall (fun s => forall d, s = Some d -> is_empty d = true) pre).
Proof.
  unfold DataLoader._load_data.
  pose proof (run_strategies_None None (DataLoader.strategies L f)) as HN.
  pose proof (run_strategies_Some None (DataLoader.strategies L f)) as HS.
  destruct (DataLoader.run_strategies None (DataLoader.strategies L f)) as [d|].
  - destruct (is_empty d) eqn:E; simpl.
    + split; [|done]. split; [intros _; by apply HN|done].
    + split.
      * split; [done|]. intros H. apply HN in H; [congruence|done].
      * intros c [= <-]. simpl. split; [done|]. split; [done|]. by apply HS.
  - simpl. split; [|done]. split; [intros _; by apply HN|done].
Qed.

(** pandas reads a header without records from [header_only_file]:
    the loader raises; it reads two records from [twice_file]: the
    loader keeps them. *)
Lemma data_load_csv_witness :
  DataLoader._load_data (data_on_ascii_file (of_header [u"a"; u"b"])) SimpleCleaner.Csv
    header_only_file data_no_options = None
  /\ exists c,
       DataLoader._load_data (data_on_ascii_file twice_frame) SimpleCleaner.Csv
         twice_file data_no_options = Some c
       /\ is_empty (DataCleaner.df c) = false.
Proof.
  split.
  - apply (data_load_csv (data_on_ascii_file (of_header [u"a"; u"b"])) header_only_file
             data_no_options).
    repeat constructor; intros d [= <-]; reflexivity.
  - eexists. split; [vm_compute; reflexivity|].
    apply (data_load_csv (data_on_ascii_file twice_frame) twice_file data_no_options).
    vm_compute. reflexivity.
Defined.

(** The manual strategy of [data_cleaner] never raises: completing
    every record to the width of the widest makes the header fit.
    When the reader comes to the end of the file under UTF-8, the
    frame is built from its records as [app.py] builds its own. *)
Theorem data_manual_read (f : file) :
  is_Some (DataLoader._manual_csv_read f)
  /\ (forall t rows,
        text f UTF8 Replace = Some t ->
        Csv.reader COMMA (file_lines t) = Some rows ->
        (1 < length rows)%nat ->
        DataLoader._manual_csv_read f = App.table_of_rows rows).
Proof.
  split.
  - unfold DataLoader._manual_csv_read.
    destruct (DataLoader.manual_rows f [] _) as [|r rs] eqn:E; [by eexists|].
    apply padded_table_total.
  - intros t rows Ht Hr Hlen. unfold DataLoader._manual_csv_read. simpl. rewrite Ht.
    unfold Csv.reader in Hr. rewrite append_rows_records in Hr.
    destruct (DataLoader.append_rows COMMA Csv.reset (file_lines t)) as [rs ok]. simpl in *.
    destruct ok; [|done]. injection Hr as ->.
    unfold App.table_of_rows. apply Nat.ltb_lt in Hlen. rewrite Hlen.
    destruct rows; [done|]. done.
Qed.

Lemma data_manual_read_witness :
  DataLoader._manual_csv_read wide_file
  = App.table_of_rows [[u"a"; u"b"]; [u"1"; u"2"; u"3"; u"4"]].
Proof.
  destruct (data_manual_read wide_file) as [_ H].
  apply (H (u"a,b" ++ [LF] ++ u"1,2,3,4" ++ [LF])); [reflexivity|vm_compute; reflexivity|].
  apply (Nat.ltb_lt 1 2). reflexivity.
Defined.

(** [load_file] raises on a CSV file exactly when pandas refuses it
    four times and the manual read cannot open it or its reader
    raises: the table the manual read builds always fits its header. *)
Theorem safe_read_csv_raises_iff (L : FileHandler.library) (f : file) :
  FileHandler.load_file L SimpleCleaner.Csv f = None
  <-> FileHandler.pd_read_csv L f UTF8 = None
      /\ FileHandler.pd_read_csv L f LATIN1 = None
      /\ FileHandler.pd_read_csv_skip L f UTF8 = None
      /\ FileHandler.pd_read_csv_skip L f LATIN1 = None
      /\ (text f UTF8 Ignore ≫= fun t => Csv.reader COMMA (file_lines t)) = None.
Proof.
  unfold FileHandler.load_file, FileHandler._safe_read_csv. simpl.
  destruct (FileHandler.pd_read_csv L f UTF8); [split; [done|by intros [? _]]|].
  destruct (FileHandler.pd_read_csv L f LATIN1); [split; [done|by intros (_ & ? & _)]|].
  destruct (FileHandler.pd_read_csv_skip L f UTF8); [split; [done|by intros (_ & _ & ? & _)]|].
  destruct (FileHandler.pd_read_csv_skip L f LATIN1);
    [split; [done|by intros (_ & _ & _ & ? & _)]|].
  unfold FileHandler._manual_csv_read.
  destruct (text f UTF8 Ignore) as [t|]; simpl; [|done].
  destruct (Csv.reader COMMA (file_lines t)) as [rows|]; simpl; [|done].
  match goal with |- (?X = None <-> _) => assert (is_Some X) as [d ->] end.
  { destruct (_ <? _)%nat; [|by eexists].
    destruct (padded_table_total rows) as [d Hd]. exists d.
    unfold str, char in *. by rewrite Hd. }
  split; [done|]. by intros (_ & _ & _ & _ & ?).
Qed.

(** ** Column names after cleaning *)

(** Stage 1 of [simple_cleaner] touches the labels only.  When the
    labels are Latin-1 text, every label it leaves is a non-empty text
    of lower-case word characters: no white space, no punctuation, no
    capital letter. *)
Theorem rename_columns_names (U : unicode_data) (d : DataFrame) :
  Forall (fun c => forall s, name c = Lstr s -> Forall (fun x => x < 256) s) (cols d) ->
  nrows (SimpleCleaner.rename_columns U d) = nrows d
  /\ data <$> cols (SimpleCleaner.rename_columns U d) = data <$> cols d
  /\ Forall (fun c => exists s, name c = Lstr s /\ s <> []
                                /\ Forall (fun x => settled x = true) s)
       (cols (SimpleCleaner.rename_columns U d)).
Proof.
  intros H. split; [done|]. split.
  - simpl. rewrite <- list_fmap_compose. by apply list_fmap_ext.
  - simpl. apply Forall_fmap. eapply Forall_impl; [exact H|]. intros c Hc. simpl.
    eexists. split; [done|]. destruct (name c) as [|s] eqn:E.
    + split; [done|]. apply Forall_forall. intros x Hx.
      apply (proj1 (Forall_forall (fun x => settled x = true) (u"unknown_column")));
        [|exact Hx]. repeat constructor.
    + apply clean_column_name_settled. by apply Hc.
Qed.

Lemma rename_columns_names_witness :
  columns (SimpleCleaner.rename_columns ucd_excerpt twin_frame) = [Lstr u"a"; Lstr u"a"]
  /\ Forall (fun c => exists s, name c = Lstr s /\ s <> []
                                /\ Forall (fun x => settled x = true) s)
       (cols (SimpleCleaner.rename_columns ucd_excerpt twin_frame)).
Proof.
  split; [reflexivity|].
  apply (rename_columns_names ucd_excerpt twin_frame).
  repeat constructor; intros s [= <-]; repeat constructor.
Defined.

(** Stage 5 of [data_cleaner] on a Latin-1 label: the name it gives
    has no space, no hyphen and no parenthesis, and no letter in upper
    case. *)
Theorem standard_name_clean (U : unicode_data) (s : str) :
  Forall (fun x => x < 256) s ->
  Forall (fun x => (x ∉ (u" -()")) /\ latin1_lower x = x)
    (DataCleaner.standard_name U (Lstr s)).
Proof.
  intros H. unfold DataCleaner.standard_name.
  set (r := replace _ _ (replace _ _ (replace _ _ (replace _ _ (strip s))))).
  assert (Forall (fun x => x < 256) r) as Hr.
  { unfold r. repeat (apply Forall_replace; [by repeat constructor|]). by apply Forall_strip. }
  assert ((32 ∉ r) /\ (45 ∉ r) /\ (40 ∉ r) /\ (41 ∉ r)) as (H1 & H2 & H3 & H4).
  { unfold r. split; [|split; [|split]].
    - do 3 (apply replace_keeps_out; [concrete|]). apply (replace_single_gone 32). concrete.
    - do 2 (apply replace_keeps_out; [concrete|]). apply (replace_single_gone 45). concrete.
    - do 1 (apply replace_keeps_out; [concrete|]). apply (replace_single_gone 40). concrete.
    - apply (replace_single_gone 41). concrete. }
  unfold lower. rewrite lower_from_latin1 by done. clearbody r.
  apply Forall_fmap, Forall_forall. intros x Hx. simpl.
  pose proof (proj1 (Forall_forall _ _) Hr x Hx) as Hlt. simpl in Hlt.
  pose proof (below_256_enum
    (fun x => implb (negb (contains x (u" -()")))
                (negb (contains (latin1_lower x) (u" -()"))
                 && (latin1_lower (latin1_lower x) =? latin1_lower x)))
    ltac:(vm_compute; reflexivity) x Hlt) as Hb.
  cbv beta in Hb.
  assert (x ∉ (u" -()")) as Hout.
  { intros Hin. repeat (apply elem_of_cons in Hin as [->|Hin]); try done.
    by apply elem_of_nil in Hin. }
  rewrite (contains_false _ _ Hout) in Hb. cbn [negb implb] in Hb.
  apply andb_prop in Hb as [Hb1 Hb2]. split.
  - apply negb_true_iff in Hb1. intros Hin. apply not_true_iff_false in Hb1. apply Hb1.
    unfold contains. apply existsb_exists. exists (latin1_lower x). split; [by apply list_elem_of_In|].
    apply N.eqb_refl.
  - by apply N.eqb_eq.
Qed.

Lemma standard_name_clean_witness :
  DataCleaner.standard_name ucd_excerpt (Lstr (u" Unit-Price (USD) ")) = u"unit_price_usd"
  /\ Forall (fun x => (x ∉ (u" -()")) /\ latin1_lower x = x)
       (DataCleaner.standard_name ucd_excerpt (Lstr (u" Unit-Price (USD) "))).
Proof.
  split; [reflexivity|].
  apply (standard_name_clean ucd_excerpt (u" Unit-Price (USD) ")).
  apply Forall_forall. intros x Hx.
  apply (proj1 (Forall_forall (fun x => x < 256) (u" Unit-Price (USD) "))); [|exact Hx].
  repeat constructor.
Defined.

(** ** The files the route [/] touches while loading *)

(** Loading an upload alters no file that exists.  The disk is left
    as it was, or it holds one file more: the repaired copy, written
    under a name that was free when the cascade returned an empty
    frame for a CSV upload; that copy is on disk when the lines
    return, however they return. *)
Theorem index_load_disk (L : Index.library) (d : gmap Index.path file) (is_csv : bool)
    (ext : SimpleCleaner.extension) (original_path : Index.path)
    (o : SimpleCleaner.options) :
  let after := (Index.load L d is_csv ext original_path o).1 in
  (forall p, is_Some (d !! p) -> after !! p = d !! p)
  /\ (after = d
      \/ exists f df_raw content,
           is_csv = true
           /\ d !! original_path = Some f
           /\ App.read_csv_with_fallbacks (Index.app L) f = Some df_raw
           /\ is_empty df_raw = true
           /\ text f UTF8 Ignore = Some content
           /\ d !! Index.temp_name d = None
           /\ after = <[Index.temp_name d := Index.written L (App.clean_csv_content content)]> d).
Proof.
  intros after.
  assert (d !! Index.temp_name d = None) as Hfresh.
  { apply not_elem_of_dom. unfold Index.temp_name. apply fresh_string_of_set_fresh. }
  assert (after = (Index.retained_file L d is_csv original_path).1) as Hafter.
  { unfold after, Index.load.
    destruct (Index.retained_file L d is_csv original_path).2 as [[filepath temp_path]|];
      [|done].
    destruct (_ ≫= _) as [c|]; [|done]. by destruct (is_empty _). }
  rewrite Hafter. clear Hafter after. unfold Index.retained_file.
  destruct is_csv; [|split; [done|by left]].
  destruct (d !! original_path) as [f|] eqn:Ef; simpl; [|split; [done|by left]].
  destruct (App.read_csv_with_fallbacks (Index.app L) f) as [df_raw|] eqn:Er;
    [|split; [done|by left]].
  destruct (is_empty df_raw) eqn:Ee; [|split; [done|by left]].
  destruct (text f UTF8 Ignore) as [content|] eqn:Et; simpl; [|split; [done|by left]].
  split.
  - intros p [x Hp]. apply lookup_insert_ne. intros <-. congruence.
  - right. exists f, df_raw, content. done.
Qed.

(** An upload of no byte: the repaired copy is written, the upload is
    as it was. *)
Lemma index_load_disk_witness :
  let L := {| Index.app := on_empty_file;
              Index.cleaner_library := simple_on_empty_file;
              Index.written := plain_file |} in
  let d : gmap Index.path file := {[ "uploads/x.csv" := empty_file ]} in
  (Index.load L d true SimpleCleaner.Csv "uploads/x.csv" SimpleCleaner.no_options).1
    !! "uploads/x.csv" = Some empty_file.
Proof.
  intros L d.
  destruct (index_load_disk L d true SimpleCleaner.Csv "uploads/x.csv"
              SimpleCleaner.no_options) as [H _].
  rewrite H; [reflexivity|]. exists empty_file. reflexivity.
Defined.

(** ** Filling in [utils/data_cleaner.py] *)
Section DataFilling.
Import Stats.

Lemma null_count_const {A B} (v : B) (l : list A) :
  null_count ((fun _ => Some v) <$> l) = 0%nat.
Proof. induction l as [|x l IH]; [done|]. rewrite fmap_cons, null_count_cons. by rewrite IH. Qed.

(** Stage 2 on one column: a cell is still missing afterwards only in
    a numeric column, under a method other than [mode], when the
    statistic of the method is NaN. *)
Lemma data_fill_series_hole method c :
  (0 < DataCleaner.series_null_count (DataCleaner.fill_series method c))%nat ->
  exists l,
    data c = NumCol l
    /\ method <> u"mode"
    /\ ((method = u"mean" /\ mean l = None)
        \/ (method <> u"mean" /\ median l = None)).
Proof.
  unfold DataCleaner.fill_series, DataCleaner.series_null_count.
  destruct (data c) as [l|l] eqn:E; simpl.
  - destruct (0 <? null_count l)%nat eqn:E0;
      [|rewrite E; apply Nat.ltb_ge in E0; intros H; lia].
    case_bool_decide as Hmean; simpl.
    { destruct (mean l) as [m|] eqn:Em; [rewrite null_count_fillna; lia|].
      intros _. exists l. split; [done|]. split; [by rewrite Hmean|]. by left. }
    case_bool_decide as Hmedian; simpl.
    { destruct (median l) as [m|] eqn:Em; [rewrite null_count_fillna; lia|].
      intros _. exists l. split; [done|]. split; [by rewrite Hmedian|]. by right. }
    case_bool_decide as Hmode; simpl.
    { destruct (mode_first num_leb num_eqb l); simpl;
        [rewrite null_count_fillna; lia|rewrite null_count_const; lia]. }
    destruct (median l) as [m|] eqn:Em; [rewrite null_count_fillna; lia|].
    intros _. exists l. split; [done|]. split; [done|]. by right.
  - destruct (0 <? null_count l)%nat eqn:E0;
      [|rewrite E; apply Nat.ltb_ge in E0; intros H; lia].
    case_bool_decide; simpl; [|rewrite null_count_fillna; lia].
    destruct (mode_first str_leb str_eqb l); simpl; rewrite null_count_fillna; lia.
Qed.

Lemma data_fill_series_name method c : name (DataCleaner.fill_series method c) = name c.
Proof.
  unfold DataCleaner.fill_series.
  destruct (data c) as [l|l]; destruct (0 <? null_count l)%nat; try done;
    repeat case_bool_decide; try done; by destruct (mode_first _ _ l).
Qed.

End DataFilling.

(** Stage 2 of [data_cleaner] keeps the records and the labels.  A
    column that still misses a cell after it is a numeric column,
    filled under a method other than [mode], whose statistic is NaN:
    the mean under [mean]; otherwise the median, which is NaN only
    when the column has no value or holds both infinities.  So no
    cell of a text column is missing, and none at all under [mode]. *)
Theorem data_fill_leaves_no_hole (o : DataCleaner.options) (d d' : DataFrame) :
  DataCleaner.fill_missing o d = Some d' ->
  let method := default (u"auto") (DataCleaner.handle_missing o) in
  nrows d' = nrows d
  /\ columns d' = columns d
  /\ (forall i c c',
        cols d !! i = Some c -> cols d' !! i = Some c' ->
        (0 < DataCleaner.series_null_count c')%nat ->
        exists l,
          data c = NumCol l
          /\ method <> u"mode"
          /\ ((method = u"mean" /\ Stats.mean l = None)
              \/ (method <> u"mean" /\ Stats.median l = None
                  /\ (Stats.dropna l = [] \/ (Some PInf ∈ l /\ Some NInf ∈ l))))).
Proof.
  unfold DataCleaner.fill_missing. case_bool_decide; [|done]. intros [= <-]. cbv zeta. simpl.
  split; [done|]. split.
  - unfold columns. simpl. rewrite <- list_fmap_compose. apply list_fmap_ext.
    intros i c _. apply data_fill_series_name.
  - intros i c c' Hc Hc' Hhole. rewrite list_lookup_fmap, Hc in Hc'. injection Hc' as <-.
    destruct (data_fill_series_hole _ _ Hhole) as (l & Hl & Hmode & Hstat).
    exists l. split; [done|]. split; [done|].
    destruct Hstat as [[Hm Hn]|[Hm Hn]]; [by left|right].
    split; [done|]. split; [done|]. by apply median_None.
Qed.

(** Under [median] the column [x] of [inf_frame] keeps its hole: it
    holds both infinities. *)
Lemma data_fill_leaves_no_hole_witness :
  exists d' c',
    DataCleaner.fill_missing (data_options "median") inf_frame = Some d'
    /\ cols d' !! 0%nat = Some c'
    /\ DataCleaner.series_null_count c' = 1%nat
    /\ Stats.median [Some PInf; Some NInf; None] = None.
Proof.
  destruct (DataCleaner.fill_missing (data_options "median") inf_frame) as [d'|] eqn:E;
    [|by vm_compute in E].
  destruct (data_fill_leaves_no_hole (data_options "median") inf_frame d' E) as (_ & _ & H).
  destruct (cols d' !! 0%nat) as [c'|] eqn:E0;
    [|vm_compute in E; injection E as <-; discriminate E0].
  assert (DataCleaner.series_null_count c' = 1%nat) as Hone.
  { vm_compute in E. injection E as <-. by injection E0 as <-. }
  exists d', c'. split; [done|]. split; [done|]. split; [done|].
  destruct (H 0%nat _ c' eq_refl E0) as (l & Hl & _ & [[Habs _]|(_ & Hm & _)]); [lia| |].
  - by vm_compute in Habs.
  - injection Hl as <-. exact Hm.
Defined.

(** ** The CSV test of the routes and the branch the cleaner takes *)
Section Dispatching.
Import OsPath.

Lemma rpartition_Some c s a b :
  rpartition c s = Some (a, b) -> s = a ++ c :: b /\ c ∉ b.
Proof.
  revert a. induction s as [|x s IH]; intros a H; [done|]. simpl in H.
  destruct (rpartition c s) as [[a' b']|] eqn:E.
  - injection H as <- <-. destruct (IH a' eq_refl) as [-> Hb]. done.
  - destruct (x =? c) eqn:Ex; [|done]. injection H as <- <-.
    apply N.eqb_eq in Ex as ->. split; [done|].
    clear IH. induction s as [|y s IHs]; [apply not_elem_of_nil|]. simpl in E.
    destruct (rpartition c s) as [[? ?]|]; [done|].
    destruct (y =? c) eqn:Ey; [done|]. apply N.eqb_neq in Ey.
    apply not_elem_of_cons. split; [done|]. by apply IHs.
Qed.

Lemma rpartition_None_inv c s : rpartition c s = None -> c ∉ s.
Proof.
  induction s as [|y s IHs]; [intros _; apply not_elem_of_nil|]. simpl.
  destruct (rpartition c s) as [[? ?]|]; [done|].
  destruct (y =? c) eqn:Ey; [done|]. apply N.eqb_neq in Ey. intros _.
  apply not_elem_of_cons. split; [done|]. by apply IHs.
Qed.

Lemma rpartition_app_r c x y :
  c ∉ y ->
  rpartition c (x ++ y)
  = match rpartition c x with Some (a, b) => Some (a, b ++ y) | None => None end.
Proof.
  intros Hy. induction x as [|h x IH]; simpl; [by apply rpartition_None|].
  rewrite IH. destruct (rpartition c x) as [[a b]|]; [done|]. by destruct (h =? c).
Qed.

(** What [os.path.join] puts before a name that opens with no slash:
    nothing, or a directory part that ends with a slash. *)
Lemma join_prefix folder b :
  startswith [SLASH] b = false ->
  exists F, join folder b = F ++ b /\ (F = [] \/ last F = Some SLASH).
Proof.
  intros Hb. unfold join. rewrite Hb.
  destruct (bool_decide (folder = [])) eqn:E1; simpl.
  - apply bool_decide_eq_true in E1 as ->. exists []. split; [done|by left].
  - destruct (bool_decide (last folder = Some SLASH)) eqn:E2.
    + apply bool_decide_eq_true in E2. exists folder. split; [done|by right].
    + exists (folder ++ [SLASH]). rewrite <- app_assoc. split; [done|].
      right. apply last_snoc.
Qed.

Lemma splitext_ext F base e :
  F = [] \/ last F = Some SLASH ->
  SLASH ∉ base -> DOT ∉ e -> SLASH ∉ e ->
  existsb (fun c => negb (c =? DOT)) base = true ->
  splitext (F ++ base ++ DOT :: e) = (F ++ base, DOT :: e).
Proof.
  intros HF Hbase Hdot Hslash Hne. unfold splitext.
  rewrite app_assoc, rpartition_app by done. rewrite contains_false by done.
  match goal with
  | |- context [existsb _ ?m] => assert (m = base) as ->; [|by rewrite Hne]
  end.
  destruct HF as [->|HF].
  - simpl. by rewrite rpartition_None.
  - destruct F as [|x F0] using rev_ind; [done|]. rewrite last_snoc in HF.
    injection HF as ->. rewrite <- app_assoc. simpl. by rewrite rpartition_app.
Qed.

Lemma last_after (a b : str) c d :
  last (a ++ c :: b) = Some d -> c <> d -> d ∈ b.
Proof.
  intros H Hne. destruct b as [|y b _] using rev_ind.
  - rewrite last_snoc in H. congruence.
  - rewrite app_comm_cons, app_assoc, last_snoc in H. injection H as ->.
    apply elem_of_app. right. left.
Qed.

Lemma splitext_nodot F base :
  F = [] \/ last F = Some SLASH -> DOT ∉ base ->
  (splitext (F ++ base)).2 = [].
Proof.
  intros HF Hbase. unfold splitext. rewrite rpartition_app_r by done.
  destruct (rpartition DOT F) as [[a b]|] eqn:E; [|done].
  apply rpartition_Some in E as [-> Hb].
  assert (contains SLASH (b ++ base) = true) as ->; [|done].
  destruct HF as [HF|HF]; [by destruct a|].
  unfold contains. rewrite existsb_app. apply orb_true_iff. left.
  apply existsb_exists. exists SLASH. split; [|done]. apply list_elem_of_In.
  by apply (last_after a b DOT SLASH).
Qed.

Lemma startswith_snoc c p q r :
  c ∉ p -> c ∉ q ->
  startswith (p ++ [c]) (q ++ c :: r) = bool_decide (p = q).
Proof.
  revert q. induction p as [|x p IH]; intros q Hp Hq.
  - destruct q as [|y q]; simpl.
    + by rewrite N.eqb_refl.
    + apply not_elem_of_cons in Hq as [Hy _].
      assert ((c =? y) = false) as -> by (by apply N.eqb_neq). done.
  - apply not_elem_of_cons in Hp as [Hx Hp]. destruct q as [|y q]; simpl.
    + assert ((x =? c) = false) as -> by (apply N.eqb_neq; congruence). done.
    + apply not_elem_of_cons in Hq as [Hy Hq]. rewrite IH by done.
      destruct (x =? y) eqn:E; simpl.
      * apply N.eqb_eq in E as ->. apply bool_decide_ext. split; [by intros ->|by intros [= ->]].
      * apply N.eqb_neq in E. symmetry. apply bool_decide_eq_false. by intros [= ? _].
Qed.

Lemma endswith_ext a e' :
  DOT ∉ e' ->
  Dispatch.endswith (u".csv") (a ++ DOT :: e') = bool_decide (e' = u"csv").
Proof.
  intros He. unfold Dispatch.endswith. rewrite rev_app_distr. simpl rev at 2.
  rewrite <- app_assoc. simpl app at 2.
  change (rev (u".csv")) with (rev (u"csv") ++ [DOT]).
  rewrite startswith_snoc.
  - apply bool_decide_ext. split.
    + intros H. apply (f_equal (@rev _)) in H. by rewrite !rev_involutive in H.
    + by intros ->.
  - concrete.
  - intros H. apply He. apply list_elem_of_In, in_rev, list_elem_of_In. done.
Qed.

Lemma endswith_nodot s : DOT ∉ s -> Dispatch.endswith (u".csv") s = false.
Proof.
  intros Hs. apply not_true_iff_false. intros H. apply Hs.
  unfold Dispatch.endswith in H.
  apply (startswith_elem DOT) in H; [|concrete].
  by apply list_elem_of_In, in_rev, list_elem_of_In.
Qed.

Lemma latin1_lower_dot (s : str) :
  Forall (fun x => x < 256) s -> DOT ∉ s -> DOT ∉ (latin1_lower <$> s).
Proof.
  intros Hs Hd Hin. apply list_elem_of_fmap in Hin as (x & Hx & Hin).
  apply Hd. replace DOT with x; [done|].
  pose proof (proj1 (Forall_forall _ _) Hs x Hin) as Hlt. simpl in Hlt.
  pose proof (below_256_enum
    (fun x => implb (latin1_lower x =? DOT) (x =? DOT))
    ltac:(vm_compute; reflexivity) x Hlt) as Hb.
  cbv beta in Hb. rewrite <- Hx, N.eqb_refl in Hb. by apply N.eqb_eq.
Qed.

Lemma extension_of_csv U p :
  Dispatch.extension_of U p = SimpleCleaner.Csv <-> lower U (splitext p).2 = u".csv".
Proof.
  unfold Dispatch.extension_of. repeat case_bool_decide; done.
Qed.

End Dispatching.

(** The routes treat an upload as CSV exactly when the cleaner, given
    the path the upload was saved to, takes its CSV branch: for a
    Latin-1 file name without slash, [filename.lower().endswith('.csv')]
    holds if and only if the lower-cased extension of the saved path
    is [.csv]. *)
Theorem csv_test_agrees (U : unicode_data) (folder timestamp filename : str) :
  Forall (fun x => x < 256) filename ->
  OsPath.SLASH ∉ filename ->
  OsPath.SLASH ∉ timestamp -> OsPath.DOT ∉ timestamp ->
  Dispatch.is_csv_upload U filename = true
  <-> Dispatch.extension_of U (FileHandler.save_uploaded_file folder timestamp filename)
      = SimpleCleaner.Csv.
Proof.
  intros Hlat Hslash Hts Hdts. rewrite extension_of_csv.
  unfold Dispatch.is_csv_upload, FileHandler.save_uploaded_file, lower.
  rewrite (lower_from_latin1 U [] filename Hlat).
  destruct (join_prefix folder (timestamp ++ [UNDERSCORE] ++ filename)) as (F & -> & HF).
  { destruct timestamp as [|x ts]; [done|]. rewrite <- app_comm_cons.
    cbn [startswith]. rewrite andb_true_r.
    apply N.eqb_neq. intros <-. apply Hts. left. }
  destruct (OsPath.rpartition OsPath.DOT filename) as [[a e]|] eqn:E.
  - apply rpartition_Some in E as [-> He].
    apply Forall_app in Hlat as [Ha Hlat]. apply Forall_cons in Hlat as [_ He256].
    apply not_elem_of_app in Hslash as [Hsa Hse]. apply not_elem_of_cons in Hse as [_ Hse].
    replace (F ++ timestamp ++ [UNDERSCORE] ++ a ++ OsPath.DOT :: e)
      with (F ++ (timestamp ++ [UNDERSCORE] ++ a) ++ OsPath.DOT :: e)
      by (by rewrite <- !app_assoc).
    rewrite splitext_ext; [|done| |done|done|].
    + cbn [snd]. rewrite (lower_from_latin1 U [] (OsPath.DOT :: e)) by (by constructor).
      rewrite fmap_app, !fmap_cons.
      change (latin1_lower OsPath.DOT) with OsPath.DOT.
      rewrite endswith_ext by (by apply latin1_lower_dot).
      rewrite bool_decide_eq_true. split; [by intros ->|by intros [= ->]].
    + rewrite !not_elem_of_app. split; [done|]. split; [concrete|done].
    + rewrite !existsb_app. simpl. by rewrite orb_true_r.
  - apply rpartition_None_inv in E.
    rewrite endswith_nodot by (by apply latin1_lower_dot).
    rewrite splitext_nodot; [done|done|].
    rewrite !not_elem_of_app. split; [done|]. split; [concrete|done].
Qed.

Lemma csv_test_agrees_witness :
  Dispatch.is_csv_upload ucd_excerpt (u"Sales.CSV") = true
  /\ Dispatch.extension_of ucd_excerpt
       (FileHandler.save_uploaded_file (u"static/uploads") (u"20240101_000000") (u"Sales.CSV"))
     = SimpleCleaner.Csv.
Proof.
  split; [reflexivity|].
  apply (csv_test_agrees ucd_excerpt (u"static/uploads") (u"20240101_000000") (u"Sales.CSV"));
    [|concrete|concrete|concrete|reflexivity].
  apply Forall_forall. intros x Hx.
  apply (proj1 (Forall_forall (fun x => x < 256) (u"Sales.CSV"))); [|exact Hx].
  repeat constructor.
Defined.
